(** * bridgebot: the knowledge-base service, embedded and verified

    A shallow embedding of [backend/src/services/knowledgeService.js] and of
    the search route of the knowledge router, followed by the properties of
    the document index, of search and of the chunker.

    Conventions of the embedding.
    - A JavaScript string is a [string]: a sequence of code units below 256
      (the Latin-1 range), on which [toLowerCase], [\s], [\w] and [trim] are
      written out.
    - A JavaScript integer number is a [Z].
    - A [Map] is an association list in insertion order ([JsMap]); a [Set] of
      objects is a list of objects in insertion order, each carrying the
      address it was allocated at, and membership is identity of addresses.
    - The module-level [documents] and [documentIndex] are the fields of an
      explicit state [KB], threaded through the operations together with the
      allocation counter and the uploaded files. *)

From Stdlib Require Import Bool Arith ZArith Lia List Ascii String Sorted.
From Stdlib Require Import NArith DecimalString Permutation.
Import ListNotations.

Local Open Scope string_scope.
Local Open Scope list_scope.
Local Open Scope nat_scope.

(* ================================================================== *)
(** ** Strings, as the service uses them *)

Module JsString.

Definition code (c : ascii) : nat := nat_of_ascii c.

(** [\s] of a regular expression, and the characters [trim] strips:
    TAB, LF, VT, FF, CR, SPACE and NBSP are the ones below 256. *)
Definition isWhiteSpace (c : ascii) : bool :=
  let n := code c in
  ((9 <=? n) && (n <=? 13)) || (n =? 32) || (n =? 160).

(** [\w] is [A-Za-z0-9_]. *)
Definition isWordChar (c : ascii) : bool :=
  let n := code c in
  ((48 <=? n) && (n <=? 57)) || ((65 <=? n) && (n <=? 90))
  || (n =? 95) || ((97 <=? n) && (n <=? 122)).

(** [toLowerCase] on one code unit: [A-Z], and the Latin-1 capitals
    U+00C0..U+00DE except the multiplication sign U+00D7. *)
Definition toLowerChar (c : ascii) : ascii :=
  let n := code c in
  if ((65 <=? n) && (n <=? 90))
     || ((192 <=? n) && (n <=? 222) && negb (n =? 215))
  then ascii_of_nat (n + 32) else c.

Fixpoint map (f : ascii -> ascii) (s : string) : string :=
  match s with
  | EmptyString => EmptyString
  | String c s' => String (f c) (map f s')
  end.

Definition toLowerCase (s : string) : string := map toLowerChar s.

(** [s.replace(/[^\w\s]/g, ' ')] *)
Definition replaceNonWord (s : string) : string :=
  map (fun c => if isWordChar c || isWhiteSpace c then c else " "%char) s.

Definition startsWithSpace (s : string) : bool :=
  match s with
  | EmptyString => false
  | String c _ => isWhiteSpace c
  end.

(** [s.split(/\s+/)]: the pieces between maximal runs of white space.
    A leading or trailing run leaves an empty piece at that end, and the
    empty string splits into one empty piece. *)
Fixpoint split (s : string) : list string :=
  match s with
  | EmptyString => [EmptyString]
  | String c s' =>
      if isWhiteSpace c then
        if startsWithSpace s' then split s' else EmptyString :: split s'
      else
        match split s' with
        | p :: ps => String c p :: ps
        | [] => [String c EmptyString]
        end
  end.

(** [words.join(' ')] *)
Definition join (sep : string) (l : list string) : string := concat sep l.

Fixpoint trimStart (s : string) : string :=
  match s with
  | EmptyString => EmptyString
  | String c s' => if isWhiteSpace c then trimStart s' else s
  end.

Fixpoint trimEnd (s : string) : string :=
  match s with
  | EmptyString => EmptyString
  | String c s' =>
      match trimEnd s' with
      | EmptyString => if isWhiteSpace c then EmptyString else String c EmptyString
      | r => String c r
      end
  end.

Definition trim (s : string) : string := trimEnd (trimStart s).

(** Truthiness of a string: every string but the empty one. *)
Definition truthy (s : string) : bool :=
  match s with
  | EmptyString => false
  | String _ _ => true
  end.

(** [s.includes(t)] *)
Fixpoint includes (s t : string) : bool :=
  prefix t s
  || match s with
     | EmptyString => false
     | String _ s' => includes s' t
     end.

(** [(s.match(new RegExp(pat, 'g')) || []).length] for a pattern made of
    word characters only, which matches literally: the number of
    occurrences found left to right without overlap. [skip] counts the
    code units of the last match still to be passed over. *)
Fixpoint countMatchesFrom (pat : string) (skip : nat) (s : string) : Z :=
  match s with
  | EmptyString =>
      match skip, pat with
      | O, EmptyString => 1%Z
      | _, _ => 0%Z
      end
  | String _ s' =>
      match skip with
      | S k => countMatchesFrom pat k s'
      | O =>
          if prefix pat s
          then (1 + countMatchesFrom pat (String.length pat - 1) s')%Z
          else countMatchesFrom pat 0 s'
      end
  end.

Definition countMatches (s pat : string) : Z := countMatchesFrom pat 0 s.

(** [a > b] on strings: code units compared left to right. *)
Definition gtb (a b : string) : bool :=
  match String.compare a b with
  | Gt => true
  | _ => false
  end.

End JsString.

(* ================================================================== *)
(** ** Arrays *)

Module JsArray.

(** [arr.slice(start, end)] on integer bounds: a negative bound counts
    from the end, and both are clamped to the array. *)
Definition slice {A : Type} (l : list A) (from to : Z) : list A :=
  let len := Z.of_nat (List.length l) in
  let k := if (from <? 0)%Z then Z.max (len + from) 0 else Z.min from len in
  let fin := if (to <? 0)%Z then Z.max (len + to) 0 else Z.min to len in
  firstn (Z.to_nat (fin - k)) (skipn (Z.to_nat k) l).

(** [arr.sort(cmp)]: the comparator answers a number, negative when its
    first argument goes first. The sort is stable; it is written as an
    insertion sort, which for a consistent comparator is the order every
    conforming engine produces. For a comparator that never answers 0 the
    order among equal keys is left to the engine, and nothing below
    depends on it. *)
Fixpoint insert {A : Type} (cmp : A -> A -> Z) (x : A) (l : list A) : list A :=
  match l with
  | [] => [x]
  | y :: ys => if (cmp x y <=? 0)%Z then x :: y :: ys else y :: insert cmp x ys
  end.

Fixpoint sort {A : Type} (cmp : A -> A -> Z) (l : list A) : list A :=
  match l with
  | [] => []
  | x :: xs => insert cmp x (sort cmp xs)
  end.

End JsArray.

(* ================================================================== *)
(** ** Maps in insertion order *)

Module JsMap.

Definition t (V : Type) : Type := list (string * V).

Definition empty {V : Type} : t V := [].

Fixpoint get {V : Type} (m : t V) (k : string) : option V :=
  match m with
  | [] => None
  | (k', v) :: m' => if String.eqb k' k then Some v else get m' k
  end.

Definition has {V : Type} (m : t V) (k : string) : bool :=
  match get m k with
  | Some _ => true
  | None => false
  end.

(** [m.set(k, v)]: an existing key keeps its place, a new one goes last. *)
Fixpoint set {V : Type} (m : t V) (k : string) (v : V) : t V :=
  match m with
  | [] => [(k, v)]
  | (k', v') :: m' =>
      if String.eqb k' k then (k', v) :: m' else (k', v') :: set m' k v
  end.

Fixpoint delete {V : Type} (m : t V) (k : string) : t V :=
  match m with
  | [] => []
  | (k', v') :: m' =>
      if String.eqb k' k then m' else (k', v') :: delete m' k
  end.

Definition keys {V : Type} (m : t V) : list string := List.map fst m.
Definition values {V : Type} (m : t V) : list V := List.map snd m.

End JsMap.

(* ================================================================== *)
(** ** Numbers that may be [NaN], and the values of a document's properties *)

Module JsNum.

(** An integer number or [NaN], which [parseInt] answers for a string
    that does not start with a number. *)
Inductive t : Type :=
| NaN
| Num (z : Z).

Definition sub (a b : t) : t :=
  match a, b with
  | Num x, Num y => Num (x - y)
  | _, _ => NaN
  end.

Definition add (a b : t) : t :=
  match a, b with
  | Num x, Num y => Num (x + y)
  | _, _ => NaN
  end.

Definition mul (a b : t) : t :=
  match a, b with
  | Num x, Num y => Num (x * y)
  | _, _ => NaN
  end.

(** The integer a bound of [slice] is read as: [NaN] counts as 0. *)
Definition toInteger (a : t) : Z :=
  match a with
  | NaN => 0%Z
  | Num z => z
  end.

End JsNum.

(* ================================================================== *)
(** ** The knowledge service *)

Module KnowledgeService.

(** *** Data *)

(** A chunk, as [chunkText] pushes it. *)
Record TextChunk : Type := {
  chunk_text : string;
  chunk_startIndex : Z;
  chunk_wordCount : Z
}.

(** [{ ...chunk, score }] of [findRelevantChunks]. *)
Record ScoredChunk : Type := {
  sc_chunk : TextChunk;
  sc_score : Z
}.

Inductive DocStatus : Type :=
| processing
| processed.

Definition statusName (s : DocStatus) : string :=
  match s with
  | processing => "processing"
  | processed => "processed"
  end.

(** The document object of [processDocument], with every property it ends
    up with. *)
Record Document : Type := {
  doc_id : string;
  doc_title : string;
  doc_description : string;
  doc_category : string;
  doc_fileName : string;
  doc_filePath : string;
  doc_fileSize : Z;
  doc_mimeType : string;
  doc_userId : string;
  doc_status : DocStatus;
  doc_createdAt : string;
  doc_updatedAt : string;
  doc_extractedText : string;
  doc_chunks : list TextChunk;
  doc_wordCount : Z;
  doc_processedAt : string
}.

(** The object literal [indexDocument] adds to a term's [Set]. [ref_addr]
    is the identity of the object: a [Set] compares objects by identity,
    not by their properties. *)
Record DocRef : Type := {
  ref_addr : nat;
  ref_documentId : string;
  ref_userId : string;
  ref_title : string;
  ref_category : string
}.

(** A [Set] of such objects, in insertion order. *)
Module RefSet.

Definition t : Type := list DocRef.

Definition has (s : t) (r : DocRef) : bool :=
  existsb (fun x => ref_addr x =? ref_addr r) s.

(** [s.add(r)]: nothing happens when this very object is in the set. *)
Definition add (s : t) (r : DocRef) : t :=
  if has s r then s else s ++ [r].

(** [s.delete(r)] *)
Definition delete (s : t) (r : DocRef) : t :=
  filter (fun x => negb (ref_addr x =? ref_addr r)) s.

Definition size (s : t) : nat := List.length s.

End RefSet.

(** The state of the module: the two module-level maps, the next free
    object address, and the files under the upload directory (path to
    content). *)
Record KB : Type := {
  documents : JsMap.t (JsMap.t Document);
  documentIndex : JsMap.t RefSet.t;
  nextAddr : nat;
  files : JsMap.t string
}.

Definition emptyKB : KB :=
  {| documents := []; documentIndex := []; nextAddr := 0; files := [] |}.

(** *** Chunking *)

Definition mkChunk (words : list string) (chunkSize i : Z) (chunk : string)
  : TextChunk :=
  {| chunk_text := chunk;
     chunk_startIndex := i;
     chunk_wordCount := Z.min chunkSize (Z.of_nat (List.length words) - i) |}.

(** The [for] loop of [chunkText], from index [i] on. The loop does not
    end when [chunkSize - overlap] is not positive, so it runs on fuel:
    [None] is fuel running out. *)
Fixpoint chunkLoop (fuel : nat) (words : list string) (chunkSize overlap i : Z)
  : option (list TextChunk) :=
  match fuel with
  | O => None
  | S fuel' =>
      if (i <? Z.of_nat (List.length words))%Z then
        let chunk := JsString.join " " (JsArray.slice words i (i + chunkSize)) in
        let rest := chunkLoop fuel' words chunkSize overlap (i + (chunkSize - overlap)) in
        if JsString.truthy (JsString.trim chunk)
        then option_map (cons (mkChunk words chunkSize i chunk)) rest
        else rest
      else Some []
  end.

Definition chunkText (fuel : nat) (text : string) (chunkSize overlap : Z)
  : option (list TextChunk) :=
  chunkLoop fuel (JsString.split text) chunkSize overlap 0.

(** [chunkText(extractedText, 1000)] as [processDocument] calls it: the
    window advances by 900 words, so one step more than there are words
    is enough fuel ([chunkText_1000_returns] below). *)
Definition chunkText1000 (text : string) : list TextChunk :=
  match chunkText (S (List.length (JsString.split text))) text 1000 100 with
  | Some chunks => chunks
  | None => []
  end.

(** *** Terms *)

Definition stopWords : list string :=
  [ "the"; "a"; "an"; "and"; "or"; "but"; "in"; "on"; "at"; "to"; "for";
    "of"; "with"; "by"; "is"; "are"; "was"; "were"; "be"; "been"; "have";
    "has"; "had"; "do"; "does"; "did"; "will"; "would"; "could"; "should";
    "this"; "that"; "these"; "those"; "i"; "you"; "he"; "she"; "it"; "we";
    "they" ].

Definition isStopWord (word : string) : bool :=
  existsb (String.eqb word) stopWords.

Definition extractSearchTerms (text : string) : list string :=
  filter (fun term => negb (isStopWord term))
    (filter (fun term => 2 <? String.length term)
       (JsString.split (JsString.replaceNonWord (JsString.toLowerCase text)))).

(** *** Indexing *)

(** One round of the [forEach] of [indexDocument]: the entry of [term] is
    created when missing, then a newly allocated object is added to it. *)
Definition indexTerm (document : Document) (st : KB) (term : string) : KB :=
  let index1 :=
    if negb (JsMap.has (documentIndex st) term)
    then JsMap.set (documentIndex st) term []
    else documentIndex st in
  let obj := {| ref_addr := nextAddr st;
                ref_documentId := doc_id document;
                ref_userId := doc_userId document;
                ref_title := doc_title document;
                ref_category := doc_category document |} in
  let index2 :=
    match JsMap.get index1 term with
    | Some docSet => JsMap.set index1 term (RefSet.add docSet obj)
    | None => index1
    end in
  {| documents := documents st;
     documentIndex := index2;
     nextAddr := S (nextAddr st);
     files := files st |}.

Definition indexDocument (document : Document) (st : KB) : KB :=
  fold_left (indexTerm document) (extractSearchTerms (doc_extractedText document)) st.

(** [removeFromIndex]: every entry loses the objects of the document, and
    an entry left empty is deleted. Deleting the entry being visited does
    not disturb the iteration over the others. *)
Definition removeFromSet (documentId : string) (docSet : RefSet.t) : RefSet.t :=
  let toRemove := filter (fun doc => String.eqb (ref_documentId doc) documentId) docSet in
  fold_left RefSet.delete toRemove docSet.

Fixpoint removeFromEntries (documentId : string) (entries : JsMap.t RefSet.t)
  : JsMap.t RefSet.t :=
  match entries with
  | [] => []
  | (term, docSet) :: rest =>
      let docSet' := removeFromSet documentId docSet in
      if RefSet.size docSet' =? 0
      then removeFromEntries documentId rest
      else (term, docSet') :: removeFromEntries documentId rest
  end.

Definition removeFromIndex (documentId : string) (st : KB) : KB :=
  {| documents := documents st;
     documentIndex := removeFromEntries documentId (documentIndex st);
     nextAddr := nextAddr st;
     files := files st |}.

(** *** Ingestion *)

(** [req.file], as multer hands it over. *)
Record UploadedFile : Type := {
  file_originalname : string;
  file_path : string;
  file_size : Z;
  file_mimetype : string
}.

Record ProcessOptions : Type := {
  po_file : UploadedFile;
  po_title : string;
  po_description : string;
  po_category : string;
  po_userId : string
}.

(** What the run time answers during one call of [processDocument]: the
    identifier [generateDocumentId] makes up, the three readings of the
    clock, and the PDF parser. *)
Record ProcessEnv : Type := {
  env_id : string;
  env_createdAt : string;
  env_updatedAt : string;
  env_processedAt : string;
  env_pdfParse : string -> option string
}.

Inductive ProcessError : Type :=
| UnsupportedFileType (mimetype : string)
| PdfExtractionFailed
| ReadFileFailed (path : string).

Inductive Outcome (A : Type) : Type :=
| Returned (a : A)
| Threw (e : ProcessError).
Arguments Returned {A} a.
Arguments Threw {A} e.

Definition extractPdfText (env : ProcessEnv) (fs : JsMap.t string) (filePath : string)
  : Outcome string :=
  match JsMap.get fs filePath with
  | None => Threw PdfExtractionFailed
  | Some dataBuffer =>
      match env_pdfParse env dataBuffer with
      | Some text => Returned text
      | None => Threw PdfExtractionFailed
      end
  end.

(** The [switch] on the media type. *)
Definition extractText (env : ProcessEnv) (fs : JsMap.t string) (file : UploadedFile)
  : Outcome string :=
  if String.eqb (file_mimetype file) "application/pdf" then
    extractPdfText env fs (file_path file)
  else if String.eqb (file_mimetype file) "text/plain"
          || String.eqb (file_mimetype file) "text/markdown" then
    match JsMap.get fs (file_path file) with
    | Some text => Returned text
    | None => Threw (ReadFileFailed (file_path file))
    end
  else Threw (UnsupportedFileType (file_mimetype file)).

(** [fs.unlink]; both callers swallow its failure on a missing file. *)
Definition unlink (fs : JsMap.t string) (path : string) : JsMap.t string :=
  JsMap.delete fs path.

Definition newDocument (options : ProcessOptions) (env : ProcessEnv)
                       (extractedText : string) : Document :=
  {| doc_id := env_id env;
     doc_title := po_title options;
     doc_description := po_description options;
     doc_category := po_category options;
     doc_fileName := file_originalname (po_file options);
     doc_filePath := file_path (po_file options);
     doc_fileSize := file_size (po_file options);
     doc_mimeType := file_mimetype (po_file options);
     doc_userId := po_userId options;
     doc_status := processed;
     doc_createdAt := env_createdAt env;
     doc_updatedAt := env_updatedAt env;
     doc_extractedText := extractedText;
     doc_chunks := chunkText1000 extractedText;
     doc_wordCount := Z.of_nat (List.length (JsString.split extractedText));
     doc_processedAt := env_processedAt env |}.

(** [documents.get(userId) || new Map()] *)
Definition userDocsOf (st : KB) (userId : string) : JsMap.t Document :=
  match JsMap.get (documents st) userId with
  | Some userDocs => userDocs
  | None => []
  end.

Definition saveDocument (document : Document) (st : KB) : KB :=
  let userDocs := JsMap.set (userDocsOf st (doc_userId document)) (doc_id document) document in
  {| documents := JsMap.set (documents st) (doc_userId document) userDocs;
     documentIndex := documentIndex st;
     nextAddr := nextAddr st;
     files := files st |}.

Definition processDocument (options : ProcessOptions) (env : ProcessEnv) (st : KB)
  : Outcome Document * KB :=
  match extractText env (files st) (po_file options) with
  | Returned extractedText =>
      let document := newDocument options env extractedText in
      (Returned document, indexDocument document (saveDocument document st))
  | Threw error =>
      (Threw error,
       {| documents := documents st;
          documentIndex := documentIndex st;
          nextAddr := nextAddr st;
          files := unlink (files st) (file_path (po_file options)) |})
  end.

(** *** Search *)

Record SearchOptions : Type := {
  so_limit : option JsNum.t;      (* [undefined] takes the default 10 *)
  so_category : option string
}.

Definition noOptions : SearchOptions :=
  {| so_limit := None; so_category := None |}.

(** The [document] property of a search result. *)
Record DocumentSummary : Type := {
  sum_id : string;
  sum_title : string;
  sum_description : string;
  sum_category : string;
  sum_fileName : string;
  sum_createdAt : string
}.

Record SearchResult : Type := {
  res_document : DocumentSummary;
  res_score : Z;
  res_relevantChunks : list ScoredChunk;
  res_matchedTerms : list string
}.

(** The body of the inner [forEach]: one object of a term's entry. *)
Definition scoreRef (userId : string) (documentScores : JsMap.t Z) (docInfo : DocRef)
  : JsMap.t Z :=
  if String.eqb (ref_userId docInfo) userId then
    let currentScore :=
      match JsMap.get documentScores (ref_documentId docInfo) with
      | Some score => score
      | None => 0%Z
      end in
    JsMap.set documentScores (ref_documentId docInfo) (currentScore + 1)%Z
  else documentScores.

(** The body of the outer [forEach]: one search term. *)
Definition scoreTerm (st : KB) (userId : string) (documentScores : JsMap.t Z)
                     (term : string) : JsMap.t Z :=
  let matchingDocs :=
    match JsMap.get (documentIndex st) term with
    | Some docSet => docSet
    | None => []
    end in
  fold_left (scoreRef userId) matchingDocs documentScores.

Definition documentScores (st : KB) (userId : string) (searchTerms : list string)
  : JsMap.t Z :=
  fold_left (scoreTerm st userId) searchTerms [].

Definition byScoreDesc (a b : string * Z) : Z := (snd b - snd a)%Z.

Definition limitOf (options : SearchOptions) : JsNum.t :=
  match so_limit options with
  | Some limit => limit
  | None => JsNum.Num 10
  end.

Definition sortedDocs (st : KB) (userId : string) (searchTerms : list string)
                      (options : SearchOptions) : list (string * Z) :=
  JsArray.slice (JsArray.sort byScoreDesc (documentScores st userId searchTerms))
                0 (JsNum.toInteger (limitOf options)).

Definition chunkScore (searchTerms : list string) (chunk : TextChunk) : Z :=
  let chunkText := JsString.toLowerCase (chunk_text chunk) in
  fold_left (fun acc term => (acc + JsString.countMatches chunkText term)%Z)
            searchTerms 0%Z.

Definition findRelevantChunks (chunks : list TextChunk) (searchTerms : list string)
                              (maxChunks : Z) : list ScoredChunk :=
  let chunkScores :=
    List.map (fun chunk => {| sc_chunk := chunk; sc_score := chunkScore searchTerms chunk |})
             chunks in
  filter (fun chunk => (0 <? sc_score chunk)%Z)
    (JsArray.slice
       (JsArray.sort (fun a b => (sc_score b - sc_score a)%Z) chunkScores)
       0 maxChunks).

(** [category && doc.category !== category] *)
Definition categoryExcludes (category : option string) (doc : Document) : bool :=
  match category with
  | Some c => JsString.truthy c && negb (String.eqb (doc_category doc) c)
  | None => false
  end.

Definition searchResult (doc : Document) (score : Z) (searchTerms : list string)
  : SearchResult :=
  {| res_document :=
       {| sum_id := doc_id doc;
          sum_title := doc_title doc;
          sum_description := doc_description doc;
          sum_category := doc_category doc;
          sum_fileName := doc_fileName doc;
          sum_createdAt := doc_createdAt doc |};
     res_score := score;
     res_relevantChunks := findRelevantChunks (doc_chunks doc) searchTerms 3;
     res_matchedTerms :=
       filter (fun term => JsString.includes (JsString.toLowerCase (doc_extractedText doc)) term)
              searchTerms |}.

(** The body of the [for ... of sortedDocs] loop: the results it pushes
    for one candidate, none when it [continue]s. *)
Definition resultFor (userDocs : JsMap.t Document) (options : SearchOptions)
                     (searchTerms : list string) (entry : string * Z)
  : list SearchResult :=
  let (documentId, score) := entry in
  match JsMap.get userDocs documentId with
  | None => []
  | Some doc =>
      if categoryExcludes (so_category options) doc then []
      else [searchResult doc score searchTerms]
  end.

Definition searchKnowledgeBase (query userId : string) (options : SearchOptions)
                               (st : KB) : list SearchResult :=
  let searchTerms := extractSearchTerms query in
  let userDocs := userDocsOf st userId in
  flat_map (resultFor userDocs options searchTerms)
           (sortedDocs st userId searchTerms options).

(** *** Listing *)

(** The value of a property of an object. *)
Inductive JsVal : Type :=
| VUndefined
| VNum (z : Z)
| VStr (s : string)
| VChunks (l : list TextChunk).

(** An object literal: its properties in the order they are written. *)
Definition JsObject : Type := list (string * JsVal).

Definition prop (o : JsObject) (name : string) : JsVal :=
  match JsMap.get o name with
  | Some v => v
  | None => VUndefined
  end.

Definition hasOwn (o : JsObject) (name : string) : bool := JsMap.has o name.

(** [doc[name]] on a stored document. A name the document does not have
    reads as [undefined]. *)
Definition docProp (doc : Document) (name : string) : JsVal :=
  if String.eqb name "id" then VStr (doc_id doc)
  else if String.eqb name "title" then VStr (doc_title doc)
  else if String.eqb name "description" then VStr (doc_description doc)
  else if String.eqb name "category" then VStr (doc_category doc)
  else if String.eqb name "fileName" then VStr (doc_fileName doc)
  else if String.eqb name "filePath" then VStr (doc_filePath doc)
  else if String.eqb name "fileSize" then VNum (doc_fileSize doc)
  else if String.eqb name "mimeType" then VStr (doc_mimeType doc)
  else if String.eqb name "userId" then VStr (doc_userId doc)
  else if String.eqb name "status" then VStr (statusName (doc_status doc))
  else if String.eqb name "createdAt" then VStr (doc_createdAt doc)
  else if String.eqb name "updatedAt" then VStr (doc_updatedAt doc)
  else if String.eqb name "extractedText" then VStr (doc_extractedText doc)
  else if String.eqb name "chunks" then VChunks (doc_chunks doc)
  else if String.eqb name "wordCount" then VNum (doc_wordCount doc)
  else if String.eqb name "processedAt" then VStr (doc_processedAt doc)
  else VUndefined.

(** The string an array of chunk objects turns into under [>]. *)
Definition chunksToString (l : list TextChunk) : string :=
  JsString.join "," (List.map (fun _ => "[object Object]") l).

(** [a > b]. Within one call both operands are the same property of two
    documents, hence of the same kind; [undefined] is never greater nor
    smaller, and operands of different kinds do not meet. *)
Definition valGt (a b : JsVal) : bool :=
  match a, b with
  | VNum x, VNum y => (y <? x)%Z
  | VStr x, VStr y => JsString.gtb x y
  | VChunks x, VChunks y => JsString.gtb (chunksToString x) (chunksToString y)
  | _, _ => false
  end.

Record ListOptions : Type := {
  lo_page : option JsNum.t;        (* default 1 *)
  lo_limit : option JsNum.t;       (* default 20 *)
  lo_category : option string;
  lo_sortBy : option string;       (* default 'createdAt' *)
  lo_sortOrder : option string     (* default 'desc' *)
}.

Definition noListOptions : ListOptions :=
  {| lo_page := None; lo_limit := None; lo_category := None;
     lo_sortBy := None; lo_sortOrder := None |}.

Definition orDefault {A : Type} (o : option A) (d : A) : A :=
  match o with
  | Some a => a
  | None => d
  end.

Definition compareDocs (sortBy sortOrder : string) (a b : Document) : Z :=
  let aVal := docProp a sortBy in
  let bVal := docProp b sortBy in
  if String.eqb sortOrder "desc"
  then (if valGt bVal aVal then 1 else -1)%Z
  else (if valGt aVal bVal then 1 else -1)%Z.

(** The object literal of the list view. *)
Definition cleanedDoc (doc : Document) : JsObject :=
  [ ("id", VStr (doc_id doc));
    ("title", VStr (doc_title doc));
    ("description", VStr (doc_description doc));
    ("category", VStr (doc_category doc));
    ("fileName", VStr (doc_fileName doc));
    ("fileSize", VNum (doc_fileSize doc));
    ("wordCount", VNum (doc_wordCount doc));
    ("status", VStr (statusName (doc_status doc)));
    ("createdAt", VStr (doc_createdAt doc));
    ("updatedAt", VStr (doc_updatedAt doc)) ].

Definition getDocuments (userId : string) (options : ListOptions) (st : KB)
  : list JsObject :=
  let page := orDefault (lo_page options) (JsNum.Num 1) in
  let limit := orDefault (lo_limit options) (JsNum.Num 20) in
  let sortBy := orDefault (lo_sortBy options) "createdAt" in
  let sortOrder := orDefault (lo_sortOrder options) "desc" in
  let userDocs := userDocsOf st userId in
  let docArray := JsMap.values userDocs in
  let docArray :=
    match lo_category options with
    | Some category =>
        if JsString.truthy category
        then filter (fun doc => String.eqb (doc_category doc) category) docArray
        else docArray
    | None => docArray
    end in
  let docArray := JsArray.sort (compareDocs sortBy sortOrder) docArray in
  let startIndex := JsNum.mul (JsNum.sub page (JsNum.Num 1)) limit in
  let paginatedDocs :=
    JsArray.slice docArray (JsNum.toInteger startIndex)
                  (JsNum.toInteger (JsNum.add startIndex limit)) in
  List.map cleanedDoc paginatedDocs.

(** *** Deletion *)

Inductive DeleteResult : Type :=
| DeleteFailed (error : string)                  (* success: false *)
| Deleted (documentId deletedAt : string).       (* success: true *)

Definition deleteDocument (documentId userId : string) (deletedAt : string) (st : KB)
  : DeleteResult * KB :=
  let userDocs := userDocsOf st userId in
  match JsMap.get userDocs documentId with
  | None => (DeleteFailed "Document not found", st)
  | Some document =>
      let st1 :=
        {| documents := JsMap.set (documents st) userId (JsMap.delete userDocs documentId);
           documentIndex := documentIndex st;
           nextAddr := nextAddr st;
           files := files st |} in
      let st2 := removeFromIndex documentId st1 in
      (Deleted documentId deletedAt,
       {| documents := documents st2;
          documentIndex := documentIndex st2;
          nextAddr := nextAddr st2;
          files := unlink (files st2) (doc_filePath document) |})
  end.

(** *** The states the service goes through *)

(** No document of any owner has the identifier. [generateDocumentId]
    draws on the clock and on [Math.random]; that it does not repeat an
    identifier is what the run time is trusted for. *)
Definition freshId (st : KB) (documentId : string) : Prop :=
  forall userId userDocs,
    JsMap.get (documents st) userId = Some userDocs ->
    JsMap.get userDocs documentId = None.

Inductive reachable : KB -> Prop :=
| reach_start : reachable emptyKB
| reach_upload st path content :
    reachable st ->
    reachable {| documents := documents st;
                 documentIndex := documentIndex st;
                 nextAddr := nextAddr st;
                 files := JsMap.set (files st) path content |}
| reach_process st options env :
    reachable st ->
    freshId st (env_id env) ->
    reachable (snd (processDocument options env st))
| reach_delete st documentId userId deletedAt :
    reachable st ->
    reachable (snd (deleteDocument documentId userId deletedAt st)).

End KnowledgeService.

(* ================================================================== *)
(** ** The search route *)

Module KnowledgeRoutes.

Import KnowledgeService.

Inductive Response : Type :=
| Status400 (error parameter : string)
| Status200 (query : string) (results : list SearchResult)
            (totalResults : Z) (timestamp : string).

(** [router.get('/search')], after [auth] has set [req.user]. [q] is
    [req.query.q], absent or a string; [limit] is the number
    [parseInt(limit)] evaluates to. The search itself does not throw, so
    the [catch] branch of the handler is not taken. *)
Definition getSearch (q : option string) (limit : JsNum.t) (category : option string)
                     (userId : string) (timestamp : string) (st : KB) : Response :=
  match q with
  | None => Status400 "Search query is required" "q"
  | Some query =>
      if negb (JsString.truthy query)
      then Status400 "Search query is required" "q"
      else
        let results :=
          searchKnowledgeBase query userId
            {| so_limit := Some limit; so_category := category |} st in
        Status200 query results (Z.of_nat (List.length results)) timestamp
  end.

(** *** The upload route *)

(** [allowedTypes] of the multer [fileFilter]. *)
Definition allowedTypes : list string :=
  [ "application/pdf";
    "text/plain";
    "text/markdown";
    "application/msword";
    "application/vnd.openxmlformats-officedocument.wordprocessingml.document" ].

(** [allowedTypes.includes(file.mimetype)]: whether multer lets the upload
    through to the handler. *)
Definition fileFilter (mimetype : string) : bool :=
  existsb (String.eqb mimetype) allowedTypes.

(** [[a-zA-Z0-9.-]] *)
Definition isFileNameChar (c : ascii) : bool :=
  let n := JsString.code c in
  ((48 <=? n) && (n <=? 57)) || ((65 <=? n) && (n <=? 90))
  || ((97 <=? n) && (n <=? 122)) || (n =? 46) || (n =? 45).

(** [file.originalname.replace(/[^a-zA-Z0-9.-]/g, '_')] *)
Definition cleanName (originalname : string) : string :=
  JsString.map (fun c => if isFileNameChar c then c else "_"%char) originalname.

(** The [filename] callback of the disk storage; [timestamp] is the
    integer [Date.now()] answers, printed in decimal by the template. *)
Definition storageFilename (timestamp : N) (originalname : string) : string :=
  (NilEmpty.string_of_uint (N.to_uint timestamp) ++ "_" ++ cleanName originalname)%string.

(** [req.body] of an upload: each field absent or a string. *)
Record UploadBody : Type := {
  body_title : option string;
  body_description : option string;
  body_category : option string
}.

(** [field || fallback] *)
Definition orElse (field : option string) (fallback : string) : string :=
  match field with
  | Some s => if JsString.truthy s then s else fallback
  | None => fallback
  end.

(** [error.message] of what [processDocument] throws. A failed
    [fs.readFile] carries Node's message for a missing file. *)
Definition errorMessage (e : ProcessError) : string :=
  match e with
  | UnsupportedFileType mimetype => ("Unsupported file type: " ++ mimetype)%string
  | PdfExtractionFailed => "Failed to extract text from PDF"
  | ReadFileFailed path =>
      ("ENOENT: no such file or directory, open '" ++ path ++ "'")%string
  end.

Inductive UploadResponse : Type :=
| Upload400 (error : string)
| Upload201 (document : Document) (message : string)
| Upload500 (error message : string).

(** [router.post('/upload')], after [auth] and multer: [file] is
    [req.file], absent when the request carried none. *)
Definition postUpload (file : option UploadedFile) (body : UploadBody) (userId : string)
                      (env : ProcessEnv) (st : KB) : UploadResponse * KB :=
  match file with
  | None => (Upload400 "No file uploaded", st)
  | Some f =>
      let options :=
        {| po_file := f;
           po_title := orElse (body_title body) (file_originalname f);
           po_description := orElse (body_description body) EmptyString;
           po_category := orElse (body_category body) "general";
           po_userId := userId |} in
      match processDocument options env st with
      | (Returned document, st') =>
          (Upload201 document "Document uploaded and processed successfully", st')
      | (Threw error, st') =>
          (Upload500 "Failed to process document" (errorMessage error),
           {| documents := documents st';
              documentIndex := documentIndex st';
              nextAddr := nextAddr st';
              files := unlink (files st') (file_path f) |})
      end
  end.

End KnowledgeRoutes.

(* ================================================================== *)
(** ** The knowledge command of the chat route *)

Module ChatRoutes.

Import KnowledgeService.

Inductive CommandResult : Type :=
| KnowledgeSearch (results : list SearchResult) (query : string)   (* success: true *)
| CommandError (error : string).                                   (* success: false *)

(** [handleKnowledgeCommand(args, user, options)], with [userId] for
    [user?.id]. An empty [args] has [args[0]] undefined, which is not
    ['search']. *)
Definition handleKnowledgeCommand (args : list string) (userId : string) (st : KB)
  : CommandResult :=
  let query := JsString.join " " (skipn 1 args) in
  match args with
  | action :: _ =>
      if String.eqb action "search"
      then KnowledgeSearch (searchKnowledgeBase query userId noOptions st) query
      else CommandError "Knowledge commands: search <query>"
  | [] => CommandError "Knowledge commands: search <query>"
  end.

End ChatRoutes.

(* ================================================================== *)
(** ** What the properties are stated with, and sample runs *)

Module Spec.

Import KnowledgeService.

Definition mem (term : string) (terms : list string) : bool :=
  existsb (String.eqb term) terms.

(** The number of distinct normalized query terms that are among the
    normalized terms of the document's text. *)
Definition distinctTermsPresent (query : string) (doc : Document) : nat :=
  List.length
    (filter (fun term => mem term (extractSearchTerms (doc_extractedText doc)))
            (nodup string_dec (extractSearchTerms query))).

(** The same count without merging repeated query terms: every occurrence
    of a term in the normalized query counts. *)
Definition queryTermsPresent (query : string) (doc : Document) : nat :=
  List.length
    (filter (fun term => mem term (extractSearchTerms (doc_extractedText doc)))
            (extractSearchTerms query)).

(** The score search has accumulated for a document, 0 when the document
    is no candidate. *)
Definition scoreOf (st : KB) (userId query documentId : string) : Z :=
  match JsMap.get (documentScores st userId (extractSearchTerms query)) documentId with
  | Some score => score
  | None => 0%Z
  end.

(** The objects of a term's entry that refer to a document. *)
Definition refsTo (st : KB) (term documentId : string) : list DocRef :=
  match JsMap.get (documentIndex st) term with
  | Some docSet => filter (fun r => String.eqb (ref_documentId r) documentId) docSet
  | None => []
  end.

(** The entry of a term, as search reads it:
    [documentIndex.get(term) || new Set()]. *)
Definition entryOf (st : KB) (term : string) : RefSet.t :=
  match JsMap.get (documentIndex st) term with
  | Some docSet => docSet
  | None => []
  end.

(** [userDocs.get(documentId)] in the owner's map. *)
Definition lookupDoc (st : KB) (userId documentId : string) : option Document :=
  JsMap.get (userDocsOf st userId) documentId.

(** The objects of a set that search counts for a document of an owner. *)
Definition countRefs (docSet : RefSet.t) (documentId userId : string) : nat :=
  List.length
    (filter (fun r => String.eqb (ref_documentId r) documentId
                      && String.eqb (ref_userId r) userId) docSet).

(** How often a term occurs among the normalized terms of the document an
    owner has stored under an identifier; 0 when there is none. *)
Definition storedCount (st : KB) (userId documentId term : string) : nat :=
  match lookupDoc st userId documentId with
  | Some doc => count_occ string_dec (extractSearchTerms (doc_extractedText doc)) term
  | None => 0
  end.

(** The document maps are keyed by owner and identifier, no identifier is
    used by two owners, and no map has a key twice. *)
Record storeOk (st : KB) : Prop := {
  store_keys : forall userId documentId doc,
      lookupDoc st userId documentId = Some doc ->
      doc_id doc = documentId /\ doc_userId doc = userId;
  store_unique : forall userId userId' documentId,
      lookupDoc st userId documentId <> None ->
      lookupDoc st userId' documentId <> None ->
      userId = userId';
  store_nodup : forall userId, NoDup (JsMap.keys (userDocsOf st userId))
}.

(** The index has no term twice, and the objects of an entry are distinct
    objects allocated before [nextAddr]. *)
Record indexOk (st : KB) : Prop := {
  index_nodup : NoDup (JsMap.keys (documentIndex st));
  index_addrs : forall term docSet,
      JsMap.get (documentIndex st) term = Some docSet ->
      NoDup (List.map ref_addr docSet)
      /\ Forall (fun r => ref_addr r < nextAddr st) docSet
}.

(** The index holds, for every term, owner and identifier, as many objects
    as [expected] says. *)
Definition indexMatches (st : KB) (expected : string -> string -> string -> nat) : Prop :=
  forall term documentId userId,
    countRefs (entryOf st term) documentId userId = expected userId documentId term.

(** The invariant of the service: the index holds one object per occurrence
    of a term in the text of a stored document, and nothing else. *)
Record consistent (st : KB) : Prop := {
  cons_store : storeOk st;
  cons_index : indexOk st;
  cons_refs : indexMatches st (storedCount st)
}.

(** The object [indexDocument] allocates for a document in a state. *)
Definition newRef (document : Document) (st : KB) : DocRef :=
  {| ref_addr := nextAddr st;
     ref_documentId := doc_id document;
     ref_userId := doc_userId document;
     ref_title := doc_title document;
     ref_category := doc_category document |}.

(** The objects search counts for a document over a list of terms. *)
Definition matchCount (st : KB) (userId documentId : string) (terms : list string) : nat :=
  list_sum (List.map (fun term => countRefs (entryOf st term) documentId userId) terms).

(** What [n] increments do to the entry of a score map: [undefined] stays
    when there is none, and counts as 0 otherwise. *)
Definition bump (n : nat) (score : option Z) : option Z :=
  match n with
  | O => score
  | S _ => Some (match score with Some s => s | None => 0 end + Z.of_nat n)%Z
  end.

(** [freshId], decided. *)
Definition freshIdb (st : KB) (documentId : string) : bool :=
  forallb (fun entry => negb (JsMap.has (snd entry) documentId)) (documents st).

(** Every code unit of a string passes a test. *)
Fixpoint allChars (p : ascii -> bool) (s : string) : bool :=
  match s with
  | EmptyString => true
  | String c s' => p c && allChars p s'
  end.

(** The characters a search term is made of: [[a-z0-9_]]. *)
Definition isTermChar (c : ascii) : bool :=
  let n := JsString.code c in
  ((48 <=? n) && (n <=? 57)) || (n =? 95) || ((97 <=? n) && (n <=? 122)).

(** [/] and [\], the characters that separate the parts of a path. *)
Definition isPathSeparator (c : ascii) : bool :=
  (JsString.code c =? 47) || (JsString.code c =? 92).

(** The options of a listing, asking for the first page with room for
    [total] documents. *)
Definition wholeList (options : ListOptions) (total : Z) : ListOptions :=
  {| lo_page := Some (JsNum.Num 1);
     lo_limit := Some (JsNum.Num total);
     lo_category := lo_category options;
     lo_sortBy := lo_sortBy options;
     lo_sortOrder := lo_sortOrder options |}.

(** A word index lies in the range of words a chunk says it holds. *)
Definition covers (chunk : TextChunk) (j : Z) : Prop :=
  (chunk_startIndex chunk <= j < chunk_startIndex chunk + chunk_wordCount chunk)%Z.

(** The word of a text at an index, [undefined] past the end. *)
Definition wordAt (words : list string) (j : Z) : option string :=
  if (j <? 0)%Z then None else nth_error words (Z.to_nat j).

Fixpoint hasNonSpace (s : string) : bool :=
  match s with
  | EmptyString => false
  | String c s' => negb (JsString.isWhiteSpace c) || hasNonSpace s'
  end.

(** A sequence ordered by a key, largest first. *)
Definition descBy {A : Type} (key : A -> Z) (a b : A) : Prop := (key b <= key a)%Z.

Definition nonIncreasing (l : list Z) : Prop :=
  StronglySorted (descBy (fun z => z)) l.

End Spec.

Module Examples.

Import KnowledgeService.

Definition textFile (name path : string) : UploadedFile :=
  {| file_originalname := name; file_path := path;
     file_size := 64; file_mimetype := "text/plain" |}.

Definition upload (path content : string) (st : KB) : KB :=
  {| documents := documents st;
     documentIndex := documentIndex st;
     nextAddr := nextAddr st;
     files := JsMap.set (files st) path content |}.

Definition optionsFor (name path userId : string) : ProcessOptions :=
  {| po_file := textFile name path; po_title := name; po_description := EmptyString;
     po_category := "general"; po_userId := userId |}.

Definition envFor (documentId : string) : ProcessEnv :=
  {| env_id := documentId;
     env_createdAt := "2024-01-01T00:00:00.000Z";
     env_updatedAt := "2024-01-01T00:00:00.000Z";
     env_processedAt := "2024-01-01T00:00:01.000Z";
     env_pdfParse := fun _ => None |}.

Definition ingest (name path content userId documentId : string) (st : KB) : KB :=
  snd (processDocument (optionsFor name path userId) (envFor documentId)
                       (upload path content st)).

(** One document of owner [u1] whose text is the single word "apple". *)
Definition kbA : KB := ingest "a.txt" "/uploads/1_a.txt" "apple" "u1" "doc_a" emptyKB.

(** A second document of [u1], "apple banana". *)
Definition kbAB : KB := ingest "b.txt" "/uploads/2_b.txt" "apple banana" "u1" "doc_b" kbA.

(** A third one, of owner [u2], "apple cherry". *)
Definition kbABC : KB := ingest "c.txt" "/uploads/3_c.txt" "apple cherry" "u2" "doc_c" kbAB.

(** One document whose text repeats a word. *)
Definition kbRepeat : KB :=
  ingest "r.txt" "/uploads/4_r.txt" "apple apple" "u1" "doc_r" emptyKB.

Definition docA : Document :=
  newDocument (optionsFor "a.txt" "/uploads/1_a.txt" "u1") (envFor "doc_a") "apple".

Definition docB : Document :=
  newDocument (optionsFor "b.txt" "/uploads/2_b.txt" "u1") (envFor "doc_b") "apple banana".

Definition docC : Document :=
  newDocument (optionsFor "c.txt" "/uploads/3_c.txt" "u2") (envFor "doc_c") "apple cherry".

(** The object the entry of "apple" holds for [doc_b]: the second object
    ever allocated. *)
Definition refB : DocRef :=
  {| ref_addr := 1; ref_documentId := "doc_b"; ref_userId := "u1";
     ref_title := "b.txt"; ref_category := "general" |}.

(** [kbAB] after owner [u1] has deleted [doc_a]. *)
Definition kbB : KB :=
  snd (deleteDocument "doc_a" "u1" "2024-01-02T00:00:00.000Z" kbAB).

Definition limitOptions (limit : Z) : SearchOptions :=
  {| so_limit := Some (JsNum.Num limit); so_category := None |}.

End Examples.

(* ================================================================== *)
(** * Facts about the embedding *)

Import KnowledgeService.
Import Spec.

Ltac eqb_cases a b H :=
  destruct (String.eqb a b) eqn:H;
  [apply String.eqb_eq in H | apply String.eqb_neq in H].

(* ================================================================== *)
(** ** Maps, slices and the sort *)

Section MapFacts.

Context {V : Type}.

Lemma get_set_same (m : JsMap.t V) k v : JsMap.get (JsMap.set m k v) k = Some v.
Proof.
  induction m as [|[k' v'] m IH]; simpl.
  - now rewrite String.eqb_refl.
  - destruct (String.eqb k' k) eqn:E; simpl; rewrite E; auto.
Qed.

Lemma get_set_other (m : JsMap.t V) k k' v :
  k <> k' -> JsMap.get (JsMap.set m k v) k' = JsMap.get m k'.
Proof.
  intros Hne. induction m as [|[k0 v0] m IH]; simpl.
  - destruct (String.eqb k k') eqn:E; auto.
    apply String.eqb_eq in E. contradiction.
  - destruct (String.eqb k0 k) eqn:E; simpl.
    + apply String.eqb_eq in E. subst k0.
      destruct (String.eqb k k') eqn:E'; auto.
      apply String.eqb_eq in E'. contradiction.
    + destruct (String.eqb k0 k'); auto.
Qed.

Lemma get_In (m : JsMap.t V) k v : JsMap.get m k = Some v -> In (k, v) m.
Proof.
  induction m as [|[k' v'] m IH]; simpl; [discriminate|].
  destruct (String.eqb k' k) eqn:E.
  - apply String.eqb_eq in E. intros [= ->]. subst. now left.
  - intros H. right. auto.
Qed.

Lemma get_None_not_key (m : JsMap.t V) k :
  JsMap.get m k = None <-> ~ In k (JsMap.keys m).
Proof.
  induction m as [|[k' v'] m IH]; simpl.
  - tauto.
  - destruct (String.eqb k' k) eqn:E.
    + apply String.eqb_eq in E. split; [discriminate|]. intros H. exfalso. apply H. now left.
    + apply String.eqb_neq in E. rewrite IH. tauto.
Qed.

Lemma keys_set (m : JsMap.t V) k v :
  JsMap.keys (JsMap.set m k v)
  = if JsMap.has m k then JsMap.keys m else JsMap.keys m ++ [k].
Proof.
  unfold JsMap.has.
  induction m as [|[k' v'] m IH]; simpl; auto.
  destruct (String.eqb k' k) eqn:E; simpl.
  - reflexivity.
  - rewrite IH. destruct (JsMap.get m k); reflexivity.
Qed.

Lemma NoDup_keys_set (m : JsMap.t V) k v :
  NoDup (JsMap.keys m) -> NoDup (JsMap.keys (JsMap.set m k v)).
Proof.
  intros H. rewrite keys_set. unfold JsMap.has.
  destruct (JsMap.get m k) eqn:E; auto.
  apply get_None_not_key in E.
  apply NoDup_rev in H. rewrite <- (rev_involutive (JsMap.keys m ++ [k])).
  apply NoDup_rev. rewrite rev_app_distr. simpl. constructor; auto.
  now rewrite <- in_rev.
Qed.

Lemma get_delete_same (m : JsMap.t V) k :
  NoDup (JsMap.keys m) -> JsMap.get (JsMap.delete m k) k = None.
Proof.
  induction m as [|[k' v'] m IH]; simpl; auto.
  intros H. inversion H as [|? ? Hnotin Hnd]; subst.
  destruct (String.eqb k' k) eqn:E.
  - apply String.eqb_eq in E. subst. now apply get_None_not_key.
  - simpl. rewrite E. auto.
Qed.

Lemma get_delete_other (m : JsMap.t V) k k' :
  k <> k' -> JsMap.get (JsMap.delete m k) k' = JsMap.get m k'.
Proof.
  intros Hne. induction m as [|[k0 v0] m IH]; simpl; auto.
  destruct (String.eqb k0 k) eqn:E.
  - apply String.eqb_eq in E. subst k0.
    destruct (String.eqb k k') eqn:E'; auto.
    apply String.eqb_eq in E'. contradiction.
  - simpl. destruct (String.eqb k0 k'); auto.
Qed.

Lemma keys_delete_incl (m : JsMap.t V) k x :
  In x (JsMap.keys (JsMap.delete m k)) -> In x (JsMap.keys m).
Proof.
  induction m as [|[k0 v0] m IH]; simpl; auto.
  destruct (String.eqb k0 k); simpl; tauto.
Qed.

Lemma NoDup_keys_delete (m : JsMap.t V) k :
  NoDup (JsMap.keys m) -> NoDup (JsMap.keys (JsMap.delete m k)).
Proof.
  induction m as [|[k0 v0] m IH]; simpl; auto.
  intros H. inversion H; subst.
  destruct (String.eqb k0 k); simpl; auto.
  constructor; auto. intros Hin. apply keys_delete_incl in Hin. contradiction.
Qed.

End MapFacts.

Lemma get_set_eqb {V : Type} (m : JsMap.t V) k k' v :
  JsMap.get (JsMap.set m k v) k' = if String.eqb k k' then Some v else JsMap.get m k'.
Proof.
  eqb_cases k k' H.
  - subst. apply get_set_same.
  - now apply get_set_other.
Qed.

Lemma In_get_not_None {V : Type} (m : JsMap.t V) k v :
  In (k, v) m -> JsMap.get m k <> None.
Proof.
  intros Hin Hnone. apply get_None_not_key in Hnone. apply Hnone.
  unfold JsMap.keys. apply in_map_iff. exists (k, v). auto.
Qed.

Section ArrayFacts.

Context {A : Type}.

Lemma In_firstn n (l : list A) x : In x (firstn n l) -> In x l.
Proof.
  revert l. induction n as [|n IH]; intros [|y l]; simpl; try tauto.
  intros [H|H]; auto.
Qed.

Lemma In_skipn n (l : list A) x : In x (skipn n l) -> In x l.
Proof.
  revert l. induction n as [|n IH]; intros [|y l]; simpl; auto.
Qed.

Lemma slice_nil (from to : Z) : JsArray.slice (@nil A) from to = [].
Proof.
  unfold JsArray.slice. rewrite skipn_nil. now rewrite firstn_nil.
Qed.

Lemma slice_from_0 (l : list A) (to : Z) :
  (0 <= to)%Z -> JsArray.slice l 0 to = firstn (Z.to_nat to) l.
Proof.
  intros H. unfold JsArray.slice. simpl.
  replace (Z.min 0 (Z.of_nat (List.length l))) with 0%Z by lia.
  simpl. destruct (to <? 0)%Z eqn:E; [lia|].
  rewrite Z.sub_0_r.
  destruct (Z.le_ge_cases to (Z.of_nat (List.length l))).
  - now rewrite Z.min_l.
  - rewrite Z.min_r by lia. rewrite Nat2Z.id.
    rewrite !firstn_all2; auto; lia.
Qed.

Lemma slice_In (l : list A) from to x : In x (JsArray.slice l from to) -> In x l.
Proof.
  unfold JsArray.slice. intros H.
  apply In_firstn in H. now apply In_skipn in H.
Qed.

Lemma insert_In cmp (x y : A) l : In y (JsArray.insert cmp x l) <-> y = x \/ In y l.
Proof.
  induction l as [|z l IH]; simpl.
  - intuition.
  - destruct (cmp x z <=? 0)%Z; simpl; [intuition|]. rewrite IH. intuition.
Qed.

Lemma sort_In cmp (y : A) l : In y (JsArray.sort cmp l) <-> In y l.
Proof.
  induction l as [|z l IH]; simpl; [tauto|].
  rewrite insert_In, IH. intuition.
Qed.

Lemma sort_length cmp (l : list A) : List.length (JsArray.sort cmp l) = List.length l.
Proof.
  assert (Hins : forall x l', List.length (JsArray.insert cmp x l') = S (List.length l')).
  { intros x l'. induction l' as [|z l' IH]; simpl; auto.
    destruct (cmp x z <=? 0)%Z; simpl; auto. }
  induction l as [|z l IH]; simpl; auto. now rewrite Hins, IH.
Qed.

(** Scores through [(a, b) => b - a]: the sort leaves them in
    non-increasing order, and so does any slice. *)
Variable key : A -> Z.

Lemma insert_desc x l :
  StronglySorted (Spec.descBy key) l ->
  StronglySorted (Spec.descBy key) (JsArray.insert (fun a b => (key b - key a)%Z) x l).
Proof.
  induction 1 as [|y l Hs IH Hall]; simpl.
  - constructor; constructor.
  - destruct (key y - key x <=? 0)%Z eqn:E.
    + apply Z.leb_le in E. constructor.
      * constructor; auto.
      * constructor; [unfold Spec.descBy; lia|].
        eapply Forall_impl; [|exact Hall]. unfold Spec.descBy. intros; lia.
    + apply Z.leb_gt in E. constructor; auto.
      apply Forall_forall. intros z Hz. apply insert_In in Hz.
      destruct Hz as [->|Hz]; [unfold Spec.descBy; lia|].
      rewrite Forall_forall in Hall. auto.
Qed.

Lemma sort_desc l :
  StronglySorted (Spec.descBy key) (JsArray.sort (fun a b => (key b - key a)%Z) l).
Proof.
  induction l as [|x l IH]; simpl; [constructor|]. now apply insert_desc.
Qed.

Lemma StronglySorted_skipn (R : A -> A -> Prop) n l :
  StronglySorted R l -> StronglySorted R (skipn n l).
Proof.
  revert l. induction n as [|n IH]; intros l H; simpl; auto.
  destruct l; auto. inversion H; auto.
Qed.

Lemma StronglySorted_firstn (R : A -> A -> Prop) n l :
  StronglySorted R l -> StronglySorted R (firstn n l).
Proof.
  intros H. revert n. induction H as [|y l Hs IH Hall]; intros n.
  - rewrite firstn_nil. constructor.
  - destruct n; simpl; constructor; auto.
    apply Forall_forall. intros z Hz. apply In_firstn in Hz.
    rewrite Forall_forall in Hall. auto.
Qed.

Lemma slice_sorted (R : A -> A -> Prop) l from to :
  StronglySorted R l -> StronglySorted R (JsArray.slice l from to).
Proof.
  intros H. unfold JsArray.slice.
  now apply StronglySorted_firstn, StronglySorted_skipn.
Qed.

End ArrayFacts.

Lemma slice_all {A} (l : list A) (to : Z) :
  (Z.of_nat (List.length l) <= to)%Z -> JsArray.slice l 0 to = l.
Proof.
  intros H. rewrite slice_from_0 by lia. apply firstn_all2. lia.
Qed.

Lemma NoDup_map_inj {A B : Type} (f : A -> B) l x y :
  NoDup (List.map f l) -> In x l -> In y l -> f x = f y -> x = y.
Proof.
  induction l as [|a l IH]; simpl; [tauto|].
  intros Hnd Hx Hy Hf. inversion Hnd as [|? ? Hnotin Hnd']; subst.
  destruct Hx as [->|Hx], Hy as [->|Hy]; auto.
  - exfalso. apply Hnotin. rewrite Hf. now apply in_map.
  - exfalso. apply Hnotin. rewrite <- Hf. now apply in_map.
Qed.

Lemma NoDup_map_filter {A B : Type} (f : A -> B) (p : A -> bool) l :
  NoDup (List.map f l) -> NoDup (List.map f (filter p l)).
Proof.
  induction l as [|a l IH]; simpl; auto.
  intros H. inversion H as [|? ? Hnotin Hnd]; subst.
  destruct (p a); simpl; auto. constructor; auto.
  intros Hin. apply Hnotin. apply in_map_iff in Hin.
  destruct Hin as [x [Hx Hin]]. apply filter_In in Hin.
  apply in_map_iff. exists x. tauto.
Qed.

Lemma list_sum_indicator {A : Type} (p : A -> bool) l :
  list_sum (List.map (fun x => if p x then 1 else 0) l) = List.length (filter p l).
Proof.
  induction l as [|x l IH]; simpl; auto. destruct (p x); simpl; lia.
Qed.

(* ================================================================== *)
(** ** Search: candidates and results *)

Section SearchFacts.

Lemma resultFor_cases userDocs options searchTerms entry :
  resultFor userDocs options searchTerms entry = []
  \/ exists doc,
       JsMap.get userDocs (fst entry) = Some doc
       /\ resultFor userDocs options searchTerms entry
          = [searchResult doc (snd entry) searchTerms].
Proof.
  destruct entry as [documentId score]. simpl.
  destruct (JsMap.get userDocs documentId) as [doc|]; auto.
  destruct (categoryExcludes (so_category options) doc); auto.
  right. exists doc. auto.
Qed.

(** Every result comes from a candidate and from a document of the
    owner's own map. *)
Lemma result_origin userDocs options searchTerms candidates r :
  In r (flat_map (resultFor userDocs options searchTerms) candidates) ->
  exists entry doc,
    In entry candidates
    /\ JsMap.get userDocs (fst entry) = Some doc
    /\ r = searchResult doc (snd entry) searchTerms.
Proof.
  intros H. apply in_flat_map in H. destruct H as [entry [Hin Hr]].
  destruct (resultFor_cases userDocs options searchTerms entry) as [E|[doc [Hget E]]];
    rewrite E in Hr; simpl in Hr; [contradiction|].
  destruct Hr as [<-|[]]. exists entry, doc. auto.
Qed.

Lemma results_sorted userDocs options searchTerms candidates :
  StronglySorted (Spec.descBy snd) candidates ->
  Spec.nonIncreasing
    (List.map res_score (flat_map (resultFor userDocs options searchTerms) candidates)).
Proof.
  unfold Spec.nonIncreasing.
  induction 1 as [|entry l Hs IH Hall]; simpl; [constructor|].
  rewrite map_app.
  destruct (resultFor_cases userDocs options searchTerms entry) as [E|[doc [_ E]]];
    rewrite E; simpl; auto.
  constructor; auto.
  apply Forall_forall. intros z Hz. apply in_map_iff in Hz.
  destruct Hz as [r [<- Hr]]. apply result_origin in Hr.
  destruct Hr as [e [d [Hin [_ ->]]]]. simpl.
  rewrite Forall_forall in Hall. apply (Hall e Hin).
Qed.

Lemma results_length userDocs options searchTerms candidates :
  List.length (flat_map (resultFor userDocs options searchTerms) candidates)
  <= List.length candidates.
Proof.
  induction candidates as [|entry l IH]; simpl; auto.
  rewrite length_app.
  destruct (resultFor_cases userDocs options searchTerms entry) as [E|[doc [_ E]]];
    rewrite E; simpl; lia.
Qed.

Lemma no_docs_no_results options searchTerms candidates :
  flat_map (resultFor [] options searchTerms) candidates = [].
Proof.
  induction candidates as [|[documentId score] l IH]; simpl; auto.
Qed.

Lemma userDocsOf_empty st userId :
  JsMap.get (documents st) userId = None \/ JsMap.get (documents st) userId = Some [] ->
  userDocsOf st userId = [].
Proof.
  unfold userDocsOf. intros [H|H]; now rewrite H.
Qed.

End SearchFacts.

(** Every entry of the list view is the literal built from a document of
    the owner's map. *)
Lemma listed_entry_origin userId options st entry :
  In entry (getDocuments userId options st) ->
  exists doc, In doc (JsMap.values (userDocsOf st userId)) /\ entry = cleanedDoc doc.
Proof.
  unfold getDocuments. intros H. apply in_map_iff in H.
  destruct H as [doc [<- Hin]]. exists doc. split; auto.
  apply slice_In in Hin. apply sort_In in Hin.
  destruct (lo_category options) as [c|]; auto.
  destruct (JsString.truthy c); auto.
  apply filter_In in Hin. tauto.
Qed.

Lemma listed_entry_keys userId options st entry :
  In entry (getDocuments userId options st) ->
  List.map fst entry
  = ["id"; "title"; "description"; "category"; "fileName"; "fileSize";
     "wordCount"; "status"; "createdAt"; "updatedAt"].
Proof.
  intros H. apply listed_entry_origin in H. destruct H as [doc [_ ->]]. reflexivity.
Qed.

(* ================================================================== *)
(** ** Splitting, trimming and the chunk loop *)

Lemma split_not_nil s : JsString.split s <> [].
Proof.
  induction s as [|c s IH]; simpl; [discriminate|].
  destruct (JsString.isWhiteSpace c).
  - destruct (JsString.startsWithSpace s); [assumption|discriminate].
  - destruct (JsString.split s); discriminate.
Qed.

Lemma join_cons_char c p ps :
  JsString.join " " (String c p :: ps) = String c (JsString.join " " (p :: ps)).
Proof. unfold JsString.join. simpl. destruct ps; reflexivity. Qed.

Lemma join_empty_cons p ps :
  JsString.join " " (EmptyString :: p :: ps) = String " " (JsString.join " " (p :: ps)).
Proof. reflexivity. Qed.

Lemma hasNonSpace_join_split s :
  Spec.hasNonSpace (JsString.join " " (JsString.split s)) = Spec.hasNonSpace s.
Proof.
  induction s as [|c s IH]; simpl; [reflexivity|].
  destruct (JsString.isWhiteSpace c) eqn:Ec; simpl.
  - destruct (JsString.startsWithSpace s); [exact IH|].
    destruct (JsString.split s) as [|p ps] eqn:Es; [now apply split_not_nil in Es|].
    rewrite join_empty_cons. simpl. exact IH.
  - destruct (JsString.split s) as [|p ps] eqn:Es; [now apply split_not_nil in Es|].
    rewrite join_cons_char. simpl. now rewrite Ec.
Qed.

Lemma hasNonSpace_trimStart s :
  Spec.hasNonSpace (JsString.trimStart s) = Spec.hasNonSpace s.
Proof.
  induction s as [|c s IH]; simpl; [reflexivity|].
  destruct (JsString.isWhiteSpace c) eqn:Ec; simpl; [exact IH|]. now rewrite Ec.
Qed.

Lemma truthy_trimEnd s :
  JsString.truthy (JsString.trimEnd s) = Spec.hasNonSpace s.
Proof.
  induction s as [|c s IH]; simpl; [reflexivity|].
  destruct (JsString.trimEnd s) eqn:Et; simpl in *.
  - rewrite <- IH. destruct (JsString.isWhiteSpace c); reflexivity.
  - rewrite <- IH. now rewrite orb_true_r.
Qed.

Lemma truthy_trim s : JsString.truthy (JsString.trim s) = Spec.hasNonSpace s.
Proof. unfold JsString.trim. now rewrite truthy_trimEnd, hasNonSpace_trimStart. Qed.

Lemma chunkLoop_returns words chunkSize overlap :
  (0 < chunkSize - overlap)%Z ->
  forall fuel i,
    (Z.max 0 (Z.of_nat (List.length words) - i) < Z.of_nat fuel)%Z ->
    chunkLoop fuel words chunkSize overlap i <> None.
Proof.
  intros Hstep. induction fuel as [|fuel IH]; intros i Hfuel; [lia|].
  simpl. destruct (i <? Z.of_nat (List.length words))%Z eqn:Ei; [|discriminate].
  apply Z.ltb_lt in Ei.
  assert (Hrest : chunkLoop fuel words chunkSize overlap (i + (chunkSize - overlap)) <> None)
    by (apply IH; lia).
  destruct (chunkLoop fuel words chunkSize overlap (i + (chunkSize - overlap)));
    [|contradiction].
  destruct (JsString.truthy _); discriminate.
Qed.

Lemma chunkText_1000_returns text :
  chunkText (S (List.length (JsString.split text))) text 1000 100
  = Some (chunkText1000 text).
Proof.
  unfold chunkText1000.
  destruct (chunkText (S (List.length (JsString.split text))) text 1000 100) eqn:E;
    [reflexivity|].
  exfalso. revert E. apply chunkLoop_returns; lia.
Qed.

(** More fuel does not change what the loop returns. *)
Lemma chunkLoop_more_fuel words chunkSize overlap :
  forall fuel fuel' i chunks,
    chunkLoop fuel words chunkSize overlap i = Some chunks ->
    fuel <= fuel' ->
    chunkLoop fuel' words chunkSize overlap i = Some chunks.
Proof.
  induction fuel as [|fuel IH]; intros fuel' i chunks H Hle; [discriminate|].
  destruct fuel' as [|fuel']; [lia|].
  simpl in *. destruct (i <? Z.of_nat (List.length words))%Z; auto.
  destruct (chunkLoop fuel words chunkSize overlap (i + (chunkSize - overlap)))
    as [rest|] eqn:E.
  - rewrite (IH fuel' _ rest E) by lia. exact H.
  - destruct (JsString.truthy _); discriminate.
Qed.

Lemma split_pieces_words s :
  allChars (fun c => JsString.isWordChar c || JsString.isWhiteSpace c) s = true ->
  Forall (fun piece => allChars JsString.isWordChar piece = true) (JsString.split s).
Proof.
  induction s as [|c s IH]; simpl.
  - intros _. repeat constructor.
  - intros H. apply andb_true_iff in H. destruct H as [Hc Hs]. specialize (IH Hs).
    destruct (JsString.isWhiteSpace c) eqn:Ew.
    + destruct (JsString.startsWithSpace s); auto.
    + rewrite orb_false_r in Hc.
      destruct (JsString.split s) as [|p ps]; inversion IH; subst;
        constructor; simpl; auto; rewrite Hc; auto.
Qed.

Lemma replaceNonWord_chars s :
  allChars (fun c => JsString.isWordChar c || JsString.isWhiteSpace c)
           (JsString.replaceNonWord s) = true.
Proof.
  unfold JsString.replaceNonWord.
  induction s as [|c s IH]; simpl; auto.
  rewrite IH, andb_true_r.
  destruct (JsString.isWordChar c || JsString.isWhiteSpace c) eqn:E; auto.
Qed.

(** A search term is made of word characters and is longer than two: as
    a regular expression it matches itself and nothing else. *)
Lemma terms_are_words text term :
  In term (extractSearchTerms text) ->
  allChars JsString.isWordChar term = true /\ 2 < String.length term.
Proof.
  unfold extractSearchTerms. intros H.
  apply filter_In in H. destruct H as [H _].
  apply filter_In in H. destruct H as [H Hlen]. split.
  - pose proof (split_pieces_words _ (replaceNonWord_chars (JsString.toLowerCase text))) as Hall.
    rewrite Forall_forall in Hall. now apply Hall.
  - now apply Nat.ltb_lt.
Qed.

(* ================================================================== *)
(** ** The invariant of the document maps and the index *)

(** *** The document maps *)

Lemma lookup_saveDocument doc st userId documentId :
  lookupDoc (saveDocument doc st) userId documentId
  = if String.eqb userId (doc_userId doc) && String.eqb documentId (doc_id doc)
    then Some doc else lookupDoc st userId documentId.
Proof.
  unfold lookupDoc, saveDocument, userDocsOf at 1. simpl.
  eqb_cases userId (doc_userId doc) Hu; simpl.
  - subst userId. rewrite get_set_same.
    eqb_cases documentId (doc_id doc) Hd.
    + subst. apply get_set_same.
    + rewrite get_set_other by congruence. reflexivity.
  - rewrite get_set_other by congruence. reflexivity.
Qed.

Lemma userDocsOf_saveDocument doc st userId :
  userDocsOf (saveDocument doc st) userId
  = if String.eqb userId (doc_userId doc)
    then JsMap.set (userDocsOf st userId) (doc_id doc) doc
    else userDocsOf st userId.
Proof.
  unfold saveDocument, userDocsOf at 1. simpl.
  eqb_cases userId (doc_userId doc) Hu.
  - subst. now rewrite get_set_same.
  - rewrite get_set_other by congruence. reflexivity.
Qed.

Lemma freshId_lookup st documentId :
  freshId st documentId -> forall userId, lookupDoc st userId documentId = None.
Proof.
  intros H userId. unfold lookupDoc, userDocsOf.
  destruct (JsMap.get (documents st) userId) eqn:E; [eauto|reflexivity].
Qed.

Lemma storeOk_saveDocument doc st :
  storeOk st -> freshId st (doc_id doc) -> storeOk (saveDocument doc st).
Proof.
  intros [Hkeys Huniq Hnd] Hfresh.
  pose proof (freshId_lookup st _ Hfresh) as Hnone.
  constructor.
  - intros u d x. rewrite lookup_saveDocument.
    eqb_cases u (doc_userId doc) Hu; eqb_cases d (doc_id doc) Hd; simpl; auto.
    intros [= <-]. auto.
  - intros u u' d. rewrite !lookup_saveDocument.
    eqb_cases u (doc_userId doc) Hu; eqb_cases u' (doc_userId doc) Hu';
      eqb_cases d (doc_id doc) Hd; simpl; subst; auto;
      try (intros; congruence);
      try (intros H1 H2; rewrite Hnone in *; congruence);
      eauto.
  - intros u. rewrite userDocsOf_saveDocument.
    destruct (String.eqb u (doc_userId doc)); auto using NoDup_keys_set.
Qed.

Lemma lookup_deleted st userId documentId u d :
  NoDup (JsMap.keys (userDocsOf st userId)) ->
  JsMap.get
    (match JsMap.get (JsMap.set (documents st) userId
                                (JsMap.delete (userDocsOf st userId) documentId)) u with
     | Some userDocs => userDocs
     | None => []
     end) d
  = if String.eqb u userId && String.eqb d documentId
    then None else lookupDoc st u d.
Proof.
  intros Hnd. unfold lookupDoc.
  eqb_cases u userId Hu; simpl.
  - subst u. rewrite get_set_same.
    eqb_cases d documentId Hd.
    + subst. now apply get_delete_same.
    + now rewrite get_delete_other by congruence.
  - rewrite get_set_other by congruence. reflexivity.
Qed.

(** *** Counting the objects of an entry *)

Lemma countRefs_app s1 s2 documentId userId :
  countRefs (s1 ++ s2) documentId userId
  = countRefs s1 documentId userId + countRefs s2 documentId userId.
Proof. unfold countRefs. now rewrite filter_app, length_app. Qed.

Lemma countRefs_filter_other s d documentId userId :
  countRefs (filter (fun r => negb (String.eqb (ref_documentId r) d)) s) documentId userId
  = if String.eqb documentId d then 0 else countRefs s documentId userId.
Proof.
  unfold countRefs. induction s as [|r s IH]; simpl.
  - now destruct (String.eqb documentId d).
  - eqb_cases (ref_documentId r) d Hr; simpl.
    + rewrite IH. eqb_cases documentId d Hd; auto.
      eqb_cases (ref_documentId r) documentId Hrd; simpl; auto. congruence.
    + destruct (String.eqb (ref_documentId r) documentId && String.eqb (ref_userId r) userId) eqn:E;
        simpl; rewrite IH.
      * eqb_cases documentId d Hd; auto.
        apply andb_true_iff in E. destruct E as [E _]. apply String.eqb_eq in E. congruence.
      * reflexivity.
Qed.

Lemma countRefs_pos_In s documentId userId :
  0 < countRefs s documentId userId <->
  exists r, In r s /\ ref_documentId r = documentId /\ ref_userId r = userId.
Proof.
  unfold countRefs. split.
  - intros H.
    destruct (filter _ s) as [|r l] eqn:E; [simpl in H; lia|].
    assert (Hin : In r (r :: l)) by now left.
    rewrite <- E in Hin. apply filter_In in Hin. destruct Hin as [Hin Hp].
    apply andb_true_iff in Hp. destruct Hp as [H1 H2].
    apply String.eqb_eq in H1, H2. eauto.
  - intros [r [Hin [H1 H2]]].
    assert (Hf : In r (filter (fun r0 => String.eqb (ref_documentId r0) documentId
                                         && String.eqb (ref_userId r0) userId) s)).
    { apply filter_In. split; auto. subst. now rewrite !String.eqb_refl. }
    destruct (filter _ s); [contradiction|simpl; lia].
Qed.

(** *** Adding to the index *)

Lemma add_fresh (s : RefSet.t) r :
  Forall (fun x => ref_addr x < ref_addr r) s -> RefSet.add s r = s ++ [r].
Proof.
  intros H. unfold RefSet.add, RefSet.has.
  replace (existsb (fun x => ref_addr x =? ref_addr r) s) with false; auto.
  symmetry. induction H as [|x l Hx Hl IH]; simpl; auto.
  rewrite IH. replace (ref_addr x =? ref_addr r) with false; auto.
  symmetry. apply Nat.eqb_neq. lia.
Qed.

Lemma entryOf_indexTerm doc st term t :
  indexOk st ->
  entryOf (indexTerm doc st term) t
  = if String.eqb t term then entryOf st t ++ [newRef doc st] else entryOf st t.
Proof.
  intros [_ Haddr]. unfold entryOf, indexTerm. cbn [documentIndex].
  unfold JsMap.has.
  destruct (JsMap.get (documentIndex st) term) as [docSet|] eqn:Eg; cbn [negb].
  - rewrite Eg. rewrite add_fresh by (apply (Haddr term docSet Eg)).
    eqb_cases t term Ht.
    + subst. now rewrite get_set_same, Eg.
    + now rewrite get_set_other by congruence.
  - rewrite get_set_same. simpl RefSet.add.
    eqb_cases t term Ht.
    + subst. now rewrite get_set_same, Eg.
    + now rewrite !get_set_other by congruence.
Qed.

Lemma get_indexTerm doc st term t docSet :
  indexOk st ->
  JsMap.get (documentIndex (indexTerm doc st term)) t = Some docSet ->
  docSet = entryOf (indexTerm doc st term) t
  /\ (t = term \/ JsMap.get (documentIndex st) t = Some docSet).
Proof.
  intros Hok Hget. split.
  - unfold entryOf. now rewrite Hget.
  - eqb_cases t term Ht; auto. right.
    revert Hget. unfold indexTerm. cbn [documentIndex]. unfold JsMap.has.
    destruct (JsMap.get (documentIndex st) term) as [s|] eqn:Eg; cbn [negb].
    + rewrite Eg. now rewrite get_set_other by congruence.
    + rewrite get_set_same. now rewrite !get_set_other by congruence.
Qed.

Lemma indexOk_indexTerm doc st term :
  indexOk st -> indexOk (indexTerm doc st term).
Proof.
  intros Hok. pose proof Hok as [Hnd Haddr]. constructor.
  - unfold indexTerm. cbn [documentIndex]. unfold JsMap.has.
    destruct (JsMap.get (documentIndex st) term) as [s|] eqn:Eg; cbn [negb].
    + rewrite Eg. now apply NoDup_keys_set.
    + rewrite get_set_same. now apply NoDup_keys_set, NoDup_keys_set.
  - intros t docSet Hget.
    destruct (get_indexTerm doc st term t docSet Hok Hget) as [Hds Hcase].
    assert (Hold : NoDup (List.map ref_addr (entryOf st t))
                   /\ Forall (fun r => ref_addr r < nextAddr st) (entryOf st t)).
    { unfold entryOf. destruct (JsMap.get (documentIndex st) t) as [s|] eqn:Es.
      - now apply (Haddr t).
      - split; constructor. }
    destruct Hold as [Hold1 Hold2].
    rewrite entryOf_indexTerm in Hds by assumption.
    cbn [nextAddr indexTerm].
    eqb_cases t term Ht; subst docSet.
    + split.
      * rewrite map_app. simpl.
        apply NoDup_rev in Hold1. rewrite <- (rev_involutive (_ ++ [_])).
        apply NoDup_rev. rewrite rev_app_distr. simpl. constructor; auto.
        rewrite <- in_rev. intros Hin. apply in_map_iff in Hin.
        destruct Hin as [r [Hr Hin]]. rewrite Forall_forall in Hold2.
        specialize (Hold2 r Hin). lia.
      * apply Forall_app. split.
        -- eapply Forall_impl; [|exact Hold2]. simpl. intros; lia.
        -- constructor; [simpl; lia|constructor].
    + split; auto. eapply Forall_impl; [|exact Hold2]. simpl. intros; lia.
Qed.

Lemma documents_indexTerms doc terms st :
  documents (fold_left (indexTerm doc) terms st) = documents st.
Proof.
  revert st. induction terms as [|t terms IH]; intros st; simpl; auto.
  now rewrite IH.
Qed.

Lemma files_indexTerms doc terms st :
  files (fold_left (indexTerm doc) terms st) = files st.
Proof.
  revert st. induction terms as [|t terms IH]; intros st; simpl; auto.
  now rewrite IH.
Qed.

(** Indexing the terms of a document one after the other: the index gains
    one object for the document per term occurrence. *)
Lemma indexTerms_counts doc terms :
  forall st base,
    indexOk st ->
    indexMatches st base ->
    let st' := fold_left (indexTerm doc) terms st in
    indexOk st'
    /\ indexMatches st'
         (fun userId documentId term =>
            base userId documentId term
            + if String.eqb documentId (doc_id doc) && String.eqb userId (doc_userId doc)
              then count_occ string_dec terms term else 0).
Proof.
  induction terms as [|t terms IH]; intros st base Hok Hm; simpl.
  - split; auto. intros term d u. rewrite Hm. destruct (_ && _); lia.
  - pose proof (indexOk_indexTerm doc st t Hok) as Hok1.
    assert (Hm1 : indexMatches (indexTerm doc st t)
                    (fun userId documentId term =>
                       base userId documentId term
                       + if String.eqb documentId (doc_id doc)
                            && String.eqb userId (doc_userId doc)
                         then (if string_dec t term then 1 else 0) else 0)).
    { intros term d u. rewrite entryOf_indexTerm by assumption.
      eqb_cases term t Ht.
      - subst. rewrite countRefs_app, Hm. f_equal.
        unfold countRefs. simpl.
        rewrite (String.eqb_sym (doc_id doc) d), (String.eqb_sym (doc_userId doc) u).
        destruct (String.eqb d (doc_id doc) && String.eqb u (doc_userId doc)); simpl;
          destruct (string_dec t t); auto; congruence.
      - rewrite Hm. destruct (string_dec t term); [congruence|].
        destruct (_ && _); lia. }
    destruct (IH _ _ Hok1 Hm1) as [Hok2 Hm2]. split; auto.
    intros term d u. rewrite Hm2.
    destruct (String.eqb d (doc_id doc) && String.eqb u (doc_userId doc));
      destruct (string_dec t term); lia.
Qed.

(** *** Removing from the index *)

Lemma fold_delete_filter (toRemove : list DocRef) :
  forall docSet,
    fold_left RefSet.delete toRemove docSet
    = filter (fun x => negb (existsb (fun r => ref_addr x =? ref_addr r) toRemove)) docSet.
Proof.
  induction toRemove as [|r rs IH]; intros docSet; simpl.
  - induction docSet as [|x l IHl]; simpl; congruence.
  - rewrite IH. unfold RefSet.delete.
    induction docSet as [|x l IHl]; simpl; auto.
    destruct (ref_addr x =? ref_addr r); simpl; auto.
    destruct (existsb _ rs); simpl; auto. now rewrite IHl.
Qed.

(** An entry keeps exactly the objects of the other documents. *)
Lemma removeFromSet_filter documentId docSet :
  NoDup (List.map ref_addr docSet) ->
  removeFromSet documentId docSet
  = filter (fun r => negb (String.eqb (ref_documentId r) documentId)) docSet.
Proof.
  intros Hnd. unfold removeFromSet. rewrite fold_delete_filter.
  apply filter_ext_in. intros x Hx. f_equal.
  destruct (String.eqb (ref_documentId x) documentId) eqn:E.
  - apply existsb_exists. exists x. split; [|apply Nat.eqb_refl].
    apply filter_In. auto.
  - destruct (existsb _ _) eqn:Ex; auto.
    apply existsb_exists in Ex. destruct Ex as [r [Hr Haddr]].
    apply filter_In in Hr. destruct Hr as [Hr Hd]. apply Nat.eqb_eq in Haddr.
    assert (x = r) by (eapply NoDup_map_inj; eauto). subst. congruence.
Qed.

(** Whatever the entry holds, no object of the document survives. *)
Lemma removeFromSet_clean documentId docSet r :
  In r (removeFromSet documentId docSet) -> ref_documentId r <> documentId.
Proof.
  unfold removeFromSet. rewrite fold_delete_filter. intros H.
  apply filter_In in H. destruct H as [Hin Hex]. intros Heq.
  apply negb_true_iff in Hex.
  assert (Hex' : existsb (fun r0 => ref_addr r =? ref_addr r0)
                   (filter (fun doc => String.eqb (ref_documentId doc) documentId) docSet)
                 = true).
  { apply existsb_exists. exists r. split; [|apply Nat.eqb_refl].
    apply filter_In. split; auto. now apply String.eqb_eq. }
  congruence.
Qed.

Lemma removeFromEntries_In documentId entries term docSet :
  In (term, docSet) (removeFromEntries documentId entries) ->
  docSet <> []
  /\ exists old, In (term, old) entries /\ docSet = removeFromSet documentId old.
Proof.
  induction entries as [|[t s] rest IH]; simpl; [tauto|].
  destruct (RefSet.size (removeFromSet documentId s) =? 0) eqn:E.
  - intros H. destruct (IH H) as [Hne [old [Hin Heq]]]. eauto.
  - intros [H|H].
    + inversion H; subst. split.
      * intros Hnil. rewrite Hnil in E. discriminate.
      * eauto.
    + destruct (IH H) as [Hne [old [Hin Heq]]]. eauto.
Qed.

Lemma keys_removeFromEntries documentId entries term :
  In term (JsMap.keys (removeFromEntries documentId entries)) ->
  In term (JsMap.keys entries).
Proof.
  induction entries as [|[t s] rest IH]; simpl; auto.
  destruct (RefSet.size (removeFromSet documentId s) =? 0); simpl; tauto.
Qed.

Lemma NoDup_keys_removeFromEntries documentId entries :
  NoDup (JsMap.keys entries) -> NoDup (JsMap.keys (removeFromEntries documentId entries)).
Proof.
  induction entries as [|[t s] rest IH]; simpl; auto.
  intros H. inversion H; subst.
  destruct (RefSet.size (removeFromSet documentId s) =? 0); simpl; auto.
  constructor; auto. intros Hin. apply keys_removeFromEntries in Hin. contradiction.
Qed.

Lemma get_removeFromEntries documentId entries term :
  NoDup (JsMap.keys entries) ->
  JsMap.get (removeFromEntries documentId entries) term
  = match JsMap.get entries term with
    | Some docSet =>
        if RefSet.size (removeFromSet documentId docSet) =? 0
        then None else Some (removeFromSet documentId docSet)
    | None => None
    end.
Proof.
  induction entries as [|[t s] rest IH]; simpl; auto.
  intros H. inversion H as [|? ? Hnotin Hnd]; subst.
  eqb_cases t term Ht.
  - subst. destruct (RefSet.size (removeFromSet documentId s) =? 0) eqn:E.
    + apply get_None_not_key. intros Hin. apply keys_removeFromEntries in Hin. contradiction.
    + simpl. now rewrite String.eqb_refl.
  - destruct (RefSet.size (removeFromSet documentId s) =? 0); simpl; auto.
    apply String.eqb_neq in Ht. rewrite Ht. auto.
Qed.

Lemma entryOf_removeFromIndex documentId st term :
  indexOk st ->
  entryOf (removeFromIndex documentId st) term
  = filter (fun r => negb (String.eqb (ref_documentId r) documentId)) (entryOf st term).
Proof.
  intros [Hnd Haddr]. unfold entryOf, removeFromIndex. cbn [documentIndex].
  rewrite get_removeFromEntries by assumption.
  destruct (JsMap.get (documentIndex st) term) as [docSet|] eqn:Eg; [|reflexivity].
  rewrite <- removeFromSet_filter by (apply (Haddr term docSet Eg)).
  destruct (removeFromSet documentId docSet); reflexivity.
Qed.

Lemma indexOk_removeFromIndex documentId st :
  indexOk st -> indexOk (removeFromIndex documentId st).
Proof.
  intros Hok. pose proof Hok as [Hnd Haddr]. constructor.
  - cbn. now apply NoDup_keys_removeFromEntries.
  - intros term docSet. cbn [removeFromIndex documentIndex nextAddr].
    rewrite get_removeFromEntries by assumption.
    destruct (JsMap.get (documentIndex st) term) as [old|] eqn:Eg; [|discriminate].
    destruct (RefSet.size (removeFromSet documentId old) =? 0); [discriminate|].
    intros [= <-]. destruct (Haddr term old Eg) as [H1 H2].
    rewrite removeFromSet_filter by assumption. split.
    + now apply NoDup_map_filter.
    + apply Forall_forall. intros r Hr. apply filter_In in Hr.
      rewrite Forall_forall in H2. apply H2. tauto.
Qed.

(** *** The invariant holds in every state the service reaches *)

Lemma consistent_same_maps st st' :
  documents st' = documents st ->
  documentIndex st' = documentIndex st ->
  nextAddr st' = nextAddr st ->
  consistent st -> consistent st'.
Proof.
  destruct st, st'. simpl. intros -> -> -> [[H1 H2 H3] [H4 H5] H6].
  constructor; [constructor | constructor | ]; assumption.
Qed.

Lemma consistent_empty : consistent emptyKB.
Proof.
  repeat constructor; try discriminate.
  intros u u' d H. now contradiction H.
Qed.

Lemma storedCount_indexDocument doc st userId documentId term :
  lookupDoc st (doc_userId doc) (doc_id doc) = None ->
  storedCount (indexDocument doc (saveDocument doc st)) userId documentId term
  = storedCount st userId documentId term
    + if String.eqb documentId (doc_id doc) && String.eqb userId (doc_userId doc)
      then count_occ string_dec (extractSearchTerms (doc_extractedText doc)) term
      else 0.
Proof.
  intros Hnone. unfold storedCount, indexDocument.
  replace (lookupDoc (fold_left (indexTerm doc) _ (saveDocument doc st)) userId documentId)
    with (lookupDoc (saveDocument doc st) userId documentId)
    by (unfold lookupDoc, userDocsOf; now rewrite documents_indexTerms).
  rewrite lookup_saveDocument.
  eqb_cases userId (doc_userId doc) Hu; eqb_cases documentId (doc_id doc) Hd; simpl;
    subst; try rewrite Hnone; auto.
Qed.

Lemma consistent_ingest doc st :
  consistent st -> freshId st (doc_id doc) ->
  consistent (indexDocument doc (saveDocument doc st)).
Proof.
  intros [Hstore Hindex Hrefs] Hfresh.
  pose proof (freshId_lookup st _ Hfresh) as Hnone.
  assert (Hindex0 : indexOk (saveDocument doc st)).
  { destruct Hindex as [H1 H2]. constructor; assumption. }
  assert (Hrefs0 : indexMatches (saveDocument doc st) (storedCount st))
    by exact Hrefs.
  destruct (indexTerms_counts doc (extractSearchTerms (doc_extractedText doc))
              (saveDocument doc st) (storedCount st) Hindex0 Hrefs0) as [Hok Hm].
  constructor.
  - pose proof (storeOk_saveDocument doc st Hstore Hfresh) as [H1 H2 H3].
    unfold indexDocument.
    constructor; unfold lookupDoc, userDocsOf in *;
      rewrite documents_indexTerms; assumption.
  - exact Hok.
  - intros term d u. unfold indexDocument. rewrite Hm.
    symmetry. apply storedCount_indexDocument. apply Hnone.
Qed.

Lemma consistent_delete st documentId userId deletedAt :
  consistent st -> consistent (snd (deleteDocument documentId userId deletedAt st)).
Proof.
  intros Hc. unfold deleteDocument.
  destruct (JsMap.get (userDocsOf st userId) documentId) as [document|] eqn:Eg;
    [|exact Hc].
  destruct Hc as [Hstore Hindex Hrefs]. pose proof Hstore as [Hkeys Huniq Hnd].
  cbn [snd removeFromIndex documents documentIndex nextAddr files].
  assert (Hlook : forall u d,
            lookupDoc
              {| documents := JsMap.set (documents st) userId
                                (JsMap.delete (userDocsOf st userId) documentId);
                 documentIndex := removeFromEntries documentId (documentIndex st);
                 nextAddr := nextAddr st;
                 files := unlink (files st) (doc_filePath document) |} u d
            = if String.eqb u userId && String.eqb d documentId
              then None else lookupDoc st u d).
  { intros u d. apply lookup_deleted. apply Hnd. }
  constructor.
  - constructor.
    + intros u d x. rewrite Hlook. destruct (_ && _); [discriminate|]. apply Hkeys.
    + intros u u' d. rewrite !Hlook.
      destruct (String.eqb u userId && String.eqb d documentId); [congruence|].
      destruct (String.eqb u' userId && String.eqb d documentId); [congruence|].
      apply Huniq.
    + intros u. unfold userDocsOf at 1. cbn [documents].
      eqb_cases u userId Hu.
      * subst. rewrite get_set_same. apply NoDup_keys_delete, Hnd.
      * rewrite get_set_other by congruence. apply (Hnd u).
  - pose proof (indexOk_removeFromIndex documentId st Hindex) as [H1 H2].
    constructor; assumption.
  - intros term d u.
    change (countRefs (entryOf (removeFromIndex documentId st) term) d u
            = storedCount
                {| documents := JsMap.set (documents st) userId
                                  (JsMap.delete (userDocsOf st userId) documentId);
                   documentIndex := removeFromEntries documentId (documentIndex st);
                   nextAddr := nextAddr st;
                   files := unlink (files st) (doc_filePath document) |} u d term).
    rewrite entryOf_removeFromIndex by assumption.
    rewrite countRefs_filter_other. unfold storedCount at 1. rewrite Hlook.
    eqb_cases d documentId Hd.
    + subst d. rewrite andb_true_r.
      eqb_cases u userId Hu; auto.
      destruct (lookupDoc st u documentId) eqn:El; auto.
      exfalso. apply Hu. apply (Huniq u userId documentId); unfold lookupDoc in *; congruence.
    + rewrite andb_false_r. apply Hrefs.
Qed.

Theorem reachable_consistent st : reachable st -> consistent st.
Proof.
  induction 1 as [|st path content Hr IH|st options env Hr IH Hfresh
                  |st documentId userId deletedAt Hr IH].
  - apply consistent_empty.
  - revert IH. now apply consistent_same_maps.
  - unfold processDocument.
    destruct (extractText env (files st) (po_file options)) as [text|e]; cbn [snd].
    + apply consistent_ingest; assumption.
    + revert IH. now apply consistent_same_maps.
  - now apply consistent_delete.
Qed.

(* ================================================================== *)
(** ** What search counts *)

Lemma bump_bump m n score : bump m (bump n score) = bump (n + m) score.
Proof.
  destruct n as [|n], m as [|m]; simpl; auto.
  - now rewrite Nat.add_0_r.
  - f_equal. lia.
Qed.

Lemma get_scoreRefs userId documentId refs :
  forall scores,
    JsMap.get (fold_left (scoreRef userId) refs scores) documentId
    = bump (countRefs refs documentId userId) (JsMap.get scores documentId).
Proof.
  induction refs as [|r refs IH]; intros scores; simpl; auto.
  rewrite IH. unfold scoreRef, countRefs. simpl.
  eqb_cases (ref_userId r) userId Hu; rewrite ?andb_false_r, ?andb_true_r.
  - rewrite get_set_eqb.
    eqb_cases (ref_documentId r) documentId Hd.
    + subst. simpl List.length.
      change (bump (List.length (filter (fun r0 => String.eqb (ref_documentId r0) (ref_documentId r)
                                                   && String.eqb (ref_userId r0) (ref_userId r)) refs))
                   (bump 1 (JsMap.get scores (ref_documentId r)))
              = bump (1 + List.length (filter (fun r0 => String.eqb (ref_documentId r0) (ref_documentId r)
                                                   && String.eqb (ref_userId r0) (ref_userId r)) refs))
                     (JsMap.get scores (ref_documentId r))).
      apply bump_bump.
    + reflexivity.
  - reflexivity.
Qed.

Lemma get_scoreTerms st userId documentId terms :
  forall scores,
    JsMap.get (fold_left (scoreTerm st userId) terms scores) documentId
    = bump (matchCount st userId documentId terms) (JsMap.get scores documentId).
Proof.
  unfold matchCount.
  induction terms as [|t terms IH]; intros scores; simpl; auto.
  rewrite IH. unfold scoreTerm. fold (entryOf st t).
  rewrite get_scoreRefs. apply bump_bump.
Qed.

Lemma get_documentScores st userId documentId terms :
  JsMap.get (documentScores st userId terms) documentId
  = bump (matchCount st userId documentId terms) None.
Proof. unfold documentScores. now rewrite get_scoreTerms. Qed.

Lemma count_occ_NoDup (l : list string) t :
  NoDup l -> count_occ string_dec l t = if mem t l then 1 else 0.
Proof.
  intros Hnd. unfold mem.
  destruct (existsb (String.eqb t) l) eqn:E.
  - apply existsb_exists in E. destruct E as [x [Hin Hx]].
    apply String.eqb_eq in Hx. subst x.
    pose proof (proj1 (NoDup_count_occ string_dec l) Hnd t).
    pose proof (proj1 (count_occ_In string_dec l t) Hin). lia.
  - apply count_occ_not_In. intros Hin.
    assert (existsb (String.eqb t) l = true)
      by (apply existsb_exists; exists t; split; auto; apply String.eqb_refl).
    congruence.
Qed.

(** In a consistent state the objects search counts for a stored document
    whose text has no term twice are the query terms the text has. *)
Lemma matchCount_stored st userId documentId doc query :
  consistent st ->
  lookupDoc st userId documentId = Some doc ->
  NoDup (extractSearchTerms (doc_extractedText doc)) ->
  matchCount st userId documentId (extractSearchTerms query) = queryTermsPresent query doc.
Proof.
  intros [_ _ Hrefs] Hdoc Hnd. unfold matchCount, queryTermsPresent.
  rewrite <- list_sum_indicator. f_equal. apply map_ext. intros term.
  rewrite Hrefs. unfold storedCount. rewrite Hdoc. now apply count_occ_NoDup.
Qed.

Lemma matchCount_pos st userId documentId terms :
  0 < matchCount st userId documentId terms ->
  exists term, 0 < countRefs (entryOf st term) documentId userId.
Proof.
  unfold matchCount. induction terms as [|t terms IH]; simpl; [lia|].
  intros H. destruct (countRefs (entryOf st t) documentId userId) eqn:E.
  - apply IH. lia.
  - exists t. lia.
Qed.

Lemma NoDup_keys_scoreRefs userId refs :
  forall scores,
    NoDup (JsMap.keys scores) ->
    NoDup (JsMap.keys (fold_left (scoreRef userId) refs scores)).
Proof.
  induction refs as [|r refs IH]; intros scores H; simpl; auto.
  apply IH. unfold scoreRef.
  destruct (String.eqb (ref_userId r) userId); auto using NoDup_keys_set.
Qed.

Lemma NoDup_keys_documentScores st userId terms :
  NoDup (JsMap.keys (documentScores st userId terms)).
Proof.
  unfold documentScores.
  assert (H : forall scores, NoDup (JsMap.keys scores) ->
                NoDup (JsMap.keys (fold_left (scoreTerm st userId) terms scores))).
  { induction terms as [|t terms IH]; intros scores Hs; simpl; auto.
    apply IH. unfold scoreTerm. now apply NoDup_keys_scoreRefs. }
  apply H. constructor.
Qed.

Lemma In_get_NoDup {V : Type} (m : JsMap.t V) k v :
  NoDup (JsMap.keys m) -> In (k, v) m -> JsMap.get m k = Some v.
Proof.
  induction m as [|[k' v'] m IH]; simpl; [tauto|].
  intros Hnd Hin. inversion Hnd as [|? ? Hnotin Hnd']; subst.
  destruct Hin as [Heq|Hin].
  - inversion Heq; subst. now rewrite String.eqb_refl.
  - eqb_cases k' k E; auto. subst. exfalso. apply Hnotin.
    unfold JsMap.keys. apply in_map_iff. exists (k, v). auto.
Qed.

(** The score of a result is the score accumulated for its candidate. *)
Lemma result_score_accumulated st query userId options r :
  In r (searchKnowledgeBase query userId options st) ->
  exists documentId doc,
    lookupDoc st userId documentId = Some doc
    /\ r = searchResult doc (res_score r) (extractSearchTerms query)
    /\ JsMap.get (documentScores st userId (extractSearchTerms query)) documentId
       = Some (res_score r).
Proof.
  intros Hr. unfold searchKnowledgeBase in Hr. apply result_origin in Hr.
  destruct Hr as [[documentId score] [doc [Hin [Hget ->]]]]. simpl in *.
  exists documentId, doc. repeat split; auto.
  apply In_get_NoDup; [apply NoDup_keys_documentScores|].
  unfold sortedDocs in Hin. apply slice_In in Hin. now apply sort_In in Hin.
Qed.

(** A candidate of a search is a document the owner has stored. *)
Lemma candidate_is_stored st userId documentId terms :
  consistent st ->
  JsMap.get (documentScores st userId terms) documentId <> None ->
  exists doc, lookupDoc st userId documentId = Some doc
              /\ doc_id doc = documentId /\ doc_userId doc = userId.
Proof.
  intros [[Hkeys _ _] _ Hrefs] Hget.
  rewrite get_documentScores in Hget.
  destruct (matchCount st userId documentId terms) eqn:Em; [now contradiction Hget|].
  destruct (matchCount_pos st userId documentId terms) as [term Hpos]; [lia|].
  rewrite Hrefs in Hpos. unfold storedCount in Hpos.
  destruct (lookupDoc st userId documentId) as [doc|] eqn:El; [|lia].
  exists doc. destruct (Hkeys _ _ _ El). auto.
Qed.

(* ================================================================== *)
(** ** The sample states are states of the service *)

Lemma freshIdb_sound st documentId : freshIdb st documentId = true -> freshId st documentId.
Proof.
  unfold freshIdb, freshId. intros H userId userDocs Hget.
  rewrite forallb_forall in H. apply get_In in Hget. specialize (H _ Hget).
  simpl in H. unfold JsMap.has in H.
  destruct (JsMap.get userDocs documentId); [discriminate|reflexivity].
Qed.

Lemma reachable_ingest name path content userId documentId st :
  reachable st ->
  freshIdb st documentId = true ->
  reachable (Examples.ingest name path content userId documentId st).
Proof.
  intros Hr Hf. unfold Examples.ingest.
  apply reach_process.
  - apply reach_upload. exact Hr.
  - apply freshIdb_sound. exact Hf.
Qed.

Lemma reachable_kbA : reachable Examples.kbA.
Proof. apply reachable_ingest; [apply reach_start | reflexivity]. Qed.

Lemma reachable_kbAB : reachable Examples.kbAB.
Proof. apply reachable_ingest; [apply reachable_kbA | reflexivity]. Qed.

Lemma reachable_kbABC : reachable Examples.kbABC.
Proof. apply reachable_ingest; [apply reachable_kbAB | reflexivity]. Qed.


(* ================================================================== *)
(** * The properties of the specification *)

Import KnowledgeRoutes.

(** C1, as the code has it. In every state the service reaches, for a
    document the owner has stored whose text has no normalized term twice,
    the score search accumulates is the number of terms of the normalized
    query, a repeated one counted each time, that are among the normalized
    terms of the text; the document is no candidate exactly when that
    number is 0. A result returned for the document carries that score.
    When the query repeats no term either, the score is the number of
    distinct query terms present. *)
Theorem C1_score_counts_query_terms_present :
  forall (st : KB), reachable st ->
  forall (query userId documentId : string) (doc : Document),
    lookupDoc st userId documentId = Some doc ->
    NoDup (extractSearchTerms (doc_extractedText doc)) ->
    scoreOf st userId query documentId = Z.of_nat (queryTermsPresent query doc)
    /\ (JsMap.get (documentScores st userId (extractSearchTerms query)) documentId = None
        <-> queryTermsPresent query doc = 0)
    /\ (forall options r,
          In r (searchKnowledgeBase query userId options st) ->
          sum_id (res_document r) = documentId ->
          res_score r = Z.of_nat (queryTermsPresent query doc))
    /\ (NoDup (extractSearchTerms query) ->
        scoreOf st userId query documentId = Z.of_nat (distinctTermsPresent query doc)).
Proof.
  intros st Hreach query userId documentId doc Hdoc Hnd.
  apply reachable_consistent in Hreach.
  pose proof (matchCount_stored st userId documentId doc query Hreach Hdoc Hnd) as Hcount.
  assert (Hscore : scoreOf st userId query documentId = Z.of_nat (queryTermsPresent query doc)).
  { unfold scoreOf. rewrite get_documentScores, Hcount.
    destruct (queryTermsPresent query doc); simpl; lia. }
  split; [exact Hscore|]. split; [|split].
  - rewrite get_documentScores, Hcount.
    destruct (queryTermsPresent query doc); simpl; split; auto; discriminate.
  - intros options r Hr Hid.
    destruct (result_score_accumulated st query userId options r Hr)
      as [d [doc' [Hdoc' [Hshape Hget]]]].
    destruct Hreach as [[Hkeys _ _] _ _].
    destruct (Hkeys userId d doc' Hdoc') as [Hd _].
    assert (Hdd : d = documentId) by (rewrite Hshape in Hid; simpl in Hid; congruence).
    rewrite Hdd in Hget. rewrite <- Hscore. unfold scoreOf. now rewrite Hget.
  - intros Hq. rewrite Hscore. unfold queryTermsPresent, distinctTermsPresent.
    now rewrite (nodup_fixed_point string_dec Hq).
Qed.

(** The witness: "apple banana" is stored as [doc_b]; the query names
    "banana" twice and "apple" once. *)
Lemma C1_witness :
  scoreOf Examples.kbAB "u1" "banana apple banana" "doc_b" = 3%Z.
Proof.
  destruct (C1_score_counts_query_terms_present Examples.kbAB reachable_kbAB
              "banana apple banana" "u1" "doc_b" Examples.docB)
    as [H _].
  - reflexivity.
  - vm_compute. repeat constructor; simpl; intuition discriminate.
  - exact H.
Defined.

(** C1 as stated fails when the query repeats a term: the text of [doc_a]
    is "apple", the query "apple apple" has one distinct term, and the
    score is 2. *)
Lemma C1_counterexample :
  lookupDoc Examples.kbA "u1" "doc_a" = Some Examples.docA
  /\ scoreOf Examples.kbA "u1" "apple apple" "doc_a" = 2%Z
  /\ distinctTermsPresent "apple apple" Examples.docA = 1
  /\ scoreOf Examples.kbA "u1" "apple apple" "doc_a"
     <> Z.of_nat (distinctTermsPresent "apple apple" Examples.docA).
Proof.
  vm_compute. repeat split. discriminate.
Qed.

(** C2 on a document whose text is the word "apple": after the indexing
    step has run once the entry of "apple" holds one object for the
    document, after it has run twice it holds two, and one ingestion of a
    text that repeats the word leaves two as well. *)
Theorem C2_indexing_twice_duplicates :
  List.length (Spec.refsTo (indexDocument Examples.docA emptyKB) "apple" "doc_a") = 1
  /\ List.length
       (Spec.refsTo (indexDocument Examples.docA (indexDocument Examples.docA emptyKB))
                    "apple" "doc_a") = 2
  /\ List.length (Spec.refsTo Examples.kbRepeat "apple" "doc_r") = 2.
Proof.
  vm_compute. repeat split.
Qed.

(** C3. In every state the service reaches and for every query, owner and
    options: every candidate of the search is a document stored under that
    owner and carrying that owner's identifier, every result is built from
    such a document, and a document stored under any other owner is neither
    scored nor returned. *)
Theorem C3_owner_isolation :
  forall (st : KB), reachable st ->
  forall (query userId : string) (options : SearchOptions),
    (forall documentId score,
        In (documentId, score) (documentScores st userId (extractSearchTerms query)) ->
        exists doc, lookupDoc st userId documentId = Some doc /\ doc_userId doc = userId)
    /\ (forall r, In r (searchKnowledgeBase query userId options st) ->
        exists doc,
          lookupDoc st userId (sum_id (res_document r)) = Some doc
          /\ doc_userId doc = userId
          /\ r = searchResult doc (res_score r) (extractSearchTerms query))
    /\ (forall other documentId doc,
          other <> userId ->
          lookupDoc st other documentId = Some doc ->
          JsMap.get (documentScores st userId (extractSearchTerms query)) documentId = None
          /\ ~ In documentId
                (List.map (fun r => sum_id (res_document r))
                          (searchKnowledgeBase query userId options st))).
Proof.
  intros st Hreach query userId options.
  apply reachable_consistent in Hreach. pose proof Hreach as [[Hkeys Huniq _] _ _].
  assert (Hres : forall r, In r (searchKnowledgeBase query userId options st) ->
            exists doc,
              lookupDoc st userId (sum_id (res_document r)) = Some doc
              /\ doc_userId doc = userId
              /\ r = searchResult doc (res_score r) (extractSearchTerms query)).
  { intros r Hr. unfold searchKnowledgeBase in Hr. apply result_origin in Hr.
    destruct Hr as [[documentId score] [doc [_ [Hget ->]]]]. simpl in *.
    destruct (Hkeys userId documentId doc Hget) as [Hid Hu].
    exists doc. rewrite Hid. auto. }
  split; [|split].
  - intros documentId score Hin. apply In_get_not_None in Hin.
    destruct (candidate_is_stored st userId documentId _ Hreach Hin) as [doc [H1 [_ H2]]].
    eauto.
  - exact Hres.
  - intros other documentId doc Hother Hdoc. split.
    + destruct (JsMap.get (documentScores st userId (extractSearchTerms query)) documentId)
        eqn:Eg; auto.
      exfalso. apply Hother. symmetry.
      destruct (candidate_is_stored st userId documentId (extractSearchTerms query) Hreach)
        as [doc' [H1 _]]; [congruence|].
      apply (Huniq userId other documentId); congruence.
    + intros Hin. apply in_map_iff in Hin. destruct Hin as [r [Hid Hr]].
      destruct (Hres r Hr) as [doc' [H1 _]]. rewrite Hid in H1.
      apply Hother. symmetry. apply (Huniq userId other documentId); congruence.
Qed.

(** The witness: [doc_c] of owner [u2] has both words of the query of
    owner [u1]. *)
Lemma C3_witness :
  lookupDoc Examples.kbABC "u2" "doc_c" <> None
  /\ JsMap.get (documentScores Examples.kbABC "u1" (extractSearchTerms "apple cherry")) "doc_c"
     = None
  /\ ~ In "doc_c"
        (List.map (fun r => sum_id (res_document r))
                  (searchKnowledgeBase "apple cherry" "u1" noOptions Examples.kbABC)).
Proof.
  split; [vm_compute; discriminate|].
  destruct (C3_owner_isolation Examples.kbABC reachable_kbABC "apple cherry" "u1" noOptions)
    as [_ [_ H]].
  apply (H "u2" "doc_c" Examples.docC).
  - discriminate.
  - reflexivity.
Defined.



(** C5. In every state the service reaches: every normalized term of the
    text of a stored document has an index entry holding an object with
    the document's identifier and owner, and every object of the index
    belongs to a stored document that has the term; when [processDocument]
    returns a document, the document is stored and its terms are indexed
    in this way; when [deleteDocument] reports a deletion, no entry of the
    index holds an object with that identifier and no entry is empty. *)
Theorem C5_index_follows_documents :
  forall (st : KB), reachable st ->
    (forall userId documentId doc term,
        lookupDoc st userId documentId = Some doc ->
        In term (extractSearchTerms (doc_extractedText doc)) ->
        exists docSet ref,
          JsMap.get (documentIndex st) term = Some docSet
          /\ In ref docSet
          /\ ref_documentId ref = documentId
          /\ ref_userId ref = userId)
    /\ (forall term docSet ref,
          JsMap.get (documentIndex st) term = Some docSet ->
          In ref docSet ->
          exists doc,
            lookupDoc st (ref_userId ref) (ref_documentId ref) = Some doc
            /\ In term (extractSearchTerms (doc_extractedText doc)))
    /\ (forall options env document st',
        processDocument options env st = (Returned document, st') ->
        lookupDoc st' (doc_userId document) (doc_id document) = Some document
        /\ forall term,
             In term (extractSearchTerms (doc_extractedText document)) ->
             exists docSet ref,
               JsMap.get (documentIndex st') term = Some docSet
               /\ In ref docSet
               /\ ref_documentId ref = doc_id document
               /\ ref_userId ref = doc_userId document)
    /\ (forall documentId userId deletedAt deleted st',
          deleteDocument documentId userId deletedAt st = (Deleted deleted deletedAt, st') ->
          forall term docSet,
            In (term, docSet) (documentIndex st') ->
            docSet <> []
            /\ forall ref, In ref docSet -> ref_documentId ref <> documentId).
Proof.
  intros st Hreach. apply reachable_consistent in Hreach.
  destruct Hreach as [_ Hindex Hrefs]. split; [|split; [|split]].
  - intros userId documentId doc term Hdoc Hterm.
    destruct (countRefs_pos_In (entryOf st term) documentId userId) as [Hex _].
    destruct Hex as [ref [Hin [H1 H2]]].
    { rewrite Hrefs. unfold storedCount. rewrite Hdoc.
      now apply (count_occ_In string_dec). }
    unfold entryOf in Hin.
    destruct (JsMap.get (documentIndex st) term) as [docSet|]; [|contradiction].
    exists docSet, ref. auto.
  - intros term docSet ref Hget Hin.
    assert (Hpos : 0 < countRefs (entryOf st term) (ref_documentId ref) (ref_userId ref)).
    { apply countRefs_pos_In. exists ref. unfold entryOf. rewrite Hget. auto. }
    rewrite Hrefs in Hpos. unfold storedCount in Hpos.
    destruct (lookupDoc st (ref_userId ref) (ref_documentId ref)) as [doc|]; [|lia].
    exists doc. split; auto. now apply (count_occ_In string_dec).
  - intros options env document st'. unfold processDocument.
    destruct (extractText env (files st) (po_file options)) as [text|e]; [|discriminate].
    intros [= <- <-].
    set (document := newDocument options env text).
    split.
    + unfold indexDocument, lookupDoc, userDocsOf. rewrite documents_indexTerms.
      fold (userDocsOf (saveDocument document st) (doc_userId document)).
      fold (lookupDoc (saveDocument document st) (doc_userId document) (doc_id document)).
      rewrite lookup_saveDocument. now rewrite !String.eqb_refl.
    + intros term Hterm.
      assert (Hindex0 : indexOk (saveDocument document st)).
      { destruct Hindex as [H1 H2]. constructor; assumption. }
      destruct (indexTerms_counts document (extractSearchTerms (doc_extractedText document))
                  (saveDocument document st)
                  (fun u d t => countRefs (entryOf (saveDocument document st) t) d u)
                  Hindex0) as [_ Hm].
      { intros t d u. reflexivity. }
      specialize (Hm term (doc_id document) (doc_userId document)).
      cbv beta in Hm. rewrite !String.eqb_refl in Hm. simpl andb in Hm. cbv iota in Hm.
      apply (count_occ_In string_dec) in Hterm.
      destruct (countRefs_pos_In
                  (entryOf (indexDocument document (saveDocument document st)) term)
                  (doc_id document) (doc_userId document)) as [Hex _].
      destruct Hex as [ref [Hin [H1 H2]]].
      { unfold indexDocument. lia. }
      unfold entryOf in Hin.
      destruct (JsMap.get (documentIndex (indexDocument document (saveDocument document st)))
                          term) as [docSet|]; [|contradiction].
      exists docSet, ref. auto.
  - intros documentId userId deletedAt deleted st'. unfold deleteDocument.
    destruct (JsMap.get (userDocsOf st userId) documentId) as [document|]; [|discriminate].
    intros [= _ <-] term docSet Hin. cbn in Hin.
    apply removeFromEntries_In in Hin. destruct Hin as [Hne [old [_ ->]]].
    split; auto. intros ref. apply removeFromSet_clean.
Qed.

(** The witness: the ingestion of [doc_c] and the deletion of [doc_a]. *)
Lemma C5_witness :
  (exists docSet ref,
      JsMap.get (documentIndex Examples.kbABC) "cherry" = Some docSet
      /\ In ref docSet /\ ref_documentId ref = "doc_c" /\ ref_userId ref = "u2")
  /\ In ("apple", [Examples.refB]) (documentIndex Examples.kbB)
  /\ [Examples.refB] <> []
  /\ ref_documentId Examples.refB <> "doc_a".
Proof.
  split.
  - destruct (C5_index_follows_documents
                (Examples.upload "/uploads/3_c.txt" "apple cherry" Examples.kbAB)
                (reach_upload _ _ _ reachable_kbAB)) as [_ [_ [H _]]].
    destruct (H (Examples.optionsFor "c.txt" "/uploads/3_c.txt" "u2") (Examples.envFor "doc_c")
                Examples.docC Examples.kbABC) as [_ H'].
    + reflexivity.
    + apply (H' "cherry"). vm_compute. auto.
  - assert (Hin : In ("apple", [Examples.refB]) (documentIndex Examples.kbB))
      by (vm_compute; left; reflexivity).
    destruct (C5_index_follows_documents Examples.kbAB reachable_kbAB) as [_ [_ [_ H]]].
    destruct (H "doc_a" "u1" "2024-01-02T00:00:00.000Z" "doc_a" Examples.kbB
                eq_refl "apple" [Examples.refB] Hin) as [Hne Hclean].
    clear H.
    split; [exact Hin|]. split; [exact Hne|].
    exact (Hclean Examples.refB (or_introl eq_refl)).
Defined.

(** C6. [deleteDocument] answers "not found" whenever the owner's map has
    no document under the identifier, whatever other owners hold under it,
    and then hands back the state it was given: documents, index and files
    unchanged. It answers with a deletion only when the owner has the
    document. *)
Theorem C6_delete_not_found_changes_nothing :
  forall (st : KB) (documentId userId deletedAt : string),
    (JsMap.get (userDocsOf st userId) documentId = None ->
     deleteDocument documentId userId deletedAt st
     = (DeleteFailed "Document not found", st))
    /\ (forall document,
          JsMap.get (userDocsOf st userId) documentId = Some document ->
          fst (deleteDocument documentId userId deletedAt st)
          = Deleted documentId deletedAt).
Proof.
  intros st documentId userId deletedAt. unfold deleteDocument. split.
  - intros H. now rewrite H.
  - intros document H. now rewrite H.
Qed.

(** The witness: owner [u1] asks to delete [doc_c], which exists, but
    under owner [u2]. *)
Lemma C6_witness :
  JsMap.get (userDocsOf Examples.kbABC "u2") "doc_c" <> None
  /\ deleteDocument "doc_c" "u1" "2024-01-02T00:00:00.000Z" Examples.kbABC
     = (DeleteFailed "Document not found", Examples.kbABC).
Proof.
  split.
  - vm_compute. discriminate.
  - apply (C6_delete_not_found_changes_nothing Examples.kbABC "doc_c" "u1").
    reflexivity.
Defined.

(** C7, as the code has it. The candidates are in non-increasing order of
    score and so are the results, for every call; for a limit that is an
    integer and not negative (the default 10 included) at most that many
    candidates are taken, and no more results than candidates come out. *)
Theorem C7_ranking_order :
  forall (st : KB) (query userId : string) (options : SearchOptions),
    let candidates := sortedDocs st userId (extractSearchTerms query) options in
    let results := searchKnowledgeBase query userId options st in
    StronglySorted (Spec.descBy snd) candidates
    /\ Spec.nonIncreasing (List.map res_score results)
    /\ List.length results <= List.length candidates
    /\ (forall limit, limitOf options = JsNum.Num limit -> (0 <= limit)%Z ->
        (Z.of_nat (List.length candidates) <= limit)%Z)
    /\ (so_limit options = None -> List.length candidates <= 10).
Proof.
  intros st query userId options candidates results.
  assert (Hsorted : StronglySorted (Spec.descBy snd) candidates).
  { unfold candidates, sortedDocs. apply slice_sorted. apply (sort_desc snd). }
  assert (Hlimit : forall limit, limitOf options = JsNum.Num limit -> (0 <= limit)%Z ->
                                 (Z.of_nat (List.length candidates) <= limit)%Z).
  { intros limit Hl Hpos. unfold candidates, sortedDocs. rewrite Hl. simpl.
    rewrite slice_from_0 by assumption.
    pose proof (firstn_le_length (Z.to_nat limit)
                  (JsArray.sort byScoreDesc
                     (documentScores st userId (extractSearchTerms query)))).
    lia. }
  repeat split; auto.
  - apply results_sorted. exact Hsorted.
  - apply results_length.
  - intros Hnone.
    assert (H10 : limitOf options = JsNum.Num 10) by (unfold limitOf; now rewrite Hnone).
    specialize (Hlimit 10%Z H10). lia.
Qed.

(** The witness: two candidates and a limit of 1. *)
Lemma C7_witness :
  StronglySorted (Spec.descBy snd)
    (sortedDocs Examples.kbAB "u1" (extractSearchTerms "apple banana")
                (Examples.limitOptions 1))
  /\ Spec.nonIncreasing
       (List.map res_score
          (searchKnowledgeBase "apple banana" "u1" (Examples.limitOptions 1) Examples.kbAB))
  /\ (Z.of_nat (List.length
                  (sortedDocs Examples.kbAB "u1" (extractSearchTerms "apple banana")
                              (Examples.limitOptions 1))) <= 1)%Z.
Proof.
  destruct (C7_ranking_order Examples.kbAB "apple banana" "u1" (Examples.limitOptions 1))
    as [H1 [H2 [_ [H3 _]]]].
  repeat split; auto.
  apply (H3 1%Z); [reflexivity | lia].
Defined.

(** C7 as stated fails for a negative limit: [slice(0, -1)] drops the last
    candidate only, so of two candidates one is taken, which is more than
    -1. *)
Lemma C7_counterexample :
  List.map fst (sortedDocs Examples.kbAB "u1" (extractSearchTerms "apple")
                           (Examples.limitOptions (-1)))
  = ["doc_a"]
  /\ ~ (Z.of_nat (List.length
                    (sortedDocs Examples.kbAB "u1" (extractSearchTerms "apple")
                                (Examples.limitOptions (-1))))
        <= JsNum.toInteger (limitOf (Examples.limitOptions (-1))))%Z.
Proof.
  vm_compute. split; [reflexivity|]. intros H. apply H. reflexivity.
Qed.

(** C8, as the code has it. For a text with a character that is not
    white space, split into [n] words with [n] at most the window size and
    at most the stride [chunkSize - overlap], the chunker returns, on any
    fuel from 2 on, exactly one chunk: all the words joined by single
    spaces, starting at word 0, [n] words long. *)
Theorem C8_short_text_single_chunk :
  forall (text : string) (chunkSize overlap : Z) (fuel : nat),
    let words := JsString.split text in
    let n := Z.of_nat (List.length words) in
    Spec.hasNonSpace text = true ->
    (n <= chunkSize)%Z ->
    (n <= chunkSize - overlap)%Z ->
    2 <= fuel ->
    chunkText fuel text chunkSize overlap
    = Some [ {| chunk_text := JsString.join " " words;
                chunk_startIndex := 0;
                chunk_wordCount := n |} ].
Proof.
  intros text chunkSize overlap fuel words n Hns Hsize Hstep Hfuel.
  assert (Hn : (0 < n)%Z).
  { unfold n, words. pose proof (split_not_nil text).
    destruct (JsString.split text); [contradiction|simpl; lia]. }
  destruct fuel as [|[|fuel]]; try lia.
  unfold chunkText. fold words. cbn [chunkLoop]. fold n.
  replace (0 <? n)%Z with true by (symmetry; apply Z.ltb_lt; lia).
  replace (0 + (chunkSize - overlap) <? n)%Z with false by (symmetry; apply Z.ltb_ge; lia).
  rewrite slice_all by (fold n; lia).
  unfold words at 1. rewrite truthy_trim, hasNonSpace_join_split, Hns.
  simpl. unfold mkChunk. fold n. f_equal. f_equal. f_equal. lia.
Qed.

(** The witness: four words, a window of 5 and an overlap of 1. *)
Lemma C8_witness :
  chunkText 2 "apple banana apple cherry" 5 1
  = Some [ {| chunk_text := "apple banana apple cherry";
              chunk_startIndex := 0;
              chunk_wordCount := 4 |} ].
Proof.
  apply (C8_short_text_single_chunk "apple banana apple cherry" 5 1 2);
    [reflexivity | simpl; lia | simpl; lia | lia].
Defined.

(** C8 as stated fails when the stride is shorter than the text: three
    words, a window of 4 and an overlap of 2 give a second chunk starting
    at word 2. *)
Lemma C8_counterexample :
  Spec.hasNonSpace "a b c" = true
  /\ (Z.of_nat (List.length (JsString.split "a b c")) < 4)%Z
  /\ chunkText 3 "a b c" 4 2
     = Some [ {| chunk_text := "a b c"; chunk_startIndex := 0; chunk_wordCount := 3 |};
              {| chunk_text := "c"; chunk_startIndex := 2; chunk_wordCount := 1 |} ].
Proof.
  repeat split.
Qed.

(** C9 on a stored text document: the entry of the list view has no
    [extractedText], and no [mimeType] either, although the document
    stored has one; the ten properties it has are the ones of the literal. *)
Theorem C9_list_entry_lacks_mimeType :
  JsMap.get (userDocsOf Examples.kbA "u1") "doc_a" = Some Examples.docA
  /\ doc_mimeType Examples.docA = "text/plain"
  /\ List.map (fun entry => (List.map fst entry,
                             hasOwn entry "extractedText",
                             hasOwn entry "mimeType",
                             prop entry "mimeType"))
              (getDocuments "u1" noListOptions Examples.kbA)
     = [ (["id"; "title"; "description"; "category"; "fileName"; "fileSize";
           "wordCount"; "status"; "createdAt"; "updatedAt"],
          false, false, VUndefined) ].
Proof.
  vm_compute. repeat split.
Qed.

(** C10. For an owner the document map does not know, and equally for an
    owner whose map is empty, the search and the listing both return the
    empty sequence, whatever the query, the options and the index hold. *)
Theorem C10_unknown_owner_gets_empty_results :
  forall (st : KB) (userId : string),
    JsMap.get (documents st) userId = None \/ JsMap.get (documents st) userId = Some [] ->
    forall (query : string) (options : SearchOptions) (listOptions : ListOptions),
      searchKnowledgeBase query userId options st = []
      /\ getDocuments userId listOptions st = [].
Proof.
  intros st userId H query options listOptions.
  apply userDocsOf_empty in H. split.
  - unfold searchKnowledgeBase. rewrite H. apply no_docs_no_results.
  - unfold getDocuments. rewrite H.
    destruct (lo_category listOptions) as [c|]; [destruct (JsString.truthy c)|];
      simpl; rewrite slice_nil; reflexivity.
Qed.

(** The witness: [u3] never ingested anything while [u1] and [u2] did, and
    the index has entries for the word searched. *)
Lemma C10_witness :
  searchKnowledgeBase "apple" "u3" noOptions Examples.kbABC = []
  /\ getDocuments "u3" noListOptions Examples.kbABC = [].
Proof.
  apply (C10_unknown_owner_gets_empty_results Examples.kbABC "u3").
  left. reflexivity.
Defined.

(* ================================================================== *)
(** * Further properties of the service *)

(* ================================================================== *)
(** ** The chunker *)

Lemma chunkLoop_never_returns words chunkSize overlap :
  (chunkSize - overlap <= 0)%Z ->
  words <> [] ->
  forall fuel i, (i <= 0)%Z -> chunkLoop fuel words chunkSize overlap i = None.
Proof.
  intros Hstep Hne. induction fuel as [|fuel IH]; intros i Hi; [reflexivity|].
  simpl.
  assert (Hlen : (0 < Z.of_nat (List.length words))%Z)
    by (destruct words; [contradiction|simpl; lia]).
  replace (i <? Z.of_nat (List.length words))%Z with true
    by (symmetry; apply Z.ltb_lt; lia).
  rewrite IH by lia. now destruct (JsString.truthy _).
Qed.

(** [slice(i, i + chunkSize)] inside the array: the next [chunkSize]
    words, as many as are left. *)
Lemma slice_window {A : Type} (l : list A) (i size : Z) :
  (0 <= i < Z.of_nat (List.length l))%Z ->
  (0 <= size)%Z ->
  JsArray.slice l i (i + size) = firstn (Z.to_nat size) (skipn (Z.to_nat i) l)
  /\ Z.of_nat (List.length (JsArray.slice l i (i + size)))
     = Z.min size (Z.of_nat (List.length l) - i).
Proof.
  intros Hi Hsize. unfold JsArray.slice.
  replace (i <? 0)%Z with false by (symmetry; apply Z.ltb_ge; lia).
  replace (i + size <? 0)%Z with false by (symmetry; apply Z.ltb_ge; lia).
  rewrite (Z.min_l i) by lia.
  assert (Hskip : List.length (skipn (Z.to_nat i) l) = List.length l - Z.to_nat i)
    by apply length_skipn.
  assert (E : firstn (Z.to_nat (Z.min (i + size) (Z.of_nat (List.length l)) - i))
                     (skipn (Z.to_nat i) l)
              = firstn (Z.to_nat size) (skipn (Z.to_nat i) l)).
  { destruct (Z.le_ge_cases (i + size) (Z.of_nat (List.length l))).
    - rewrite Z.min_l by lia. f_equal. lia.
    - rewrite Z.min_r by lia. rewrite !firstn_all2; auto; lia. }
  rewrite E. split; auto.
  rewrite length_firstn, Hskip. lia.
Qed.

Lemma hasNonSpace_app a b :
  hasNonSpace (a ++ b) = hasNonSpace a || hasNonSpace b.
Proof.
  induction a as [|c a IH]; simpl; auto. rewrite IH. now rewrite orb_assoc.
Qed.

Lemma hasNonSpace_join_In l w :
  In w l -> hasNonSpace w = true -> hasNonSpace (JsString.join " " l) = true.
Proof.
  unfold JsString.join. induction l as [|x l IH]; [contradiction|].
  intros Hin Hw. destruct l as [|y l].
  - destruct Hin as [->|[]]. exact Hw.
  - change (concat " " (x :: y :: l)) with (x ++ " " ++ concat " " (y :: l))%string.
    rewrite !hasNonSpace_app. destruct Hin as [->|Hin].
    + now rewrite Hw.
    + rewrite (IH Hin Hw). now rewrite !orb_true_r.
Qed.

(** The pieces of a split hold no white space. *)
Lemma split_pieces_no_space s :
  Forall (fun piece => allChars (fun c => negb (JsString.isWhiteSpace c)) piece = true)
         (JsString.split s).
Proof.
  induction s as [|c s IH]; simpl.
  - repeat constructor.
  - destruct (JsString.isWhiteSpace c) eqn:Ew.
    + destruct (JsString.startsWithSpace s); auto.
    + destruct (JsString.split s) as [|p ps]; inversion IH; subst;
        constructor; simpl; auto; rewrite Ew; auto.
Qed.

Lemma no_space_hasNonSpace piece :
  allChars (fun c => negb (JsString.isWhiteSpace c)) piece = true ->
  piece <> EmptyString ->
  hasNonSpace piece = true.
Proof.
  destruct piece as [|c p]; [contradiction|]. simpl.
  intros H _. apply andb_true_iff in H. destruct H as [H _]. now rewrite H.
Qed.

(** What the loop keeps true from index [i] on, for a window of at least
    one word and a positive stride. *)
Lemma chunkLoop_chunks words chunkSize overlap :
  (0 < chunkSize)%Z ->
  (0 < chunkSize - overlap)%Z ->
  forall fuel i chunks,
    (0 <= i)%Z ->
    chunkLoop fuel words chunkSize overlap i = Some chunks ->
    Forall (fun chunk =>
              (i <= chunk_startIndex chunk < Z.of_nat (List.length words))%Z
              /\ (exists k, (0 <= k)%Z
                            /\ chunk_startIndex chunk = (i + k * (chunkSize - overlap))%Z)
              /\ chunk_text chunk
                 = JsString.join " "
                     (firstn (Z.to_nat (chunk_wordCount chunk))
                             (skipn (Z.to_nat (chunk_startIndex chunk)) words))
              /\ (1 <= chunk_wordCount chunk <= chunkSize)%Z
              /\ (chunk_startIndex chunk + chunk_wordCount chunk
                  <= Z.of_nat (List.length words))%Z
              /\ hasNonSpace (chunk_text chunk) = true)
           chunks
    /\ StronglySorted (fun a b => (chunk_startIndex a < chunk_startIndex b)%Z) chunks.
Proof.
  intros Hsize Hstep. induction fuel as [|fuel IH]; intros i chunks Hi H; [discriminate|].
  simpl in H.
  destruct (i <? Z.of_nat (List.length words))%Z eqn:Ei.
  2:{ inversion H; subst. split; constructor. }
  apply Z.ltb_lt in Ei.
  destruct (chunkLoop fuel words chunkSize overlap (i + (chunkSize - overlap)))
    as [rest|] eqn:Er.
  2:{ destruct (JsString.truthy _); discriminate. }
  assert (Hi' : (0 <= i + (chunkSize - overlap))%Z) by lia.
  destruct (IH _ _ Hi' Er) as [Hall Hsorted].
  assert (Hall' : Forall (fun chunk =>
              (i <= chunk_startIndex chunk < Z.of_nat (List.length words))%Z
              /\ (exists k, (0 <= k)%Z
                            /\ chunk_startIndex chunk = (i + k * (chunkSize - overlap))%Z)
              /\ chunk_text chunk
                 = JsString.join " "
                     (firstn (Z.to_nat (chunk_wordCount chunk))
                             (skipn (Z.to_nat (chunk_startIndex chunk)) words))
              /\ (1 <= chunk_wordCount chunk <= chunkSize)%Z
              /\ (chunk_startIndex chunk + chunk_wordCount chunk
                  <= Z.of_nat (List.length words))%Z
              /\ hasNonSpace (chunk_text chunk) = true) rest).
  { eapply Forall_impl; [|exact Hall]. simpl.
    intros c [H1 [[k [Hk1 Hk2]] H3]]. split; [lia|]. split; auto.
    exists (k + 1)%Z. split; lia. }
  destruct (JsString.truthy (JsString.trim
              (JsString.join " " (JsArray.slice words i (i + chunkSize))))) eqn:Et.
  2:{ inversion H; subst. auto. }
  simpl in H. inversion H; subst. split.
  - constructor; auto.
    destruct (slice_window words i chunkSize ltac:(lia) ltac:(lia)) as [Hs Hl].
    unfold mkChunk. simpl.
    split; [lia|]. split; [exists 0%Z; lia|].
    split.
    { rewrite Hs. f_equal.
      destruct (Z.le_ge_cases chunkSize (Z.of_nat (List.length words) - i)).
      - now rewrite Z.min_l by lia.
      - rewrite Z.min_r by lia. rewrite !firstn_all2; auto; rewrite length_skipn; lia. }
    split; [lia|]. split; [lia|].
    now rewrite <- truthy_trim.
  - constructor; auto.
    eapply Forall_impl; [|exact Hall]. simpl. intros c [H1 _]. lia.
Qed.

Lemma chunkLoop_covers words chunkSize overlap :
  (0 <= overlap < chunkSize)%Z ->
  Forall (fun piece => allChars (fun c => negb (JsString.isWhiteSpace c)) piece = true) words ->
  forall fuel i chunks,
    (0 <= i)%Z ->
    chunkLoop fuel words chunkSize overlap i = Some chunks ->
    forall j word,
      (i <= j)%Z ->
      wordAt words j = Some word ->
      word <> EmptyString ->
      exists chunk, In chunk chunks /\ covers chunk j.
Proof.
  intros Hov Hwords. induction fuel as [|fuel IH]; intros i chunks Hi H j word Hj Hw Hne;
    [discriminate|].
  simpl in H.
  assert (Hjlen : (0 <= j < Z.of_nat (List.length words))%Z).
  { unfold wordAt in Hw. destruct (j <? 0)%Z eqn:E; [discriminate|].
    apply Z.ltb_ge in E. split; auto.
    assert (Z.to_nat j < List.length words) by (apply nth_error_Some; congruence). lia. }
  replace (i <? Z.of_nat (List.length words))%Z with true in H
    by (symmetry; apply Z.ltb_lt; lia).
  destruct (chunkLoop fuel words chunkSize overlap (i + (chunkSize - overlap)))
    as [rest|] eqn:Er.
  2:{ destruct (JsString.truthy _); discriminate. }
  destruct (Z.lt_ge_cases j (i + chunkSize)) as [Hin|Hout].
  - (* the word is in the window at [i], which is therefore not blank *)
    destruct (slice_window words i chunkSize ltac:(lia) ltac:(lia)) as [Hs Hl].
    assert (Hmem : In word (JsArray.slice words i (i + chunkSize))).
    { rewrite Hs. apply (nth_error_In _ (Z.to_nat (j - i))).
      rewrite nth_error_firstn.
      replace (Z.to_nat (j - i) <? Z.to_nat chunkSize) with true
        by (symmetry; apply Nat.ltb_lt; lia).
      rewrite nth_error_skipn.
      replace (Z.to_nat i + Z.to_nat (j - i)) with (Z.to_nat j) by lia.
      unfold wordAt in Hw. destruct (j <? 0)%Z; [discriminate|exact Hw]. }
    assert (Hword : hasNonSpace word = true).
    { apply no_space_hasNonSpace; auto.
      rewrite Forall_forall in Hwords. apply Hwords.
      unfold wordAt in Hw. destruct (j <? 0)%Z; [discriminate|].
      eapply nth_error_In; eauto. }
    rewrite truthy_trim, (hasNonSpace_join_In _ word Hmem Hword) in H.
    simpl in H. inversion H; subst.
    eexists. split; [left; reflexivity|].
    unfold covers, mkChunk. simpl. lia.
  - assert (Hi' : (0 <= i + (chunkSize - overlap))%Z) by lia.
    assert (Hj' : (i + (chunkSize - overlap) <= j)%Z) by lia.
    destruct (IH _ _ Hi' Er j word Hj' Hw Hne) as [c [Hc Hcov]].
    exists c. split; auto.
    destruct (JsString.truthy _); inversion H; subst; simpl; auto.
Qed.

(** X1. The chunker returns exactly when the stride [chunkSize - overlap]
    is positive: then one step more than there are words is enough fuel
    and more fuel changes nothing; for a stride of 0 or less the loop
    never ends, whatever the text. *)
Theorem X1_chunker_returns_iff_stride_positive :
  forall (text : string) (chunkSize overlap : Z),
    ((0 < chunkSize - overlap)%Z ->
     exists chunks,
       forall fuel, S (List.length (JsString.split text)) <= fuel ->
                    chunkText fuel text chunkSize overlap = Some chunks)
    /\ ((chunkSize - overlap <= 0)%Z ->
        forall fuel, chunkText fuel text chunkSize overlap = None).
Proof.
  intros text chunkSize overlap. split.
  - intros Hstep.
    destruct (chunkText (S (List.length (JsString.split text))) text chunkSize overlap)
      as [chunks|] eqn:E.
    + exists chunks. intros fuel Hfuel. unfold chunkText in *.
      eapply chunkLoop_more_fuel; eauto.
    + exfalso. revert E. unfold chunkText. apply chunkLoop_returns; auto. lia.
  - intros Hstep fuel. unfold chunkText.
    apply chunkLoop_never_returns; auto; [apply split_not_nil | lia].
Qed.

Lemma X1_witness :
  (exists chunks, forall fuel, 5 <= fuel -> chunkText fuel "a b c d" 2 1 = Some chunks)
  /\ chunkText 1000 "a b c d" 2 2 = None.
Proof.
  destruct (X1_chunker_returns_iff_stride_positive "a b c d" 2 1) as [H _].
  destruct (X1_chunker_returns_iff_stride_positive "a b c d" 2 2) as [_ H'].
  split.
  - apply H. lia.
  - apply H'. lia.
Defined.

(** X2. For a window of at least one word and a positive stride, every
    chunk returned starts at a multiple of the stride inside the text,
    holds the words from there on joined by single spaces, counts them
    (between 1 and the window size, never past the end of the text) and
    is not blank; the chunks come in strictly increasing order of start. *)
Theorem X2_chunks_well_formed :
  forall (fuel : nat) (text : string) (chunkSize overlap : Z) (chunks : list TextChunk),
    (0 < chunkSize)%Z ->
    (0 < chunkSize - overlap)%Z ->
    chunkText fuel text chunkSize overlap = Some chunks ->
    Forall (fun chunk =>
              (exists k, (0 <= k)%Z /\ chunk_startIndex chunk = (k * (chunkSize - overlap))%Z)
              /\ (0 <= chunk_startIndex chunk < Z.of_nat (List.length (JsString.split text)))%Z
              /\ chunk_text chunk
                 = JsString.join " "
                     (firstn (Z.to_nat (chunk_wordCount chunk))
                             (skipn (Z.to_nat (chunk_startIndex chunk)) (JsString.split text)))
              /\ (1 <= chunk_wordCount chunk <= chunkSize)%Z
              /\ (chunk_startIndex chunk + chunk_wordCount chunk
                  <= Z.of_nat (List.length (JsString.split text)))%Z
              /\ hasNonSpace (chunk_text chunk) = true)
           chunks
    /\ StronglySorted (fun a b => (chunk_startIndex a < chunk_startIndex b)%Z) chunks.
Proof.
  intros fuel text chunkSize overlap chunks Hsize Hstep H.
  destruct (chunkLoop_chunks (JsString.split text) chunkSize overlap Hsize Hstep
              fuel 0%Z chunks ltac:(lia) H) as [Hall Hsorted].
  split; auto.
  eapply Forall_impl; [|exact Hall]. simpl.
  intros c [H1 [[k [Hk1 Hk2]] H3]]. split; [exists k; split; auto; lia|].
  split; [lia|]. exact H3.
Qed.

Lemma X2_witness :
  Forall (fun chunk =>
            (exists k, (0 <= k)%Z /\ chunk_startIndex chunk = (k * (3 - 1))%Z)
            /\ (0 <= chunk_startIndex chunk
                < Z.of_nat (List.length (JsString.split "a b  c d e")))%Z
            /\ chunk_text chunk
               = JsString.join " "
                   (firstn (Z.to_nat (chunk_wordCount chunk))
                           (skipn (Z.to_nat (chunk_startIndex chunk))
                                  (JsString.split "a b  c d e")))
            /\ (1 <= chunk_wordCount chunk <= 3)%Z
            /\ (chunk_startIndex chunk + chunk_wordCount chunk
                <= Z.of_nat (List.length (JsString.split "a b  c d e")))%Z
            /\ hasNonSpace (chunk_text chunk) = true)
         [ {| chunk_text := "a b c"; chunk_startIndex := 0; chunk_wordCount := 3 |};
           {| chunk_text := "c d e"; chunk_startIndex := 2; chunk_wordCount := 3 |};
           {| chunk_text := "e"; chunk_startIndex := 4; chunk_wordCount := 1 |} ].
Proof.
  destruct (X2_chunks_well_formed 6 "a b  c d e" 3 1
              [ {| chunk_text := "a b c"; chunk_startIndex := 0; chunk_wordCount := 3 |};
                {| chunk_text := "c d e"; chunk_startIndex := 2; chunk_wordCount := 3 |};
                {| chunk_text := "e"; chunk_startIndex := 4; chunk_wordCount := 1 |} ])
    as [H _]; [lia | lia | reflexivity | exact H].
Defined.

(** X3. Chunk coverage: for an overlap that is not negative and smaller
    than the window, every non-empty word of the text lies in the word
    range of at least one chunk returned. *)
Theorem X3_chunks_cover_every_word :
  forall (fuel : nat) (text : string) (chunkSize overlap : Z) (chunks : list TextChunk),
    (0 <= overlap < chunkSize)%Z ->
    chunkText fuel text chunkSize overlap = Some chunks ->
    forall (j : Z) (word : string),
      wordAt (JsString.split text) j = Some word ->
      word <> EmptyString ->
      exists chunk, In chunk chunks /\ covers chunk j.
Proof.
  intros fuel text chunkSize overlap chunks Hov H j word Hw Hne.
  apply (chunkLoop_covers (JsString.split text) chunkSize overlap Hov
           (split_pieces_no_space text) fuel 0%Z chunks ltac:(lia) H j word); auto.
  unfold wordAt in Hw. destruct (j <? 0)%Z eqn:E; [discriminate|].
  now apply Z.ltb_ge in E.
Qed.

Lemma X3_witness :
  exists chunk,
    In chunk [ {| chunk_text := "a b c"; chunk_startIndex := 0; chunk_wordCount := 3 |};
               {| chunk_text := "c d e"; chunk_startIndex := 2; chunk_wordCount := 3 |};
               {| chunk_text := "e"; chunk_startIndex := 4; chunk_wordCount := 1 |} ]
    /\ covers chunk 3.
Proof.
  apply (X3_chunks_cover_every_word 6 "a b  c d e" 3 1
           [ {| chunk_text := "a b c"; chunk_startIndex := 0; chunk_wordCount := 3 |};
             {| chunk_text := "c d e"; chunk_startIndex := 2; chunk_wordCount := 3 |};
             {| chunk_text := "e"; chunk_startIndex := 4; chunk_wordCount := 1 |} ]
           ltac:(lia) eq_refl 3%Z "d"); [reflexivity | discriminate].
Defined.

(* ================================================================== *)
(** ** The tokenizer *)

Lemma allChars_impl (p q : ascii -> bool) s :
  (forall c, p c = true -> q c = true) -> allChars p s = true -> allChars q s = true.
Proof.
  intros Hpq. induction s as [|c s IH]; simpl; auto.
  intros H. apply andb_true_iff in H. destruct H as [Hc Hs].
  now rewrite (Hpq c Hc), (IH Hs).
Qed.

Lemma allChars_and (p q : ascii -> bool) s :
  allChars p s = true -> allChars q s = true -> allChars (fun c => p c && q c) s = true.
Proof.
  induction s as [|c s IH]; simpl; auto.
  intros H1 H2. apply andb_true_iff in H1, H2. destruct H1 as [H1 H1'], H2 as [H2 H2'].
  now rewrite H1, H2, (IH H1' H2').
Qed.

Lemma allChars_map_id (f : ascii -> ascii) (p : ascii -> bool) s :
  (forall c, p c = true -> f c = c) -> allChars p s = true -> JsString.map f s = s.
Proof.
  intros Hf. induction s as [|c s IH]; simpl; auto.
  intros H. apply andb_true_iff in H. destruct H as [Hc Hs].
  now rewrite (Hf c Hc), (IH Hs).
Qed.

Lemma allChars_app (p : ascii -> bool) a b :
  allChars p (a ++ b) = allChars p a && allChars p b.
Proof.
  induction a as [|c a IH]; simpl; auto. rewrite IH. now rewrite andb_assoc.
Qed.

Lemma allChars_cons (p : ascii -> bool) c s :
  allChars p (String c s) = p c && allChars p s.
Proof. reflexivity. Qed.

Lemma split_pieces_chars (p : ascii -> bool) s :
  allChars p s = true ->
  Forall (fun piece => allChars p piece = true) (JsString.split s).
Proof.
  induction s as [|c s IH]; simpl.
  - intros _. repeat constructor.
  - intros H. apply andb_true_iff in H. destruct H as [Hc Hs]. specialize (IH Hs).
    destruct (JsString.isWhiteSpace c).
    + destruct (JsString.startsWithSpace s); auto.
    + destruct (JsString.split s) as [|x xs]; inversion IH; subst;
        constructor; simpl; auto; rewrite Hc; auto.
Qed.

(** What [toLowerCase] leaves of the word characters is [[a-z0-9_]]. *)
Lemma lower_word_char c :
  JsString.isWordChar (JsString.toLowerChar c) = true ->
  isTermChar (JsString.toLowerChar c) = true.
Proof.
  destruct c as [[] [] [] [] [] [] [] []]; vm_compute; auto.
Qed.

Lemma toLowerChar_idempotent c :
  JsString.toLowerChar (JsString.toLowerChar c) = JsString.toLowerChar c.
Proof.
  destruct c as [[] [] [] [] [] [] [] []]; vm_compute; auto.
Qed.

Lemma term_char_facts c :
  isTermChar c = true ->
  JsString.isWordChar c = true
  /\ JsString.isWhiteSpace c = false
  /\ JsString.toLowerChar c = c.
Proof.
  destruct c as [[] [] [] [] [] [] [] []]; vm_compute; auto; discriminate.
Qed.

Lemma toLowerCase_idempotent s :
  JsString.toLowerCase (JsString.toLowerCase s) = JsString.toLowerCase s.
Proof.
  unfold JsString.toLowerCase. induction s as [|c s IH]; simpl; auto.
  now rewrite toLowerChar_idempotent, IH.
Qed.

Lemma normalized_chars text :
  allChars (fun c => isTermChar c || JsString.isWhiteSpace c)
           (JsString.replaceNonWord (JsString.toLowerCase text)) = true.
Proof.
  unfold JsString.replaceNonWord, JsString.toLowerCase.
  induction text as [|c s IH]; simpl; auto.
  rewrite IH, andb_true_r.
  destruct (JsString.isWordChar (JsString.toLowerChar c)) eqn:Ew; simpl.
  - now rewrite (lower_word_char c Ew).
  - destruct (JsString.isWhiteSpace (JsString.toLowerChar c)) eqn:Es; simpl.
    + rewrite Es. apply orb_true_r.
    + reflexivity.
Qed.

Lemma filter_all {A : Type} (p : A -> bool) l :
  Forall (fun x => p x = true) l -> filter p l = l.
Proof.
  induction 1 as [|x l Hx Hl IH]; simpl; auto. now rewrite Hx, IH.
Qed.

Lemma Forall_filter_keep {A : Type} (P : A -> Prop) (p : A -> bool) l :
  Forall P l -> Forall P (filter p l).
Proof.
  induction 1 as [|x l Hx Hl IH]; simpl; auto. destruct (p x); auto.
Qed.

Lemma Forall_filter_pred {A : Type} (p : A -> bool) l :
  Forall (fun x => p x = true) (filter p l).
Proof.
  induction l as [|x l IH]; simpl; auto. destruct (p x) eqn:E; auto.
Qed.

(** The shape of every term the tokenizer returns. *)
Lemma terms_shape text :
  Forall (fun term => allChars isTermChar term = true
                      /\ 2 < String.length term
                      /\ isStopWord term = false)
         (extractSearchTerms text).
Proof.
  unfold extractSearchTerms.
  set (s := JsString.replaceNonWord (JsString.toLowerCase text)).
  assert (Hchars : Forall (fun piece => allChars isTermChar piece = true) (JsString.split s)).
  { pose proof (split_pieces_chars _ s (normalized_chars text)) as H1.
    pose proof (split_pieces_no_space s) as H2.
    rewrite Forall_forall in *. intros piece Hin.
    pose proof (allChars_and _ _ piece (H1 piece Hin) (H2 piece Hin)) as H.
    revert H. apply allChars_impl. intros c Hc.
    apply andb_true_iff in Hc. destruct Hc as [Hc Hn].
    destruct (JsString.isWhiteSpace c); [discriminate|].
    now rewrite orb_false_r in Hc. }
  apply Forall_forall. intros term Hin.
  apply filter_In in Hin. destruct Hin as [Hin Hstop].
  apply filter_In in Hin. destruct Hin as [Hin Hlen].
  rewrite Forall_forall in Hchars. repeat split.
  - now apply Hchars.
  - now apply Nat.ltb_lt.
  - now apply negb_true_iff.
Qed.

Lemma split_no_space_single p :
  allChars (fun c => negb (JsString.isWhiteSpace c)) p = true -> JsString.split p = [p].
Proof.
  induction p as [|c p IH]; simpl; auto.
  intros H. apply andb_true_iff in H. destruct H as [Hc Hp].
  apply negb_true_iff in Hc. rewrite Hc. now rewrite (IH Hp).
Qed.

Lemma split_piece_then_space p rest :
  allChars (fun c => negb (JsString.isWhiteSpace c)) p = true ->
  JsString.startsWithSpace rest = false ->
  JsString.split (p ++ String " " rest) = p :: JsString.split rest.
Proof.
  intros Hp Hrest. induction p as [|c p IH]; simpl.
  - now rewrite Hrest.
  - simpl in Hp. apply andb_true_iff in Hp. destruct Hp as [Hc Hp].
    apply negb_true_iff in Hc. rewrite Hc. now rewrite (IH Hp).
Qed.

Lemma startsWithSpace_join p l :
  allChars (fun c => negb (JsString.isWhiteSpace c)) p = true ->
  p <> EmptyString ->
  JsString.startsWithSpace (JsString.join " " (p :: l)) = false.
Proof.
  intros Hp Hne. destruct p as [|c p]; [contradiction|].
  simpl in Hp. apply andb_true_iff in Hp. destruct Hp as [Hc _].
  apply negb_true_iff in Hc.
  unfold JsString.join. destruct l; simpl; exact Hc.
Qed.

(** Splitting what was joined by single spaces gives the pieces back. *)
Lemma split_join p l :
  allChars (fun c => negb (JsString.isWhiteSpace c)) p = true ->
  Forall (fun q => allChars (fun c => negb (JsString.isWhiteSpace c)) q = true
                   /\ q <> EmptyString) l ->
  JsString.split (JsString.join " " (p :: l)) = p :: l.
Proof.
  intros Hp Hl. revert p Hp. induction Hl as [|q l [Hq Hne] Hl IH]; intros p Hp.
  - now apply split_no_space_single.
  - change (JsString.join " " (p :: q :: l))
      with (p ++ String " " (JsString.join " " (q :: l)))%string.
    rewrite split_piece_then_space; auto.
    + now rewrite IH.
    + now apply startsWithSpace_join.
Qed.

Lemma length_pos_nonempty s : 2 < String.length s -> s <> EmptyString.
Proof. destruct s; simpl; [lia|discriminate]. Qed.

(** Terms tokenize to themselves. *)
Lemma extractSearchTerms_of_terms terms :
  Forall (fun term => allChars isTermChar term = true
                      /\ 2 < String.length term
                      /\ isStopWord term = false) terms ->
  extractSearchTerms (JsString.join " " terms) = terms.
Proof.
  intros H. destruct terms as [|p l]; [reflexivity|].
  assert (Hchars : allChars (fun c => isTermChar c || (c =? " ")%char)
                            (JsString.join " " (p :: l)) = true).
  { clear -H. revert p H. induction l as [|q l IH]; intros p H.
    - inversion H as [|? ? [Hp _] _]; subst. simpl.
      revert Hp. apply allChars_impl. intros c ->. reflexivity.
    - inversion H as [|? ? [Hp _] Hl]; subst.
      change (JsString.join " " (p :: q :: l))
        with (p ++ String " " (JsString.join " " (q :: l)))%string.
      rewrite allChars_app, allChars_cons, (IH q Hl), !andb_true_r.
      revert Hp. apply allChars_impl. intros c ->. reflexivity. }
  assert (Hfix : forall c, (isTermChar c || (c =? " ")%char) = true ->
                           JsString.toLowerChar c = c
                           /\ (JsString.isWordChar c || JsString.isWhiteSpace c) = true).
  { intros c Hc. apply orb_true_iff in Hc. destruct Hc as [Hc|Hc].
    - destruct (term_char_facts c Hc) as [H1 [_ H3]]. now rewrite H1, H3.
    - apply Ascii.eqb_eq in Hc. subst. split; reflexivity. }
  unfold extractSearchTerms.
  assert (E1 : JsString.toLowerCase (JsString.join " " (p :: l)) = JsString.join " " (p :: l)).
  { unfold JsString.toLowerCase. eapply allChars_map_id; [|exact Hchars].
    intros c Hc. apply (Hfix c Hc). }
  rewrite E1.
  assert (E2 : JsString.replaceNonWord (JsString.join " " (p :: l)) = JsString.join " " (p :: l)).
  { unfold JsString.replaceNonWord. eapply allChars_map_id; [|exact Hchars].
    intros c Hc. destruct (Hfix c Hc) as [_ Hw]. now rewrite Hw. }
  rewrite E2.
  assert (Hns : Forall (fun q => allChars (fun c => negb (JsString.isWhiteSpace c)) q = true
                                 /\ q <> EmptyString) (p :: l)).
  { eapply Forall_impl; [|exact H]. simpl. intros q [Hq [Hlen _]]. split.
    - revert Hq. apply allChars_impl. intros c Hc.
      destruct (term_char_facts c Hc) as [_ [Hws _]]. now rewrite Hws.
    - now apply length_pos_nonempty. }
  inversion Hns as [|? ? [Hp _] Hl]; subst.
  rewrite split_join by assumption.
  rewrite (filter_all (fun term => 2 <? String.length term) (p :: l)).
  - apply filter_all. eapply Forall_impl; [|exact H]. cbv beta.
    intros q [_ [_ Hs]]. now rewrite Hs.
  - eapply Forall_impl; [|exact H]. cbv beta. intros q [_ [Hlen _]]. now apply Nat.ltb_lt.
Qed.

(** X4. Every term the tokenizer returns is at least three characters
    long, is made of lower-case letters, digits and underscores only, and
    is no stop word. *)
Theorem X4_terms_are_normalized :
  forall (text term : string),
    In term (extractSearchTerms text) ->
    3 <= String.length term
    /\ allChars isTermChar term = true
    /\ isStopWord term = false.
Proof.
  intros text term Hin.
  pose proof (terms_shape text) as H. rewrite Forall_forall in H.
  destruct (H term Hin) as [H1 [H2 H3]]. repeat split; auto.
Qed.

Lemma X4_witness :
  3 <= String.length "at_home"
  /\ allChars isTermChar "at_home" = true
  /\ isStopWord "at_home" = false.
Proof.
  apply (X4_terms_are_normalized "The Quick-brown FOX is at_home!" "at_home").
  vm_compute. auto 10.
Defined.

(** X5. Tokenizing is idempotent and blind to case: the terms of a text,
    joined by spaces and tokenized again, are the same terms, and so are
    the terms of the text in lower case; hence searching for the
    normalized form of a query returns what the query returns. *)
Theorem X5_tokenizer_idempotent :
  forall (text : string),
    extractSearchTerms (JsString.join " " (extractSearchTerms text)) = extractSearchTerms text
    /\ extractSearchTerms (JsString.toLowerCase text) = extractSearchTerms text
    /\ forall userId options st,
         searchKnowledgeBase (JsString.join " " (extractSearchTerms text)) userId options st
         = searchKnowledgeBase text userId options st.
Proof.
  intros text.
  assert (E : extractSearchTerms (JsString.join " " (extractSearchTerms text))
              = extractSearchTerms text)
    by (apply extractSearchTerms_of_terms, terms_shape).
  split; [exact E|]. split.
  - unfold extractSearchTerms. now rewrite toLowerCase_idempotent.
  - intros userId options st. unfold searchKnowledgeBase. now rewrite E.
Qed.

(* ================================================================== *)
(** ** Matched terms and relevant chunks *)

Lemma prefix_app t b : prefix t (t ++ b)%string = true.
Proof.
  induction t as [|c t IH]; simpl.
  - destruct b; reflexivity.
  - destruct (ascii_dec c c); [exact IH|contradiction].
Qed.

Lemma includes_unfold s t :
  JsString.includes s t
  = prefix t s || match s with
                  | EmptyString => false
                  | String _ s' => JsString.includes s' t
                  end.
Proof. destruct s; reflexivity. Qed.

Lemma includes_middle a t b : JsString.includes (a ++ t ++ b)%string t = true.
Proof.
  induction a as [|c a IH].
  - simpl append. now rewrite includes_unfold, prefix_app.
  - change (JsString.includes (String c (a ++ t ++ b)%string) t = true).
    rewrite includes_unfold, IH. apply orb_true_r.
Qed.

Lemma split_head_empty c s :
  JsString.isWhiteSpace c = true ->
  exists rest, JsString.split (String c s) = EmptyString :: rest.
Proof.
  revert c. induction s as [|c' s IH]; intros c Hc; simpl; rewrite Hc.
  - eauto.
  - destruct (JsString.isWhiteSpace c') eqn:Ec'; [|eauto].
    destruct (IH c' Ec') as [rest Hrest]. simpl in Hrest. rewrite Ec' in Hrest. eauto.
Qed.

Lemma split_head_prefix s piece rest :
  JsString.split s = piece :: rest -> exists b, s = (piece ++ b)%string.
Proof.
  revert piece rest. induction s as [|c s IH]; intros piece rest H.
  - simpl in H. inversion H; subst. exists EmptyString. reflexivity.
  - destruct (JsString.isWhiteSpace c) eqn:Ec.
    + destruct (split_head_empty c s Ec) as [rest' Hrest]. rewrite Hrest in H.
      inversion H; subst. exists (String c s). reflexivity.
    + simpl in H. rewrite Ec in H.
      destruct (JsString.split s) as [|x xs] eqn:Es.
      * inversion H; subst. destruct (split_not_nil s Es).
      * inversion H; subst. destruct (IH x rest eq_refl) as [b ->].
        exists b. reflexivity.
Qed.

(** A piece of a split is a stretch of the string. *)
Lemma split_piece_stretch s piece :
  In piece (JsString.split s) -> exists a b, s = (a ++ piece ++ b)%string.
Proof.
  induction s as [|c s IH]; intros Hin.
  - simpl in Hin. destruct Hin as [<-|[]]. exists EmptyString, EmptyString. reflexivity.
  - assert (Htail : In piece (JsString.split s) ->
                    exists a b, String c s = (a ++ piece ++ b)%string).
    { intros H. destruct (IH H) as [a [b ->]]. exists (String c a), b. reflexivity. }
    simpl in Hin. destruct (JsString.isWhiteSpace c) eqn:Ec.
    + destruct (JsString.startsWithSpace s); auto.
      destruct Hin as [<-|Hin]; auto.
      exists EmptyString, (String c s). reflexivity.
    + destruct (JsString.split s) as [|x xs] eqn:Es.
      * destruct (split_not_nil s Es).
      * destruct Hin as [<-|Hin].
        -- destruct (split_head_prefix s x xs Es) as [b ->].
           exists EmptyString, b. reflexivity.
        -- apply Htail. now right.
Qed.

Lemma map_app_inv (f : ascii -> ascii) s a r :
  JsString.map f s = (a ++ r)%string ->
  exists a0 r0, s = (a0 ++ r0)%string /\ JsString.map f a0 = a /\ JsString.map f r0 = r.
Proof.
  revert s. induction a as [|c a IH]; intros s H.
  - exists EmptyString, s. auto.
  - destruct s as [|c0 s]; [discriminate|]. simpl in H. inversion H; subst.
    destruct (IH s H2) as [a0 [r0 [-> [Ha Hr]]]].
    exists (String c0 a0), r0. simpl. rewrite Ha. auto.
Qed.

Lemma replaceNonWord_word_stretch s0 p :
  JsString.replaceNonWord s0 = p ->
  allChars JsString.isWordChar p = true ->
  s0 = p.
Proof.
  unfold JsString.replaceNonWord. revert p. induction s0 as [|c s IH]; intros p H Hp.
  - now subst.
  - simpl in H. subst p. simpl in Hp. apply andb_true_iff in Hp. destruct Hp as [Hc Hp].
    rewrite <- (IH _ eq_refl Hp) at 1. f_equal.
    destruct (JsString.isWordChar c || JsString.isWhiteSpace c) eqn:E; auto.
    vm_compute in Hc. discriminate.
Qed.

(** A term of a text occurs in the text in lower case. *)
Lemma term_included text term :
  In term (extractSearchTerms text) ->
  JsString.includes (JsString.toLowerCase text) term = true.
Proof.
  intros Hin.
  destruct (terms_are_words text term Hin) as [Hw _].
  unfold extractSearchTerms in Hin.
  apply filter_In in Hin. destruct Hin as [Hin _].
  apply filter_In in Hin. destruct Hin as [Hin _].
  apply split_piece_stretch in Hin. destruct Hin as [a [b Hs]].
  apply map_app_inv in Hs. destruct Hs as [a0 [r0 [Hlow [_ Hr]]]].
  apply map_app_inv in Hr. destruct Hr as [p0 [b0 [-> [Hp _]]]].
  apply replaceNonWord_word_stretch in Hp; auto. subst p0.
  rewrite Hlow. apply includes_middle.
Qed.

Lemma matchCount_pos_In st userId documentId terms :
  0 < matchCount st userId documentId terms ->
  exists term, In term terms /\ 0 < countRefs (entryOf st term) documentId userId.
Proof.
  unfold matchCount. induction terms as [|t terms IH]; simpl; [lia|].
  intros H. destruct (countRefs (entryOf st t) documentId userId) eqn:E.
  - destruct (IH ltac:(lia)) as [term [Hin Hpos]]. eauto.
  - exists t. split; auto. lia.
Qed.

(** X6. In every state the service reaches, the matched terms of a result
    are terms of the query, they include every query term that is among
    the normalized terms of the result's document, and there is at least
    one of them. *)
Theorem X6_matched_terms_cover_indexed_terms :
  forall (st : KB), reachable st ->
  forall (query userId : string) (options : SearchOptions) (r : SearchResult),
    In r (searchKnowledgeBase query userId options st) ->
    exists doc,
      lookupDoc st userId (sum_id (res_document r)) = Some doc
      /\ (forall term, In term (res_matchedTerms r) -> In term (extractSearchTerms query))
      /\ (forall term,
            In term (extractSearchTerms query) ->
            In term (extractSearchTerms (doc_extractedText doc)) ->
            In term (res_matchedTerms r))
      /\ res_matchedTerms r <> [].
Proof.
  intros st Hreach query userId options r Hr.
  apply reachable_consistent in Hreach. destruct Hreach as [[Hkeys _ _] _ Hrefs].
  destruct (result_score_accumulated st query userId options r Hr)
    as [d [doc [Hdoc [Hshape Hget]]]].
  destruct (Hkeys userId d doc Hdoc) as [Hid _].
  assert (Hcover : forall term,
            In term (extractSearchTerms query) ->
            In term (extractSearchTerms (doc_extractedText doc)) ->
            In term (res_matchedTerms r)).
  { intros term Hq Hd. rewrite Hshape. simpl. apply filter_In. split; auto.
    now apply term_included. }
  exists doc. split; [|split; [|split]]; auto.
  - rewrite Hshape. simpl. now rewrite Hid.
  - intros term Hin. rewrite Hshape in Hin. simpl in Hin.
    apply filter_In in Hin. tauto.
  - rewrite get_documentScores in Hget.
    destruct (matchCount st userId d (extractSearchTerms query)) eqn:Em; [discriminate|].
    destruct (matchCount_pos_In st userId d (extractSearchTerms query)) as [term [Hq Hpos]];
      [lia|].
    rewrite Hrefs in Hpos. unfold storedCount in Hpos. rewrite Hdoc in Hpos.
    assert (Hd : In term (extractSearchTerms (doc_extractedText doc)))
      by now apply (count_occ_In string_dec).
    intros Hnil. specialize (Hcover term Hq Hd). rewrite Hnil in Hcover. contradiction.
Qed.

Lemma X6_witness :
  exists doc,
    lookupDoc Examples.kbAB "u1"
      (sum_id (res_document
                 (searchResult Examples.docB 1 (extractSearchTerms "Banana, zebra!"))))
    = Some doc
    /\ (forall term,
          In term (res_matchedTerms
                     (searchResult Examples.docB 1 (extractSearchTerms "Banana, zebra!"))) ->
          In term (extractSearchTerms "Banana, zebra!"))
    /\ (forall term,
          In term (extractSearchTerms "Banana, zebra!") ->
          In term (extractSearchTerms (doc_extractedText doc)) ->
          In term (res_matchedTerms
                     (searchResult Examples.docB 1 (extractSearchTerms "Banana, zebra!"))))
    /\ res_matchedTerms (searchResult Examples.docB 1 (extractSearchTerms "Banana, zebra!"))
       <> [].
Proof.
  apply (X6_matched_terms_cover_indexed_terms Examples.kbAB reachable_kbAB
           "Banana, zebra!" "u1" noOptions
           (searchResult Examples.docB 1 (extractSearchTerms "Banana, zebra!"))).
  vm_compute. left. reflexivity.
Defined.

Lemma StronglySorted_filter {A : Type} (R : A -> A -> Prop) (p : A -> bool) l :
  StronglySorted R l -> StronglySorted R (filter p l).
Proof.
  induction 1 as [|x l Hs IH Hall]; simpl; [constructor|].
  destruct (p x); auto. constructor; auto.
  apply Forall_forall. intros y Hy. apply filter_In in Hy.
  rewrite Forall_forall in Hall. apply Hall. tauto.
Qed.

Lemma sort_head_max {A : Type} (key : A -> Z) l x :
  In x l ->
  exists best rest,
    JsArray.sort (fun a b => (key b - key a)%Z) l = best :: rest
    /\ (key x <= key best)%Z.
Proof.
  intros Hin.
  pose proof (sort_desc key l) as Hs.
  assert (Hx : In x (JsArray.sort (fun a b => (key b - key a)%Z) l)) by now apply sort_In.
  destruct (JsArray.sort (fun a b => (key b - key a)%Z) l) as [|best rest];
    [contradiction|].
  exists best, rest. split; auto.
  inversion Hs as [|? ? _ Hall]; subst.
  destruct Hx as [->|Hx]; [lia|].
  rewrite Forall_forall in Hall. apply (Hall x Hx).
Qed.

(** X7. The relevant chunks of a document, for a bound that is not
    negative: at most that many, each a chunk of the document with its
    occurrence count as score, the score positive, in non-increasing
    order of score; and when some chunk has an occurrence and the bound
    is at least 1, the first one returned scores at least as high as
    every chunk of the document. *)
Theorem X7_relevant_chunks :
  forall (chunks : list TextChunk) (searchTerms : list string) (maxChunks : Z),
    (0 <= maxChunks)%Z ->
    let found := findRelevantChunks chunks searchTerms maxChunks in
    (Z.of_nat (List.length found) <= maxChunks)%Z
    /\ Forall (fun c => In (sc_chunk c) chunks
                        /\ sc_score c = chunkScore searchTerms (sc_chunk c)
                        /\ (0 < sc_score c)%Z) found
    /\ StronglySorted (descBy sc_score) found
    /\ ((1 <= maxChunks)%Z ->
        forall chunk, In chunk chunks -> (0 < chunkScore searchTerms chunk)%Z ->
        exists best rest,
          found = best :: rest
          /\ forall other, In other chunks ->
                           (chunkScore searchTerms other <= sc_score best)%Z).
Proof.
  intros chunks searchTerms maxChunks Hmax found.
  set (scored := List.map (fun chunk => {| sc_chunk := chunk;
                                           sc_score := chunkScore searchTerms chunk |})
                          chunks).
  set (sorted := JsArray.sort (fun a b => (sc_score b - sc_score a)%Z) scored).
  assert (Hfound : found = filter (fun chunk => (0 <? sc_score chunk)%Z)
                                  (firstn (Z.to_nat maxChunks) sorted)).
  { unfold found, findRelevantChunks. fold scored. fold sorted.
    now rewrite slice_from_0 by assumption. }
  assert (Horigin : forall c, In c sorted ->
                              In (sc_chunk c) chunks
                              /\ sc_score c = chunkScore searchTerms (sc_chunk c)).
  { intros c Hc. apply sort_In in Hc. apply in_map_iff in Hc.
    destruct Hc as [chunk [<- Hin]]. auto. }
  split; [|split; [|split]].
  - rewrite Hfound.
    pose proof (filter_length_le (fun chunk => (0 <? sc_score chunk)%Z)
                  (firstn (Z.to_nat maxChunks) sorted)).
    pose proof (firstn_le_length (Z.to_nat maxChunks) sorted). lia.
  - rewrite Hfound. apply Forall_forall. intros c Hc.
    apply filter_In in Hc. destruct Hc as [Hc Hpos].
    apply In_firstn in Hc. destruct (Horigin c Hc). repeat split; auto.
    now apply Z.ltb_lt.
  - rewrite Hfound. apply StronglySorted_filter, StronglySorted_firstn.
    apply (sort_desc sc_score).
  - intros Hone chunk Hin Hpos.
    destruct (sort_head_max sc_score scored
                {| sc_chunk := chunk; sc_score := chunkScore searchTerms chunk |})
      as [best [rest [Hsort Hbest]]].
    { unfold scored. apply in_map_iff. eauto. }
    fold sorted in Hsort. simpl in Hbest.
    assert (Hmaxall : forall other, In other chunks ->
                                    (chunkScore searchTerms other <= sc_score best)%Z).
    { intros other Ho.
      destruct (sort_head_max sc_score scored
                  {| sc_chunk := other; sc_score := chunkScore searchTerms other |})
        as [best' [rest' [Hsort' Hb']]].
      { unfold scored. apply in_map_iff. eauto. }
      fold sorted in Hsort'. rewrite Hsort in Hsort'. inversion Hsort'; subst.
      exact Hb'. }
    rewrite Hfound, Hsort.
    destruct (Z.to_nat maxChunks) as [|n] eqn:En; [lia|].
    simpl. replace (0 <? sc_score best)%Z with true
      by (symmetry; apply Z.ltb_lt; lia).
    eauto.
Qed.

Lemma X7_witness :
  (Z.of_nat (List.length (findRelevantChunks (doc_chunks Examples.docB) ["banana"] 3)) <= 3)%Z
  /\ exists best rest,
       findRelevantChunks (doc_chunks Examples.docB) ["banana"] 3 = best :: rest
       /\ forall other, In other (doc_chunks Examples.docB) ->
                        (chunkScore ["banana"] other <= sc_score best)%Z.
Proof.
  assert (H0 : (0 <= 3)%Z) by lia.
  destruct (X7_relevant_chunks (doc_chunks Examples.docB) ["banana"] 3 H0)
    as [H1 [_ [_ H4]]].
  split; [exact H1|].
  assert (H3 : (1 <= 3)%Z) by lia.
  apply (H4 H3 {| chunk_text := "apple banana"; chunk_startIndex := 0; chunk_wordCount := 2 |}).
  - vm_compute. left. reflexivity.
  - vm_compute. reflexivity.
Defined.

(* ================================================================== *)
(** ** Ingestion and the upload route *)

Lemma files_ingest doc st :
  files (indexDocument doc (saveDocument doc st)) = files st.
Proof. unfold indexDocument. now rewrite files_indexTerms. Qed.

Lemma documents_ingest doc st :
  documents (indexDocument doc (saveDocument doc st)) = documents (saveDocument doc st).
Proof. unfold indexDocument. now rewrite documents_indexTerms. Qed.

(** No path is twice in the upload directory. *)
Lemma reachable_files_nodup st : reachable st -> NoDup (JsMap.keys (files st)).
Proof.
  induction 1 as [|st path content Hr IH|st options env Hr IH Hfresh
                  |st documentId userId deletedAt Hr IH].
  - constructor.
  - simpl. now apply NoDup_keys_set.
  - unfold processDocument.
    destruct (extractText env (files st) (po_file options)) as [text|e]; cbn [snd].
    + now rewrite files_ingest.
    + simpl. now apply NoDup_keys_delete.
  - unfold deleteDocument.
    destruct (JsMap.get (userDocsOf st userId) documentId); cbn [snd]; auto.
    simpl. now apply NoDup_keys_delete.
Qed.

(** Search and listing read the two maps only. *)
Lemma search_same_maps st st' query userId options :
  documents st' = documents st ->
  documentIndex st' = documentIndex st ->
  searchKnowledgeBase query userId options st' = searchKnowledgeBase query userId options st.
Proof.
  destruct st, st'. simpl. intros -> ->. reflexivity.
Qed.

Lemma getDocuments_same_maps st st' userId options :
  documents st' = documents st ->
  getDocuments userId options st' = getDocuments userId options st.
Proof.
  destruct st, st'. simpl. intros ->. reflexivity.
Qed.

(** X8. In every state the service reaches, a [processDocument] that
    throws leaves no trace but the removal of the uploaded file: the
    document maps, the index and the allocation counter are as before,
    every search and every listing answers as before, the file of the
    upload is gone and every other file is untouched. *)
Theorem X8_failed_ingestion_leaves_no_trace :
  forall (st : KB), reachable st ->
  forall (options : ProcessOptions) (env : ProcessEnv) (e : ProcessError) (st' : KB),
    processDocument options env st = (Threw e, st') ->
    documents st' = documents st
    /\ documentIndex st' = documentIndex st
    /\ nextAddr st' = nextAddr st
    /\ JsMap.get (files st') (file_path (po_file options)) = None
    /\ (forall path, path <> file_path (po_file options) ->
                     JsMap.get (files st') path = JsMap.get (files st) path)
    /\ (forall query userId searchOptions,
          searchKnowledgeBase query userId searchOptions st'
          = searchKnowledgeBase query userId searchOptions st)
    /\ (forall userId listOptions,
          getDocuments userId listOptions st' = getDocuments userId listOptions st).
Proof.
  intros st Hreach options env e st' H.
  apply reachable_files_nodup in Hreach.
  unfold processDocument in H.
  destruct (extractText env (files st) (po_file options)) as [text|e0]; [discriminate|].
  inversion H; subst. simpl. repeat split; auto.
  - now apply get_delete_same.
  - intros path Hne. unfold unlink. now apply get_delete_other.
Qed.

Lemma X8_witness :
  documents
    (snd (processDocument
            {| po_file := {| file_originalname := "d.zip"; file_path := "/uploads/2_b.txt";
                             file_size := 64; file_mimetype := "application/zip" |};
               po_title := "d.zip"; po_description := EmptyString;
               po_category := "general"; po_userId := "u1" |}
            (Examples.envFor "doc_d") Examples.kbAB))
  = documents Examples.kbAB
  /\ JsMap.get
       (files
          (snd (processDocument
                  {| po_file := {| file_originalname := "d.zip";
                                   file_path := "/uploads/2_b.txt";
                                   file_size := 64; file_mimetype := "application/zip" |};
                     po_title := "d.zip"; po_description := EmptyString;
                     po_category := "general"; po_userId := "u1" |}
                  (Examples.envFor "doc_d") Examples.kbAB)))
       "/uploads/2_b.txt"
     = None.
Proof.
  destruct (X8_failed_ingestion_leaves_no_trace Examples.kbAB reachable_kbAB
              {| po_file := {| file_originalname := "d.zip"; file_path := "/uploads/2_b.txt";
                               file_size := 64; file_mimetype := "application/zip" |};
                 po_title := "d.zip"; po_description := EmptyString;
                 po_category := "general"; po_userId := "u1" |}
              (Examples.envFor "doc_d")
              (UnsupportedFileType "application/zip")
              (snd (processDocument
                      {| po_file := {| file_originalname := "d.zip";
                                       file_path := "/uploads/2_b.txt";
                                       file_size := 64; file_mimetype := "application/zip" |};
                         po_title := "d.zip"; po_description := EmptyString;
                         po_category := "general"; po_userId := "u1" |}
                      (Examples.envFor "doc_d") Examples.kbAB)))
    as [H1 [_ [_ [H4 _]]]].
  - reflexivity.
  - split; assumption.
Defined.

(** X9. [processDocument] returns a document exactly when the media type
    is plain text or Markdown and the file exists, or the media type is
    PDF, the file exists and the parser answers a text; in every other
    case it throws, and for a media type other than these three what it
    throws names the type. *)
Theorem X9_ingestion_succeeds_iff :
  forall (options : ProcessOptions) (env : ProcessEnv) (st : KB),
    let mimetype := file_mimetype (po_file options) in
    let path := file_path (po_file options) in
    ((exists document, fst (processDocument options env st) = Returned document)
     <-> (((mimetype = "text/plain" \/ mimetype = "text/markdown")
           /\ JsMap.get (files st) path <> None)
          \/ (mimetype = "application/pdf"
              /\ exists dataBuffer text,
                   JsMap.get (files st) path = Some dataBuffer
                   /\ env_pdfParse env dataBuffer = Some text)))
    /\ (mimetype <> "application/pdf" -> mimetype <> "text/plain" ->
        mimetype <> "text/markdown" ->
        fst (processDocument options env st) = Threw (UnsupportedFileType mimetype)).
Proof.
  intros options env st mimetype path.
  unfold processDocument, extractText, extractPdfText. fold mimetype. fold path.
  eqb_cases mimetype "application/pdf" Epdf.
  - split; [|congruence].
    destruct (JsMap.get (files st) path) as [buf|] eqn:Eg.
    + destruct (env_pdfParse env buf) as [text|] eqn:Ep; simpl.
      * split; [|eauto]. intros _. right. split; auto. eauto.
      * split; [intros [d Hd]; discriminate|].
        intros [[[H|H] _]|[_ [b [t [Hb Ht]]]]]; try congruence.
    + simpl. split; [intros [d Hd]; discriminate|].
      intros [[[H|H] _]|[_ [b [t [Hb Ht]]]]]; try congruence.
  - eqb_cases mimetype "text/plain" Eplain; [|eqb_cases mimetype "text/markdown" Emd];
      simpl.
    + split; [|congruence].
      destruct (JsMap.get (files st) path) as [text|] eqn:Eg; simpl.
      * split; [|eauto]. intros _. left. split; auto. discriminate.
      * split; [intros [d Hd]; discriminate|].
        intros [[_ H]|[H _]]; congruence.
    + split; [|congruence].
      destruct (JsMap.get (files st) path) as [text|] eqn:Eg; simpl.
      * split; [|eauto]. intros _. left. split; auto. discriminate.
      * split; [intros [d Hd]; discriminate|].
        intros [[_ H]|[H _]]; congruence.
    + split; [|reflexivity].
      split; [intros [d Hd]; discriminate|].
      intros [[[H|H] _]|[H _]]; congruence.
Qed.

Lemma X9_witness :
  fst (processDocument
         {| po_file := {| file_originalname := "d.zip"; file_path := "/uploads/2_b.txt";
                          file_size := 64; file_mimetype := "application/zip" |};
            po_title := "d.zip"; po_description := EmptyString;
            po_category := "general"; po_userId := "u1" |}
         (Examples.envFor "doc_d") Examples.kbAB)
  = Threw (UnsupportedFileType "application/zip").
Proof.
  destruct (X9_ingestion_succeeds_iff
              {| po_file := {| file_originalname := "d.zip"; file_path := "/uploads/2_b.txt";
                               file_size := 64; file_mimetype := "application/zip" |};
                 po_title := "d.zip"; po_description := EmptyString;
                 po_category := "general"; po_userId := "u1" |}
              (Examples.envFor "doc_d") Examples.kbAB) as [_ H].
  apply H; discriminate.
Defined.

(** X10. The upload route answers 400 and changes nothing when the
    request carries no file. A Word document passes the file filter of
    the route, yet its upload always ends in 500 "Failed to process
    document" with the message "Unsupported file type: ..." and with the
    document maps and the index as before. *)
Theorem X10_upload_route_rejections :
  forall (body : UploadBody) (userId : string) (env : ProcessEnv) (st : KB),
    postUpload None body userId env st = (Upload400 "No file uploaded", st)
    /\ forall (f : UploadedFile),
         file_mimetype f = "application/msword"
         \/ file_mimetype f
            = "application/vnd.openxmlformats-officedocument.wordprocessingml.document" ->
         fileFilter (file_mimetype f) = true
         /\ fst (postUpload (Some f) body userId env st)
            = Upload500 "Failed to process document"
                        ("Unsupported file type: " ++ file_mimetype f)%string
         /\ documents (snd (postUpload (Some f) body userId env st)) = documents st
         /\ documentIndex (snd (postUpload (Some f) body userId env st)) = documentIndex st.
Proof.
  intros body userId env st. split; [reflexivity|].
  intros f Hm. unfold postUpload, processDocument, extractText. cbn [po_file].
  destruct Hm as [-> | ->]; repeat split.
Qed.

Lemma X10_witness :
  fileFilter "application/msword" = true
  /\ fst (postUpload (Some {| file_originalname := "w.doc"; file_path := "/uploads/5_w.doc";
                              file_size := 64; file_mimetype := "application/msword" |})
                     {| body_title := None; body_description := None; body_category := None |}
                     "u1" (Examples.envFor "doc_w") Examples.kbAB)
     = Upload500 "Failed to process document" "Unsupported file type: application/msword".
Proof.
  destruct (X10_upload_route_rejections
              {| body_title := None; body_description := None; body_category := None |}
              "u1" (Examples.envFor "doc_w") Examples.kbAB) as [_ H].
  destruct (H {| file_originalname := "w.doc"; file_path := "/uploads/5_w.doc";
                 file_size := 64; file_mimetype := "application/msword" |})
    as [H1 [H2 _]].
  - left. reflexivity.
  - split; assumption.
Defined.

Lemma extractSearchTerms_single text term :
  In term (extractSearchTerms text) -> extractSearchTerms term = [term].
Proof.
  intros Hin.
  pose proof (terms_shape text) as H. rewrite Forall_forall in H.
  apply (extractSearchTerms_of_terms [term]). constructor; auto.
Qed.

(** X11. A successful upload, in a state the service reaches and with an
    identifier no document has: the document answered belongs to the
    uploader, is processed, has the title, description and category of the
    request or their defaults (the file name, the empty string, "general"),
    is the one found under its owner and identifier afterwards, and is a
    candidate, with a score of at least 1, of the owner's search for any
    one of its own terms; every document stored before is found as before. *)
Theorem X11_uploaded_document_is_stored_and_found :
  forall (st : KB), reachable st ->
  forall (f : UploadedFile) (body : UploadBody) (userId : string) (env : ProcessEnv)
         (document : Document) (message : string) (st' : KB),
    freshId st (env_id env) ->
    postUpload (Some f) body userId env st = (Upload201 document message, st') ->
    doc_id document = env_id env
    /\ doc_userId document = userId
    /\ doc_status document = processed
    /\ doc_title document = orElse (body_title body) (file_originalname f)
    /\ doc_description document = orElse (body_description body) EmptyString
    /\ doc_category document = orElse (body_category body) "general"
    /\ lookupDoc st' userId (doc_id document) = Some document
    /\ (forall term,
          In term (extractSearchTerms (doc_extractedText document)) ->
          (1 <= scoreOf st' userId term (doc_id document))%Z)
    /\ (forall owner documentId stored,
          lookupDoc st owner documentId = Some stored ->
          lookupDoc st' owner documentId = Some stored).
Proof.
  intros st Hreach f body userId env document message st' Hfresh H.
  unfold postUpload in H.
  set (options := {| po_file := f;
                     po_title := orElse (body_title body) (file_originalname f);
                     po_description := orElse (body_description body) EmptyString;
                     po_category := orElse (body_category body) "general";
                     po_userId := userId |}) in *.
  assert (Hreach' : reachable (snd (processDocument options env st)))
    by now apply reach_process.
  unfold processDocument in H, Hreach'.
  destruct (extractText env (files st) (po_file options)) as [text|e]; [|discriminate].
  cbn [snd] in Hreach'. inversion H; subst. clear H.
  set (document := newDocument options env text) in *.
  apply reachable_consistent in Hreach'.
  assert (Hlook : forall owner documentId,
            lookupDoc (indexDocument document (saveDocument document st)) owner documentId
            = if String.eqb owner (doc_userId document)
                 && String.eqb documentId (doc_id document)
              then Some document else lookupDoc st owner documentId).
  { intros owner documentId. rewrite <- lookup_saveDocument.
    unfold lookupDoc, userDocsOf. now rewrite documents_ingest. }
  repeat split; auto.
  - rewrite Hlook. simpl. now rewrite !String.eqb_refl.
  - intros term Hterm. unfold scoreOf.
    rewrite (extractSearchTerms_single _ _ Hterm), get_documentScores.
    unfold matchCount. simpl. rewrite Nat.add_0_r.
    destruct Hreach' as [_ _ Hrefs]. rewrite Hrefs.
    unfold storedCount. rewrite Hlook. simpl. rewrite !String.eqb_refl. simpl.
    apply (count_occ_In string_dec) in Hterm.
    change (doc_extractedText document) with text in Hterm.
    destruct (count_occ string_dec (extractSearchTerms text) term); simpl; lia.
  - intros owner documentId stored Hs. rewrite Hlook.
    destruct (String.eqb owner (doc_userId document)
              && String.eqb documentId (doc_id document)) eqn:E; auto.
    apply andb_true_iff in E. destruct E as [E1 E2].
    apply String.eqb_eq in E1, E2. subst.
    rewrite (freshId_lookup st _ Hfresh) in Hs. discriminate.
Qed.

Lemma X11_witness :
  lookupDoc Examples.kbABC "u2" (doc_id Examples.docC) = Some Examples.docC
  /\ (1 <= scoreOf Examples.kbABC "u2" "cherry" (doc_id Examples.docC))%Z.
Proof.
  destruct (X11_uploaded_document_is_stored_and_found
              (Examples.upload "/uploads/3_c.txt" "apple cherry" Examples.kbAB)
              (reach_upload _ _ _ reachable_kbAB)
              (Examples.textFile "c.txt" "/uploads/3_c.txt")
              {| body_title := None; body_description := None; body_category := None |}
              "u2" (Examples.envFor "doc_c") Examples.docC
              "Document uploaded and processed successfully" Examples.kbABC)
    as [_ [_ [_ [_ [_ [_ [H1 [H2 _]]]]]]]].
  - apply freshIdb_sound. reflexivity.
  - reflexivity.
  - split; [exact H1|]. apply H2. vm_compute. auto.
Defined.

(* ================================================================== *)
(** ** Deleting *)

Lemma delete_set_fresh {V : Type} (m : JsMap.t V) k v :
  JsMap.get m k = None -> JsMap.delete (JsMap.set m k v) k = m.
Proof.
  induction m as [|[k' v'] m IH]; simpl.
  - now rewrite String.eqb_refl.
  - destruct (String.eqb k' k) eqn:E; [discriminate|].
    intros H. simpl. rewrite E. now rewrite IH.
Qed.

(** Search reads the index through the entries of its terms, and the
    document maps through the owner's map. *)
Lemma documentScores_same_entries st st' userId terms :
  (forall term, entryOf st' term = entryOf st term) ->
  documentScores st' userId terms = documentScores st userId terms.
Proof.
  intros H. unfold documentScores. generalize (@nil (string * Z)).
  induction terms as [|t terms IH]; intros scores; simpl; auto.
  rewrite IH. f_equal. unfold scoreTerm.
  fold (entryOf st' t). fold (entryOf st t). now rewrite H.
Qed.

Lemma search_same_view st st' query userId options :
  (forall term, entryOf st' term = entryOf st term) ->
  userDocsOf st' userId = userDocsOf st userId ->
  searchKnowledgeBase query userId options st' = searchKnowledgeBase query userId options st.
Proof.
  intros He Hd. unfold searchKnowledgeBase, sortedDocs.
  now rewrite Hd, (documentScores_same_entries st st' userId _ He).
Qed.

Lemma getDocuments_same_view st st' userId options :
  userDocsOf st' userId = userDocsOf st userId ->
  getDocuments userId options st' = getDocuments userId options st.
Proof.
  intros Hd. unfold getDocuments. now rewrite Hd.
Qed.

(** Indexing a document appends objects of that document to entries. *)
Lemma entryOf_indexTerms doc terms :
  forall st term,
    indexOk st ->
    exists added,
      entryOf (fold_left (indexTerm doc) terms st) term = entryOf st term ++ added
      /\ Forall (fun r => ref_documentId r = doc_id doc) added.
Proof.
  induction terms as [|t terms IH]; intros st term Hok; simpl.
  - exists []. split; [now rewrite app_nil_r|constructor].
  - destruct (IH (indexTerm doc st t) term (indexOk_indexTerm doc st t Hok))
      as [added [E Hall]].
    rewrite E, entryOf_indexTerm by assumption.
    destruct (String.eqb term t).
    + exists (newRef doc st :: added). split.
      * now rewrite <- app_assoc.
      * constructor; auto.
    + exists added. auto.
Qed.

Lemma filter_none {A : Type} (p : A -> bool) l :
  Forall (fun x => p x = false) l -> filter p l = [].
Proof.
  induction 1 as [|x l Hx Hl IH]; simpl; auto. now rewrite Hx.
Qed.

(** In a consistent state, the index holds no object for an identifier
    no document has. *)
Lemma fresh_not_indexed st documentId term :
  consistent st ->
  freshId st documentId ->
  Forall (fun r => negb (String.eqb (ref_documentId r) documentId) = true) (entryOf st term).
Proof.
  intros [_ _ Hrefs] Hfresh. apply Forall_forall. intros r Hr.
  apply negb_true_iff. apply String.eqb_neq. intros Heq.
  assert (Hpos : 0 < countRefs (entryOf st term) documentId (ref_userId r))
    by (apply countRefs_pos_In; eauto).
  rewrite Hrefs in Hpos. unfold storedCount in Hpos.
  rewrite (freshId_lookup st _ Hfresh) in Hpos. lia.
Qed.

(** X12. Ingesting a document and deleting it again, in a state the
    service reaches and with an identifier no document has: the deletion
    succeeds, and afterwards every search and every listing, of every
    owner, answers exactly what it answered before the ingestion; the
    uploaded file is gone. *)
Theorem X12_ingest_then_delete_restores_answers :
  forall (st : KB), reachable st ->
  forall (options : ProcessOptions) (env : ProcessEnv) (document : Document) (st1 : KB)
         (deletedAt : string),
    freshId st (env_id env) ->
    processDocument options env st = (Returned document, st1) ->
    fst (deleteDocument (doc_id document) (doc_userId document) deletedAt st1)
    = Deleted (doc_id document) deletedAt
    /\ (forall query userId searchOptions,
          searchKnowledgeBase query userId searchOptions
            (snd (deleteDocument (doc_id document) (doc_userId document) deletedAt st1))
          = searchKnowledgeBase query userId searchOptions st)
    /\ (forall userId listOptions,
          getDocuments userId listOptions
            (snd (deleteDocument (doc_id document) (doc_userId document) deletedAt st1))
          = getDocuments userId listOptions st)
    /\ JsMap.get
         (files (snd (deleteDocument (doc_id document) (doc_userId document) deletedAt st1)))
         (doc_filePath document)
       = None.
Proof.
  intros st Hreach options env document st1 deletedAt Hfresh H.
  pose proof (reachable_files_nodup st Hreach) as Hfiles.
  apply reachable_consistent in Hreach. pose proof Hreach as [_ Hindex _].
  unfold processDocument in H.
  destruct (extractText env (files st) (po_file options)) as [text|e]; [|discriminate].
  inversion H; subst. clear H.
  set (document := newDocument options env text) in *.
  set (st1 := indexDocument document (saveDocument document st)).
  assert (Hfresh' : freshId st (doc_id document)) by exact Hfresh.
  pose proof (freshId_lookup st _ Hfresh') as Hnone.
  assert (Hdocs : forall userId,
            userDocsOf st1 userId = userDocsOf (saveDocument document st) userId).
  { intros userId. unfold st1, userDocsOf. now rewrite documents_ingest. }
  assert (Hfound : JsMap.get (userDocsOf st1 (doc_userId document)) (doc_id document)
                   = Some document).
  { rewrite Hdocs.
    change (lookupDoc (saveDocument document st) (doc_userId document) (doc_id document)
            = Some document).
    rewrite lookup_saveDocument. now rewrite !String.eqb_refl. }
  unfold deleteDocument. rewrite Hfound. cbn [fst snd].
  cbn [removeFromIndex documents documentIndex nextAddr files].
  assert (Hindex0 : indexOk (saveDocument document st)).
  { destruct Hindex as [H1 H2]. constructor; assumption. }
  assert (Hindex1 : indexOk st1).
  { unfold st1, indexDocument.
    apply (indexTerms_counts document _ (saveDocument document st)
             (fun u d t => countRefs (entryOf (saveDocument document st) t) d u) Hindex0).
    intros t d u. reflexivity. }
  set (st2 := {| documents := JsMap.set (documents st1) (doc_userId document)
                                (JsMap.delete (userDocsOf st1 (doc_userId document))
                                              (doc_id document));
                 documentIndex := removeFromEntries (doc_id document) (documentIndex st1);
                 nextAddr := nextAddr st1;
                 files := unlink (files st1) (doc_filePath document) |}).
  assert (Hentries : forall term, entryOf st2 term = entryOf st term).
  { intros term.
    change (entryOf st2 term) with (entryOf (removeFromIndex (doc_id document) st1) term).
    rewrite entryOf_removeFromIndex by assumption.
    destruct (entryOf_indexTerms document (extractSearchTerms (doc_extractedText document))
                (saveDocument document st) term Hindex0) as [added [E Hadded]].
    unfold st1, indexDocument. rewrite E.
    change (entryOf (saveDocument document st) term) with (entryOf st term).
    rewrite filter_app, filter_all, filter_none.
    - apply app_nil_r.
    - eapply Forall_impl; [|exact Hadded]. cbv beta.
      intros r ->. now rewrite String.eqb_refl.
    - now apply fresh_not_indexed. }
  assert (Hview : forall userId, userDocsOf st2 userId = userDocsOf st userId).
  { intros userId. unfold st2, userDocsOf at 1. cbn [documents].
    eqb_cases userId (doc_userId document) Hu.
    - subst userId. rewrite get_set_same, Hdocs, userDocsOf_saveDocument.
      rewrite String.eqb_refl. apply delete_set_fresh. apply Hnone.
    - rewrite get_set_other by congruence.
      fold (userDocsOf st1 userId). rewrite Hdocs, userDocsOf_saveDocument.
      apply String.eqb_neq in Hu. now rewrite Hu. }
  repeat split.
  - intros query userId searchOptions. apply search_same_view; auto.
  - intros userId listOptions. apply getDocuments_same_view; auto.
  - apply get_delete_same. unfold st1. rewrite files_ingest. exact Hfiles.
Qed.

Lemma X12_witness :
  fst (deleteDocument (doc_id Examples.docC) (doc_userId Examples.docC)
                      "2024-01-03T00:00:00.000Z" Examples.kbABC)
  = Deleted (doc_id Examples.docC) "2024-01-03T00:00:00.000Z"
  /\ searchKnowledgeBase "apple cherry" "u1" noOptions
       (snd (deleteDocument (doc_id Examples.docC) (doc_userId Examples.docC)
                            "2024-01-03T00:00:00.000Z" Examples.kbABC))
     = searchKnowledgeBase "apple cherry" "u1" noOptions
         (Examples.upload "/uploads/3_c.txt" "apple cherry" Examples.kbAB).
Proof.
  destruct (X12_ingest_then_delete_restores_answers
              (Examples.upload "/uploads/3_c.txt" "apple cherry" Examples.kbAB)
              (reach_upload _ _ _ reachable_kbAB)
              (Examples.optionsFor "c.txt" "/uploads/3_c.txt" "u2")
              (Examples.envFor "doc_c") Examples.docC Examples.kbABC
              "2024-01-03T00:00:00.000Z")
    as [H1 [H2 _]].
  - apply freshIdb_sound. reflexivity.
  - reflexivity.
  - split; [exact H1 | apply H2].
Defined.

Lemma matchCount_after_delete st documentId userId other terms :
  indexOk st ->
  other <> documentId ->
  matchCount (removeFromIndex documentId st) userId other terms
  = matchCount st userId other terms.
Proof.
  intros Hok Hne. unfold matchCount. f_equal. apply map_ext. intros term.
  rewrite entryOf_removeFromIndex by assumption.
  rewrite countRefs_filter_other.
  apply String.eqb_neq in Hne. now rewrite Hne.
Qed.

Lemma matchCount_deleted st documentId userId terms :
  indexOk st ->
  matchCount (removeFromIndex documentId st) userId documentId terms = 0.
Proof.
  intros Hok. unfold matchCount. induction terms as [|t terms IH]; simpl; auto.
  rewrite IH, entryOf_removeFromIndex by assumption.
  rewrite countRefs_filter_other. now rewrite String.eqb_refl.
Qed.

(** X13. A successful deletion, in a state the service reaches: the
    document is no longer found under its owner, a second deletion
    answers "not found" and changes nothing, every other document is
    found as before and keeps its score in every search, the deleted
    identifier is no candidate of any search of any owner, and the file
    of the document is gone. *)
Theorem X13_delete_removes_one_document :
  forall (st : KB), reachable st ->
  forall (documentId userId deletedAt deleted : string) (st' : KB),
    deleteDocument documentId userId deletedAt st = (Deleted deleted deletedAt, st') ->
    lookupDoc st' userId documentId = None
    /\ (forall again,
          deleteDocument documentId userId again st'
          = (DeleteFailed "Document not found", st'))
    /\ (forall owner other,
          owner <> userId \/ other <> documentId ->
          lookupDoc st' owner other = lookupDoc st owner other)
    /\ (forall owner terms other,
          other <> documentId ->
          JsMap.get (documentScores st' owner terms) other
          = JsMap.get (documentScores st owner terms) other)
    /\ (forall owner terms, JsMap.get (documentScores st' owner terms) documentId = None)
    /\ (exists document,
          lookupDoc st userId documentId = Some document
          /\ JsMap.get (files st') (doc_filePath document) = None).
Proof.
  intros st Hreach documentId userId deletedAt deleted st' H.
  pose proof (reachable_files_nodup st Hreach) as Hfiles.
  apply reachable_consistent in Hreach. destruct Hreach as [[_ _ Hnd] Hindex _].
  unfold deleteDocument in H.
  destruct (JsMap.get (userDocsOf st userId) documentId) as [document|] eqn:Eg;
    [|discriminate].
  cbn [removeFromIndex documents documentIndex nextAddr files] in H.
  inversion H; subst deleted st'. clear H.
  assert (Hlook : forall owner other,
            lookupDoc
              {| documents := JsMap.set (documents st) userId
                                (JsMap.delete (userDocsOf st userId) documentId);
                 documentIndex := removeFromEntries documentId (documentIndex st);
                 nextAddr := nextAddr st;
                 files := unlink (files st) (doc_filePath document) |} owner other
            = if String.eqb owner userId && String.eqb other documentId
              then None else lookupDoc st owner other).
  { intros owner other. apply lookup_deleted. apply Hnd. }
  assert (Hgone : lookupDoc
              {| documents := JsMap.set (documents st) userId
                                (JsMap.delete (userDocsOf st userId) documentId);
                 documentIndex := removeFromEntries documentId (documentIndex st);
                 nextAddr := nextAddr st;
                 files := unlink (files st) (doc_filePath document) |} userId documentId
            = None).
  { rewrite Hlook. now rewrite !String.eqb_refl. }
  split; [exact Hgone|]. split; [|split; [|split; [|split]]].
  - intros again. unfold deleteDocument. unfold lookupDoc in Hgone. now rewrite Hgone.
  - intros owner other Hne. rewrite Hlook.
    destruct (String.eqb owner userId && String.eqb other documentId) eqn:E; auto.
    apply andb_true_iff in E. destruct E as [E1 E2].
    apply String.eqb_eq in E1, E2. subst. destruct Hne; congruence.
  - intros owner terms other Hne. rewrite !get_documentScores.
    change (matchCount _ owner other terms)
      with (matchCount (removeFromIndex documentId st) owner other terms) at 1.
    now rewrite matchCount_after_delete.
  - intros owner terms. rewrite get_documentScores.
    change (matchCount _ owner documentId terms)
      with (matchCount (removeFromIndex documentId st) owner documentId terms).
    now rewrite matchCount_deleted.
  - exists document. split; [exact Eg|]. simpl. now apply get_delete_same.
Qed.

Lemma X13_witness :
  lookupDoc Examples.kbB "u1" "doc_a" = None
  /\ JsMap.get (documentScores Examples.kbB "u1" ["apple"]) "doc_b"
     = JsMap.get (documentScores Examples.kbAB "u1" ["apple"]) "doc_b".
Proof.
  destruct (X13_delete_removes_one_document Examples.kbAB reachable_kbAB
              "doc_a" "u1" "2024-01-02T00:00:00.000Z" "doc_a" Examples.kbB eq_refl)
    as [H1 [_ [_ [H4 _]]]].
  split; [exact H1|]. apply H4. discriminate.
Defined.

(* ================================================================== *)
(** ** Listing *)

Lemma insert_perm {A : Type} (cmp : A -> A -> Z) x l :
  Permutation (JsArray.insert cmp x l) (x :: l).
Proof.
  induction l as [|y l IH]; simpl; auto.
  destruct (cmp x y <=? 0)%Z; auto.
  rewrite IH. apply perm_swap.
Qed.

(** The sort rearranges and neither drops nor repeats. *)
Lemma sort_perm {A : Type} (cmp : A -> A -> Z) l :
  Permutation (JsArray.sort cmp l) l.
Proof.
  induction l as [|x l IH]; simpl; auto.
  rewrite insert_perm. now constructor.
Qed.

Lemma slice_length_le {A : Type} (l : list A) (from size : Z) :
  (0 <= from)%Z -> (0 <= size)%Z ->
  (Z.of_nat (List.length (JsArray.slice l from (from + size))) <= size)%Z.
Proof.
  intros Hfrom Hsize. unfold JsArray.slice.
  replace (from <? 0)%Z with false by (symmetry; apply Z.ltb_ge; lia).
  replace (from + size <? 0)%Z with false by (symmetry; apply Z.ltb_ge; lia).
  pose proof (firstn_le_length
                (Z.to_nat (Z.min (from + size) (Z.of_nat (List.length l))
                           - Z.min from (Z.of_nat (List.length l))))
                (skipn (Z.to_nat (Z.min from (Z.of_nat (List.length l)))) l)).
  lia.
Qed.

Lemma map_slice {A B : Type} (f : A -> B) (l : list A) (from to : Z) :
  List.map f (JsArray.slice l from to) = JsArray.slice (List.map f l) from to.
Proof.
  unfold JsArray.slice. now rewrite length_map, skipn_map, firstn_map.
Qed.

Lemma In_values_get {V : Type} (m : JsMap.t V) v :
  NoDup (JsMap.keys m) -> In v (JsMap.values m) -> exists k, JsMap.get m k = Some v.
Proof.
  intros Hnd Hin. unfold JsMap.values in Hin. apply in_map_iff in Hin.
  destruct Hin as [[k v'] [<- Hin]]. exists k. now apply In_get_NoDup.
Qed.

(** The documents a listing sorts: the owner's, of the category asked. *)
Lemma listed_candidates userId options st entry :
  In entry (getDocuments userId options st) ->
  exists doc,
    In doc (JsMap.values (userDocsOf st userId))
    /\ entry = cleanedDoc doc
    /\ (forall category,
          lo_category options = Some category -> category <> EmptyString ->
          doc_category doc = category).
Proof.
  unfold getDocuments. intros H. apply in_map_iff in H.
  destruct H as [doc [<- Hin]]. exists doc.
  apply slice_In in Hin. apply sort_In in Hin.
  destruct (lo_category options) as [c|] eqn:Ec.
  - destruct (JsString.truthy c) eqn:Et.
    + apply filter_In in Hin. destruct Hin as [Hin Hc]. apply String.eqb_eq in Hc.
      repeat split; auto. intros category [= <-] _. exact Hc.
    + repeat split; auto. intros category [= <-] Hne.
      destruct c; [contradiction|discriminate].
  - repeat split; auto. discriminate.
Qed.

(** X14. In every state the service reaches, every entry of a listing is
    the list view of a document stored under the owner asked for and
    carrying that owner's identifier, of the category asked for when one
    is given; for a page number of at least 1 and a page size that is not
    negative the listing has at most page-size entries. *)
Theorem X14_listing_is_owner_scoped_and_bounded :
  forall (st : KB), reachable st ->
  forall (userId : string) (options : ListOptions),
    (forall entry,
        In entry (getDocuments userId options st) ->
        exists documentId doc,
          lookupDoc st userId documentId = Some doc
          /\ doc_userId doc = userId
          /\ entry = cleanedDoc doc
          /\ (forall category,
                lo_category options = Some category -> category <> EmptyString ->
                doc_category doc = category))
    /\ (forall page limit,
          orDefault (lo_page options) (JsNum.Num 1) = JsNum.Num page ->
          orDefault (lo_limit options) (JsNum.Num 20) = JsNum.Num limit ->
          (1 <= page)%Z -> (0 <= limit)%Z ->
          (Z.of_nat (List.length (getDocuments userId options st)) <= limit)%Z).
Proof.
  intros st Hreach userId options.
  apply reachable_consistent in Hreach. destruct Hreach as [[Hkeys _ Hnd] _ _].
  split.
  - intros entry Hin.
    destruct (listed_candidates userId options st entry Hin) as [doc [Hdoc [He Hc]]].
    destruct (In_values_get _ doc (Hnd userId) Hdoc) as [documentId Hget].
    exists documentId, doc. destruct (Hkeys userId documentId doc Hget). auto.
  - intros page limit Hp Hl Hpage Hlimit. unfold getDocuments.
    rewrite Hp, Hl, length_map. cbn [JsNum.sub JsNum.mul JsNum.add JsNum.toInteger].
    apply slice_length_le; nia.
Qed.

Lemma X14_witness :
  (Z.of_nat (List.length
               (getDocuments "u1"
                  {| lo_page := Some (JsNum.Num 2); lo_limit := Some (JsNum.Num 1);
                     lo_category := Some "general"; lo_sortBy := Some "title";
                     lo_sortOrder := Some "asc" |} Examples.kbABC)) <= 1)%Z.
Proof.
  destruct (X14_listing_is_owner_scoped_and_bounded Examples.kbABC reachable_kbABC "u1"
              {| lo_page := Some (JsNum.Num 2); lo_limit := Some (JsNum.Num 1);
                 lo_category := Some "general"; lo_sortBy := Some "title";
                 lo_sortOrder := Some "asc" |}) as [_ H].
  apply (H 2%Z 1%Z); [reflexivity | reflexivity | lia | lia].
Defined.

(** X15. Pages are slices of the whole listing: with [total] at least the
    number of the owner's documents, the listing of page [page] with page
    size [limit] is the slice from [(page - 1) * limit] to
    [(page - 1) * limit + limit] of the listing that asks for everything
    at once, under the same category and order; and without a category
    that whole listing is the list views of all the owner's documents,
    each once, in some order. *)
Theorem X15_pages_slice_the_whole_listing :
  forall (userId : string) (options : ListOptions) (st : KB) (page limit total : Z),
    lo_page options = Some (JsNum.Num page) ->
    lo_limit options = Some (JsNum.Num limit) ->
    (Z.of_nat (List.length (JsMap.values (userDocsOf st userId))) <= total)%Z ->
    getDocuments userId options st
    = JsArray.slice (getDocuments userId (wholeList options total) st)
                    ((page - 1) * limit) ((page - 1) * limit + limit)
    /\ (lo_category options = None ->
        Permutation (getDocuments userId (wholeList options total) st)
                    (List.map cleanedDoc (JsMap.values (userDocsOf st userId)))).
Proof.
  intros userId options st page limit total Hp Hl Htotal.
  unfold getDocuments, wholeList.
  cbn [lo_page lo_limit lo_category lo_sortBy lo_sortOrder orDefault].
  rewrite Hp, Hl. cbn [orDefault JsNum.sub JsNum.mul JsNum.add JsNum.toInteger].
  set (docArray :=
         match lo_category options with
         | Some category =>
             if JsString.truthy category
             then filter (fun doc => String.eqb (doc_category doc) category)
                         (JsMap.values (userDocsOf st userId))
             else JsMap.values (userDocsOf st userId)
         | None => JsMap.values (userDocsOf st userId)
         end).
  set (sorted := JsArray.sort
                   (compareDocs (orDefault (lo_sortBy options) "createdAt")
                                (orDefault (lo_sortOrder options) "desc")) docArray).
  assert (Hlen : (Z.of_nat (List.length sorted) <= total)%Z).
  { unfold sorted. rewrite sort_length. unfold docArray.
    destruct (lo_category options) as [c|]; [destruct (JsString.truthy c)|]; try lia.
    pose proof (filter_length_le (fun doc => String.eqb (doc_category doc) c)
                  (JsMap.values (userDocsOf st userId))). lia. }
  replace ((1 - 1) * total)%Z with 0%Z by lia.
  rewrite (slice_all sorted (0 + total)) by lia.
  split.
  - apply map_slice.
  - intros Hnone. apply Permutation_map. unfold sorted, docArray. rewrite Hnone.
    apply sort_perm.
Qed.

Lemma X15_witness :
  getDocuments "u1"
    {| lo_page := Some (JsNum.Num 2); lo_limit := Some (JsNum.Num 1);
       lo_category := None; lo_sortBy := Some "title"; lo_sortOrder := Some "asc" |}
    Examples.kbABC
  = JsArray.slice
      (getDocuments "u1"
         (wholeList {| lo_page := Some (JsNum.Num 2); lo_limit := Some (JsNum.Num 1);
                       lo_category := None; lo_sortBy := Some "title";
                       lo_sortOrder := Some "asc" |} 5)
         Examples.kbABC)
      ((2 - 1) * 1) ((2 - 1) * 1 + 1).
Proof.
  destruct (X15_pages_slice_the_whole_listing "u1"
              {| lo_page := Some (JsNum.Num 2); lo_limit := Some (JsNum.Num 1);
                 lo_category := None; lo_sortBy := Some "title"; lo_sortOrder := Some "asc" |}
              Examples.kbABC 2 1 5 eq_refl eq_refl) as [H _].
  - vm_compute. discriminate.
  - exact H.
Defined.

(* ================================================================== *)
(** ** Candidates and results *)

Lemma NoDup_firstn {A : Type} n (l : list A) : NoDup l -> NoDup (firstn n l).
Proof.
  intros H. rewrite <- (firstn_skipn n l) in H. now apply NoDup_app_remove_r in H.
Qed.

Lemma NoDup_skipn {A : Type} n (l : list A) : NoDup l -> NoDup (skipn n l).
Proof.
  intros H. rewrite <- (firstn_skipn n l) in H. now apply NoDup_app_remove_l in H.
Qed.

Lemma NoDup_keys_sortedDocs st userId terms options :
  NoDup (List.map fst (sortedDocs st userId terms options)).
Proof.
  unfold sortedDocs. rewrite map_slice. unfold JsArray.slice.
  apply NoDup_firstn, NoDup_skipn.
  apply (Permutation_NoDup (l := List.map fst (documentScores st userId terms))).
  - apply Permutation_map. symmetry. apply sort_perm.
  - apply NoDup_keys_documentScores.
Qed.

Lemma result_ids_from_candidates userDocs options terms candidates documentId :
  (forall key doc, JsMap.get userDocs key = Some doc -> doc_id doc = key) ->
  In documentId
     (List.map (fun r => sum_id (res_document r))
               (flat_map (resultFor userDocs options terms) candidates)) ->
  In documentId (List.map fst candidates).
Proof.
  intros Hkeys Hin. apply in_map_iff in Hin. destruct Hin as [r [<- Hr]].
  apply result_origin in Hr. destruct Hr as [entry [doc [Hin [Hget ->]]]].
  simpl. rewrite (Hkeys _ _ Hget). now apply in_map.
Qed.

Lemma result_category userDocs options terms candidates r category :
  In r (flat_map (resultFor userDocs options terms) candidates) ->
  so_category options = Some category ->
  category <> EmptyString ->
  sum_category (res_document r) = category.
Proof.
  intros Hr Hc Hne. apply in_flat_map in Hr. destruct Hr as [[documentId score] [_ Hr]].
  simpl in Hr. destruct (JsMap.get userDocs documentId) as [doc|]; [|contradiction].
  unfold categoryExcludes in Hr. rewrite Hc in Hr.
  destruct category as [|c category]; [contradiction|]. simpl in Hr.
  destruct (String.eqb (doc_category doc) (String c category)) eqn:E; simpl in Hr.
  - destruct Hr as [<-|[]]. simpl. now apply String.eqb_eq.
  - contradiction.
Qed.

(** X16. In every state the service reaches, no document is returned
    twice by a search and every result has a score of at least 1; in any
    state, when a category is asked for, every result is of that
    category. *)
Theorem X16_results_distinct_and_positive :
  forall (st : KB), reachable st ->
  forall (query userId : string) (options : SearchOptions),
    NoDup (List.map (fun r => sum_id (res_document r))
                    (searchKnowledgeBase query userId options st))
    /\ Forall (fun r => (1 <= res_score r)%Z) (searchKnowledgeBase query userId options st)
    /\ (forall category,
          so_category options = Some category -> category <> EmptyString ->
          Forall (fun r => sum_category (res_document r) = category)
                 (searchKnowledgeBase query userId options st)).
Proof.
  intros st Hreach query userId options.
  apply reachable_consistent in Hreach. destruct Hreach as [[Hkeys _ _] _ _].
  assert (Hk : forall key doc, JsMap.get (userDocsOf st userId) key = Some doc ->
                               doc_id doc = key).
  { intros key doc Hget. now destruct (Hkeys userId key doc Hget). }
  split.
  - unfold searchKnowledgeBase.
    pose proof (NoDup_keys_sortedDocs st userId (extractSearchTerms query) options) as Hnd.
    induction (sortedDocs st userId (extractSearchTerms query) options)
      as [|entry candidates IH]; simpl; [constructor|].
    inversion Hnd as [|? ? Hnotin Hnd']; subst. rewrite map_app.
    destruct (resultFor_cases (userDocsOf st userId) options (extractSearchTerms query) entry)
      as [E|[doc [Hget E]]]; rewrite E; simpl; auto.
    constructor; auto. rewrite (Hk _ _ Hget). intros Hin. apply Hnotin.
    eapply result_ids_from_candidates; eauto.
  - split.
    + apply Forall_forall. intros r Hr.
      destruct (result_score_accumulated st query userId options r Hr)
        as [d [doc [_ [_ Hget]]]].
      rewrite get_documentScores in Hget.
      destruct (matchCount st userId d (extractSearchTerms query)); simpl in Hget;
        inversion Hget; lia.
    + intros category Hc Hne. apply Forall_forall. intros r Hr.
      unfold searchKnowledgeBase in Hr. eapply result_category; eauto.
Qed.

Lemma X16_witness :
  NoDup (List.map (fun r => sum_id (res_document r))
                  (searchKnowledgeBase "apple apple banana" "u1" noOptions Examples.kbABC)).
Proof.
  destruct (X16_results_distinct_and_positive Examples.kbABC reachable_kbABC
              "apple apple banana" "u1" noOptions) as [H _].
  exact H.
Defined.

(* ================================================================== *)
(** ** The chat command and the file names of uploads *)

Import ChatRoutes.

(** X17. The knowledge command of the chat searches for the words after
    "search", joined by spaces, with the default options, and always
    succeeds: with no word after "search" it answers no results, where the
    search route answers 400; for a query that is not empty it answers the
    results the route answers for its default limit and no category. Any
    other first word, or none, gets the usage message. *)
Theorem X17_chat_search_agrees_with_route :
  forall (words : list string) (userId timestamp : string) (st : KB),
    handleKnowledgeCommand ("search" :: words) userId st
    = KnowledgeSearch
        (searchKnowledgeBase (JsString.join " " words) userId noOptions st)
        (JsString.join " " words)
    /\ handleKnowledgeCommand ["search"] userId st = KnowledgeSearch [] EmptyString
    /\ (JsString.join " " words <> EmptyString ->
        exists results,
          handleKnowledgeCommand ("search" :: words) userId st
          = KnowledgeSearch results (JsString.join " " words)
          /\ getSearch (Some (JsString.join " " words)) (JsNum.Num 10) None userId timestamp st
             = Status200 (JsString.join " " words) results
                         (Z.of_nat (List.length results)) timestamp)
    /\ (forall action,
          action <> "search" ->
          handleKnowledgeCommand (action :: words) userId st
          = CommandError "Knowledge commands: search <query>")
    /\ handleKnowledgeCommand [] userId st
       = CommandError "Knowledge commands: search <query>".
Proof.
  intros words userId timestamp st.
  split; [reflexivity|]. split; [reflexivity|]. split; [|split; [|reflexivity]].
  - intros Hne.
    exists (searchKnowledgeBase (JsString.join " " words) userId noOptions st).
    split; [reflexivity|].
    unfold getSearch. destruct (JsString.join " " words); [contradiction|reflexivity].
  - intros action Hne. unfold handleKnowledgeCommand.
    apply String.eqb_neq in Hne. now rewrite Hne.
Qed.

Lemma X17_witness :
  exists results,
    handleKnowledgeCommand ["search"; "apple"; "banana"] "u1" Examples.kbABC
    = KnowledgeSearch results (JsString.join " " ["apple"; "banana"])
    /\ getSearch (Some (JsString.join " " ["apple"; "banana"])) (JsNum.Num 10) None "u1"
                 "2024-01-02T00:00:00.000Z" Examples.kbABC
       = Status200 (JsString.join " " ["apple"; "banana"]) results
                   (Z.of_nat (List.length results)) "2024-01-02T00:00:00.000Z".
Proof.
  destruct (X17_chat_search_agrees_with_route ["apple"; "banana"] "u1"
              "2024-01-02T00:00:00.000Z" Examples.kbABC) as [_ [_ [H _]]].
  apply H. discriminate.
Defined.

Lemma digits_are_file_name_chars d :
  allChars isFileNameChar (NilEmpty.string_of_uint d) = true.
Proof.
  induction d; simpl; auto.
Qed.

Lemma cleanName_chars originalname :
  allChars (fun c => isFileNameChar c || (c =? "_")%char) (cleanName originalname) = true.
Proof.
  unfold cleanName. induction originalname as [|c s IH]; simpl; auto.
  rewrite IH, andb_true_r.
  destruct (isFileNameChar c) eqn:E; simpl; [now rewrite E|reflexivity].
Qed.

Lemma cleanName_length originalname :
  String.length (cleanName originalname) = String.length originalname.
Proof.
  unfold cleanName. induction originalname as [|c s IH]; simpl; congruence.
Qed.

Lemma cleanName_idempotent originalname :
  cleanName (cleanName originalname) = cleanName originalname.
Proof.
  unfold cleanName. induction originalname as [|c s IH]; simpl; auto.
  rewrite IH. f_equal.
  destruct (isFileNameChar c) eqn:E; [now rewrite E|reflexivity].
Qed.

Lemma file_name_char_no_separator c :
  (isFileNameChar c || (c =? "_")%char) = true -> isPathSeparator c = false.
Proof.
  destruct c as [[] [] [] [] [] [] [] []]; vm_compute; auto; discriminate.
Qed.

(** X18. The name an upload is stored under is the decimal time stamp, an
    underscore and the cleaned original name; the cleaned name is as long
    as the original one, and the whole name is made of letters, digits,
    dots, hyphens and underscores only, so it holds no path separator,
    whatever the original name was. *)
Theorem X18_stored_file_name_is_safe :
  forall (timestamp : N) (originalname : string),
    String.length (cleanName originalname) = String.length originalname
    /\ allChars (fun c => isFileNameChar c || (c =? "_")%char)
                (storageFilename timestamp originalname) = true
    /\ allChars (fun c => negb (isPathSeparator c))
                (storageFilename timestamp originalname) = true
    /\ cleanName (cleanName originalname) = cleanName originalname.
Proof.
  intros timestamp originalname.
  assert (Hall : allChars (fun c => isFileNameChar c || (c =? "_")%char)
                          (storageFilename timestamp originalname) = true).
  { unfold storageFilename. rewrite allChars_app. apply andb_true_iff. split.
    - pose proof (digits_are_file_name_chars (N.to_uint timestamp)) as Hd.
      revert Hd. apply allChars_impl. intros c ->. reflexivity.
    - change ("_" ++ cleanName originalname)%string
        with (String "_" (cleanName originalname)).
      rewrite allChars_cons, cleanName_chars. reflexivity. }
  split; [apply cleanName_length|]. split; [exact Hall|]. split.
  - revert Hall. apply allChars_impl. intros c Hc.
    now rewrite (file_name_char_no_separator c Hc).
  - apply cleanName_idempotent.
Qed.

(* ================================================================== *)
(** ** The keys of the index *)

Lemma get_indexTerm_cases doc st term t :
  indexOk st ->
  JsMap.get (documentIndex (indexTerm doc st term)) t
  = if String.eqb t term then Some (entryOf st t ++ [newRef doc st])
    else JsMap.get (documentIndex st) t.
Proof.
  intros [_ Haddr]. unfold entryOf, indexTerm. cbn [documentIndex].
  unfold JsMap.has.
  destruct (JsMap.get (documentIndex st) term) as [docSet|] eqn:Eg; cbn [negb].
  - rewrite Eg. rewrite add_fresh by (apply (Haddr term docSet Eg)).
    eqb_cases t term Ht.
    + subst. now rewrite get_set_same, Eg.
    + now rewrite get_set_other by congruence.
  - rewrite get_set_same. simpl RefSet.add.
    eqb_cases t term Ht.
    + subst. now rewrite get_set_same, Eg.
    + now rewrite !get_set_other by congruence.
Qed.

Lemma indexTerms_no_empty_entry doc terms :
  forall st,
    indexOk st ->
    (forall term docSet, JsMap.get (documentIndex st) term = Some docSet -> docSet <> []) ->
    forall term docSet,
      JsMap.get (documentIndex (fold_left (indexTerm doc) terms st)) term = Some docSet ->
      docSet <> [].
Proof.
  induction terms as [|t terms IH]; intros st Hok Hne; simpl; auto.
  apply IH; [now apply indexOk_indexTerm|].
  intros term docSet. rewrite get_indexTerm_cases by assumption.
  destruct (String.eqb term t).
  - intros [= <-]. destruct (entryOf st term); discriminate.
  - apply Hne.
Qed.

Lemma reachable_no_empty_entry st :
  reachable st ->
  forall term docSet, JsMap.get (documentIndex st) term = Some docSet -> docSet <> [].
Proof.
  induction 1 as [|st path content Hr IH|st options env Hr IH Hfresh
                  |st documentId userId deletedAt Hr IH].
  - discriminate.
  - exact IH.
  - unfold processDocument.
    destruct (extractText env (files st) (po_file options)) as [text|e]; cbn [snd];
      [|exact IH].
    unfold indexDocument. apply indexTerms_no_empty_entry; [|exact IH].
    apply reachable_consistent in Hr. destruct Hr as [_ [H1 H2] _].
    constructor; assumption.
  - unfold deleteDocument.
    destruct (JsMap.get (userDocsOf st userId) documentId); cbn [snd]; [|exact IH].
    intros term docSet H. cbn in H. apply get_In in H.
    now apply removeFromEntries_In in H.
Qed.

(** X19. In every state the service reaches, no entry of the index is
    empty, and every key of the index is a normalized term (three
    characters or more, lower-case letters, digits and underscores, no
    stop word) of the text of some stored document. *)
Theorem X19_index_keys_are_terms_of_documents :
  forall (st : KB), reachable st ->
  forall (term : string) (docSet : list DocRef),
    JsMap.get (documentIndex st) term = Some docSet ->
    docSet <> []
    /\ (exists userId documentId doc,
          lookupDoc st userId documentId = Some doc
          /\ In term (extractSearchTerms (doc_extractedText doc)))
    /\ 3 <= String.length term
    /\ allChars isTermChar term = true
    /\ isStopWord term = false.
Proof.
  intros st Hreach term docSet Hget.
  pose proof (reachable_no_empty_entry st Hreach term docSet Hget) as Hne.
  apply reachable_consistent in Hreach. destruct Hreach as [_ _ Hrefs].
  destruct docSet as [|ref rest]; [contradiction|].
  assert (Hpos : 0 < countRefs (entryOf st term) (ref_documentId ref) (ref_userId ref)).
  { apply countRefs_pos_In. exists ref. unfold entryOf. rewrite Hget.
    split; [now left|auto]. }
  rewrite Hrefs in Hpos. unfold storedCount in Hpos.
  destruct (lookupDoc st (ref_userId ref) (ref_documentId ref)) as [doc|] eqn:El; [|lia].
  assert (Hterm : In term (extractSearchTerms (doc_extractedText doc)))
    by now apply (count_occ_In string_dec).
  pose proof (terms_shape (doc_extractedText doc)) as Hshape.
  rewrite Forall_forall in Hshape. destruct (Hshape term Hterm) as [H1 [H2 H3]].
  split; [discriminate|]. split; [eauto|]. repeat split; auto.
Qed.

Lemma X19_witness :
  3 <= String.length "cherry"
  /\ allChars isTermChar "cherry" = true
  /\ isStopWord "cherry" = false.
Proof.
  destruct (X19_index_keys_are_terms_of_documents Examples.kbABC reachable_kbABC "cherry"
              [ {| ref_addr := 4; ref_documentId := "doc_c"; ref_userId := "u2";
                   ref_title := "c.txt"; ref_category := "general" |} ])
    as [_ [_ H]].
  - reflexivity.
  - exact H.
Defined.

(* ================================================================== *)
(** ** Every result comes with an excerpt *)

Lemma append_assoc3 (a b c : string) : ((a ++ b) ++ c = a ++ (b ++ c))%string.
Proof. induction a as [|x a IH]; simpl; congruence. Qed.

Lemma map_append (f : ascii -> ascii) a b :
  JsString.map f (a ++ b)%string = (JsString.map f a ++ JsString.map f b)%string.
Proof. induction a as [|x a IH]; simpl; congruence. Qed.

(** A stretch of a stretch is a stretch. *)
Lemma includes_stretch s w t a b x y :
  s = (a ++ w ++ b)%string -> w = (x ++ t ++ y)%string -> JsString.includes s t = true.
Proof.
  intros -> ->.
  replace (a ++ (x ++ t ++ y) ++ b)%string with ((a ++ x) ++ t ++ (y ++ b))%string.
  - apply includes_middle.
  - now rewrite !append_assoc3.
Qed.

Lemma join_stretch l w :
  In w l -> exists a b, JsString.join " " l = (a ++ w ++ b)%string.
Proof.
  unfold JsString.join. induction l as [|x l IH]; [contradiction|].
  intros Hin. destruct l as [|y l].
  - destruct Hin as [->|[]]. exists EmptyString, EmptyString. simpl.
    clear. induction w; simpl; congruence.
  - change (concat " " (x :: y :: l)) with (x ++ " " ++ concat " " (y :: l))%string.
    destruct Hin as [->|Hin].
    + exists EmptyString, (" " ++ concat " " (y :: l))%string. reflexivity.
    + destruct (IH Hin) as [a [b E]]. rewrite E.
      exists (x ++ " " ++ a)%string, b. now rewrite !append_assoc3.
Qed.

Lemma split_head_of_prefix p rest :
  allChars (fun c => negb (JsString.isWhiteSpace c)) p = true ->
  exists y others, JsString.split (p ++ rest)%string = (p ++ y)%string :: others.
Proof.
  induction p as [|c p IH]; intros Hp.
  - simpl. destruct (JsString.split rest) as [|y others] eqn:E.
    + destruct (split_not_nil rest E).
    + exists y, others. reflexivity.
  - simpl in Hp. apply andb_true_iff in Hp. destruct Hp as [Hc Hp].
    apply negb_true_iff in Hc. destruct (IH Hp) as [y [others E]].
    simpl. rewrite Hc, E. exists y, others. reflexivity.
Qed.

Lemma split_tail_pieces c s w :
  In w (JsString.split s) ->
  In w (JsString.split (String c s))
  \/ exists others, JsString.split s = w :: others
                    /\ JsString.isWhiteSpace c = false
                    /\ JsString.split (String c s) = String c w :: others.
Proof.
  intros Hin. simpl. destruct (JsString.isWhiteSpace c) eqn:Ec.
  - left. destruct (JsString.startsWithSpace s); [assumption|now right].
  - destruct (JsString.split s) as [|x xs]; [contradiction|].
    destruct Hin as [->|Hin].
    + right. exists xs. auto.
    + left. now right.
Qed.

(** A stretch of a text without white space lies within one word. *)
Lemma stretch_in_word a p b :
  allChars (fun c => negb (JsString.isWhiteSpace c)) p = true ->
  exists w x y, In w (JsString.split (a ++ p ++ b)%string) /\ w = (x ++ p ++ y)%string.
Proof.
  intros Hp. induction a as [|c a IH].
  - destruct (split_head_of_prefix p b Hp) as [y [others E]].
    exists (p ++ y)%string, EmptyString, y. simpl append. rewrite E. split; [now left|auto].
  - destruct IH as [w [x [y [Hin Hw]]]].
    change (String c a ++ p ++ b)%string with (String c (a ++ p ++ b)%string).
    destruct (split_tail_pieces c _ w Hin) as [H|[others [E [Hc E']]]].
    + exists w, x, y. auto.
    + exists (String c w), (String c x), y. rewrite E'. split; [now left|].
      rewrite Hw. reflexivity.
Qed.

Lemma normalizing_keeps_space c :
  JsString.isWordChar
    (if JsString.isWordChar (JsString.toLowerChar c)
        || JsString.isWhiteSpace (JsString.toLowerChar c)
     then JsString.toLowerChar c else " "%char) = true ->
  JsString.isWhiteSpace c = false.
Proof.
  destruct c as [[] [] [] [] [] [] [] []]; vm_compute; auto; discriminate.
Qed.

Lemma normalized_word_chars p0 :
  allChars JsString.isWordChar (JsString.replaceNonWord (JsString.toLowerCase p0)) = true ->
  allChars (fun c => negb (JsString.isWhiteSpace c)) p0 = true.
Proof.
  unfold JsString.replaceNonWord, JsString.toLowerCase.
  induction p0 as [|c p IH]; simpl; auto.
  intros H. apply andb_true_iff in H. destruct H as [Hc Hp].
  rewrite (normalizing_keeps_space c Hc). simpl. auto.
Qed.

(** A term of a text occurs, in lower case, within one of its words. *)
Lemma term_in_word text term :
  In term (extractSearchTerms text) ->
  exists w x y,
    In w (JsString.split text)
    /\ JsString.toLowerCase w = (x ++ term ++ y)%string.
Proof.
  intros Hin.
  destruct (terms_are_words text term Hin) as [Hw _].
  unfold extractSearchTerms in Hin.
  apply filter_In in Hin. destruct Hin as [Hin _].
  apply filter_In in Hin. destruct Hin as [Hin _].
  apply split_piece_stretch in Hin. destruct Hin as [a [b Hs]].
  apply map_app_inv in Hs. destruct Hs as [a1 [r1 [Hlow [_ Hr]]]].
  apply map_app_inv in Hr. destruct Hr as [p1 [b1 [-> [Hp _]]]].
  unfold JsString.toLowerCase in Hlow.
  apply map_app_inv in Hlow. destruct Hlow as [a0 [r0 [-> [_ Hr0]]]].
  apply map_app_inv in Hr0. destruct Hr0 as [p0 [b0 [-> [Hp0 _]]]].
  subst p1.
  assert (Hns : allChars (fun c => negb (JsString.isWhiteSpace c)) p0 = true).
  { apply normalized_word_chars. unfold JsString.toLowerCase, JsString.replaceNonWord in *.
    now rewrite Hp. }
  destruct (stretch_in_word a0 p0 b0 Hns) as [w [x [y [Hwin ->]]]].
  exists (x ++ p0 ++ y)%string, (JsString.toLowerCase x), (JsString.toLowerCase y).
  split; auto.
  unfold JsString.toLowerCase. rewrite !map_append. do 2 f_equal.
  apply (replaceNonWord_word_stretch _ term); auto.
Qed.

Lemma countMatchesFrom_nonneg pat s : forall skip, (0 <= JsString.countMatchesFrom pat skip s)%Z.
Proof.
  induction s as [|c s IH]; intros skip.
  - simpl. destruct skip; [destruct pat|]; lia.
  - cbn [JsString.countMatchesFrom]. destruct skip as [|k]; [|apply IH].
    destruct (prefix pat (String c s)); [|apply IH].
    pose proof (IH (String.length pat - 1)). lia.
Qed.

(** A pattern that occurs is counted at least once. *)
Lemma countMatches_pos s pat :
  pat <> EmptyString ->
  JsString.includes s pat = true ->
  (1 <= JsString.countMatches s pat)%Z.
Proof.
  intros Hne. unfold JsString.countMatches. induction s as [|c s IH].
  - simpl. destruct pat; [contradiction|discriminate].
  - rewrite includes_unfold. cbn [JsString.countMatchesFrom].
    destruct (prefix pat (String c s)).
    + intros _. pose proof (countMatchesFrom_nonneg pat s (String.length pat - 1)). lia.
    + simpl. exact IH.
Qed.

Lemma chunkScore_from terms chunk : forall acc,
  fold_left (fun a term =>
               (a + JsString.countMatches (JsString.toLowerCase (chunk_text chunk)) term)%Z)
            terms acc
  = (acc + chunkScore terms chunk)%Z.
Proof.
  unfold chunkScore. induction terms as [|t terms IH]; intros acc; simpl; [lia|].
  rewrite IH, (IH (JsString.countMatches _ t)). lia.
Qed.

Lemma chunkScore_nonneg terms chunk : (0 <= chunkScore terms chunk)%Z.
Proof.
  induction terms as [|t terms IH]; [unfold chunkScore; simpl; lia|].
  unfold chunkScore. simpl. rewrite chunkScore_from.
  pose proof (countMatchesFrom_nonneg t (JsString.toLowerCase (chunk_text chunk)) 0).
  unfold JsString.countMatches. lia.
Qed.

Lemma chunkScore_pos terms chunk term :
  In term terms ->
  term <> EmptyString ->
  JsString.includes (JsString.toLowerCase (chunk_text chunk)) term = true ->
  (1 <= chunkScore terms chunk)%Z.
Proof.
  induction terms as [|t terms IH]; [contradiction|].
  intros Hin Hne Hinc. unfold chunkScore. simpl. rewrite chunkScore_from.
  pose proof (chunkScore_nonneg terms chunk).
  pose proof (countMatchesFrom_nonneg t (JsString.toLowerCase (chunk_text chunk)) 0).
  unfold JsString.countMatches in *.
  destruct Hin as [->|Hin].
  - pose proof (countMatches_pos _ term Hne Hinc). unfold JsString.countMatches in *. lia.
  - specialize (IH Hin Hne Hinc). lia.
Qed.

(** Some chunk of a text ingested holds any given term of the text. *)
Lemma term_in_some_chunk text term :
  In term (extractSearchTerms text) ->
  exists chunk,
    In chunk (chunkText1000 text)
    /\ JsString.includes (JsString.toLowerCase (chunk_text chunk)) term = true.
Proof.
  intros Hterm.
  destruct (term_in_word text term Hterm) as [w [x [y [Hw Hlow]]]].
  destruct (terms_are_words text term Hterm) as [_ Hlen].
  assert (Hwne : w <> EmptyString).
  { intros ->. simpl in Hlow. destruct x; simpl in Hlow; [|discriminate].
    destruct term; [simpl in Hlen; lia|discriminate]. }
  destruct (In_nth_error _ _ Hw) as [n Hn].
  assert (Hat : wordAt (JsString.split text) (Z.of_nat n) = Some w).
  { unfold wordAt. replace (Z.of_nat n <? 0)%Z with false
      by (symmetry; apply Z.ltb_ge; lia). now rewrite Nat2Z.id. }
  pose proof (chunkText_1000_returns text) as Hret. unfold chunkText in Hret.
  destruct (chunkLoop_covers (JsString.split text) 1000 100 ltac:(lia)
              (split_pieces_no_space text) _ 0%Z _ ltac:(lia) Hret
              (Z.of_nat n) w ltac:(lia) Hat Hwne) as [chunk [Hin Hcov]].
  destruct (chunkLoop_chunks (JsString.split text) 1000 100 ltac:(lia) ltac:(lia)
              _ 0%Z _ ltac:(lia) Hret) as [Hall _].
  rewrite Forall_forall in Hall.
  destruct (Hall chunk Hin) as [Hstart [_ [Htext [Hcount _]]]].
  exists chunk. split; auto.
  assert (Hmem : In w (firstn (Z.to_nat (chunk_wordCount chunk))
                              (skipn (Z.to_nat (chunk_startIndex chunk))
                                     (JsString.split text)))).
  { unfold covers in Hcov.
    apply (nth_error_In _ (n - Z.to_nat (chunk_startIndex chunk))).
    rewrite nth_error_firstn.
    replace (n - Z.to_nat (chunk_startIndex chunk) <? Z.to_nat (chunk_wordCount chunk))
      with true by (symmetry; apply Nat.ltb_lt; lia).
    rewrite nth_error_skipn.
    replace (Z.to_nat (chunk_startIndex chunk) + (n - Z.to_nat (chunk_startIndex chunk)))
      with n by lia.
    exact Hn. }
  destruct (join_stretch _ w Hmem) as [a [b Hjoin]].
  rewrite <- Htext in Hjoin.
  eapply includes_stretch; [|exact Hlow].
  unfold JsString.toLowerCase. rewrite Hjoin, !map_append. reflexivity.
Qed.

(** A stored document carries the chunks of its text. *)
Lemma reachable_chunks st :
  reachable st ->
  forall userId documentId doc,
    lookupDoc st userId documentId = Some doc ->
    doc_chunks doc = chunkText1000 (doc_extractedText doc).
Proof.
  induction 1 as [|st path content Hr IH|st options env Hr IH Hfresh
                  |st documentId userId deletedAt Hr IH].
  - discriminate.
  - exact IH.
  - unfold processDocument.
    destruct (extractText env (files st) (po_file options)) as [text|e]; cbn [snd];
      [|exact IH].
    intros u d doc. unfold lookupDoc, userDocsOf. rewrite documents_ingest.
    fold (userDocsOf (saveDocument (newDocument options env text) st) u).
    fold (lookupDoc (saveDocument (newDocument options env text) st) u d).
    rewrite lookup_saveDocument.
    destruct (String.eqb u _ && String.eqb d _); [|apply IH].
    intros [= <-]. reflexivity.
  - unfold deleteDocument.
    destruct (JsMap.get (userDocsOf st userId) documentId) as [document|]; cbn [snd];
      [|exact IH].
    intros u d doc.
    cbn [removeFromIndex documents documentIndex nextAddr files].
    unfold lookupDoc, userDocsOf at 1. cbn [documents].
    apply reachable_consistent in Hr. destruct Hr as [[_ _ Hnd] _ _].
    rewrite (lookup_deleted st userId documentId u d (Hnd userId)).
    destruct (String.eqb u userId && String.eqb d documentId); [discriminate|apply IH].
Qed.

(** What is found when some chunk has an occurrence. *)
Lemma findRelevantChunks_best chunks terms maxChunks chunk :
  (1 <= maxChunks)%Z ->
  In chunk chunks ->
  (0 < chunkScore terms chunk)%Z ->
  exists best rest,
    findRelevantChunks chunks terms maxChunks = best :: rest
    /\ forall other, In other chunks -> (chunkScore terms other <= sc_score best)%Z.
Proof.
  intros Hone Hin Hpos.
  set (scored := List.map (fun c => {| sc_chunk := c; sc_score := chunkScore terms c |})
                          chunks).
  destruct (sort_head_max sc_score scored
              {| sc_chunk := chunk; sc_score := chunkScore terms chunk |})
    as [best [rest [Hsort Hbest]]].
  { unfold scored. apply in_map_iff. eauto. }
  simpl in Hbest.
  assert (Hmaxall : forall other, In other chunks ->
                                  (chunkScore terms other <= sc_score best)%Z).
  { intros other Ho.
    destruct (sort_head_max sc_score scored
                {| sc_chunk := other; sc_score := chunkScore terms other |})
      as [best' [rest' [Hsort' Hb']]].
    { unfold scored. apply in_map_iff. eauto. }
    rewrite Hsort in Hsort'. inversion Hsort'; subst. exact Hb'. }
  unfold findRelevantChunks. fold scored. rewrite slice_from_0 by lia. rewrite Hsort.
  destruct (Z.to_nat maxChunks) as [|n] eqn:En; [lia|].
  simpl. replace (0 <? sc_score best)%Z with true by (symmetry; apply Z.ltb_lt; lia).
  eauto.
Qed.

(** X20. In every state the service reaches, every result of a search
    comes with at least one relevant chunk and at most three, each a
    chunk of the result's document in which a query term occurs. *)
Theorem X20_every_result_has_an_excerpt :
  forall (st : KB), reachable st ->
  forall (query userId : string) (options : SearchOptions) (r : SearchResult),
    In r (searchKnowledgeBase query userId options st) ->
    res_relevantChunks r <> []
    /\ List.length (res_relevantChunks r) <= 3
    /\ exists doc,
         lookupDoc st userId (sum_id (res_document r)) = Some doc
         /\ Forall (fun c => In (sc_chunk c) (doc_chunks doc) /\ (1 <= sc_score c)%Z)
                   (res_relevantChunks r).
Proof.
  intros st Hreach query userId options r Hr.
  pose proof (reachable_chunks st Hreach) as Hchunks.
  apply reachable_consistent in Hreach. destruct Hreach as [[Hkeys _ _] _ Hrefs].
  destruct (result_score_accumulated st query userId options r Hr)
    as [d [doc [Hdoc [Hshape Hget]]]].
  destruct (Hkeys userId d doc Hdoc) as [Hid _].
  assert (Hrel : res_relevantChunks r
                 = findRelevantChunks (doc_chunks doc) (extractSearchTerms query) 3)
    by (rewrite Hshape; reflexivity).
  rewrite get_documentScores in Hget.
  destruct (matchCount st userId d (extractSearchTerms query)) eqn:Em; [discriminate|].
  destruct (matchCount_pos_In st userId d (extractSearchTerms query)) as [term [Hq Hpos]];
    [lia|].
  rewrite Hrefs in Hpos. unfold storedCount in Hpos. rewrite Hdoc in Hpos.
  assert (Hd : In term (extractSearchTerms (doc_extractedText doc)))
    by now apply (count_occ_In string_dec).
  destruct (term_in_some_chunk _ term Hd) as [chunk [Hin Hinc]].
  rewrite <- (Hchunks userId d doc Hdoc) in Hin.
  destruct (terms_are_words _ term Hd) as [_ Hlen].
  assert (Hne : term <> EmptyString) by now apply length_pos_nonempty.
  pose proof (chunkScore_pos (extractSearchTerms query) chunk term Hq Hne Hinc) as Hscore.
  destruct (findRelevantChunks_best (doc_chunks doc) (extractSearchTerms query) 3 chunk)
    as [best [rest [E _]]]; [lia | auto | lia |].
  split; [rewrite Hrel, E; discriminate|]. split.
  - rewrite Hrel. unfold findRelevantChunks. rewrite slice_from_0 by lia.
    etransitivity; [apply filter_length_le|]. apply firstn_le_length.
  - exists doc. split; [rewrite Hshape; simpl; now rewrite Hid|].
    rewrite Hrel. unfold findRelevantChunks. apply Forall_forall. intros c Hc.
    apply filter_In in Hc. destruct Hc as [Hc Hs]. apply Z.ltb_lt in Hs.
    apply slice_In in Hc. apply sort_In in Hc. apply in_map_iff in Hc.
    destruct Hc as [ch [<- Hch]]. simpl in *. split; auto. lia.
Qed.

Lemma X20_witness :
  res_relevantChunks (searchResult Examples.docB 1 (extractSearchTerms "Banana, zebra!"))
  <> [].
Proof.
  destruct (X20_every_result_has_an_excerpt Examples.kbAB reachable_kbAB
              "Banana, zebra!" "u1" noOptions
              (searchResult Examples.docB 1 (extractSearchTerms "Banana, zebra!")))
    as [H _].
  - vm_compute. left. reflexivity.
  - exact H.
Defined.
